(** * photo-site: the thumbnail generator and the web resizer

    A shallow embedding of [working/generate_thumbs.py] and
    [working/resize_for_web.py], the properties their description states
    about them (Part IV), and further properties of the two scripts that the
    code shows (Part V).

    The scripts are thin drivers around an image library (Pillow), the
    file system and the console.  The embedding keeps the three apart:

    - Python's numbers: [int / int] is IEEE-754 binary64 division of the two
      converted operands, [int * float] and [float * int] are binary64
      products, [int(x)] truncates toward zero.  The binary64 operations are
      the ones of the Standard Library's [SpecFloat] at precision 53.
    - Pillow: an image is its size, its EXIF orientation tag and an opaque
      raster.  What the library computes on rasters and on encoded bytes is
      not modelled; it is a parameter ([Pillow]), every operation of which
      may raise.
    - the operating system: three directories of named files, the console,
      and a log of the file-system calls that were made.

    A Python exception is represented by its message, which is all that the
    handlers of the scripts use. *)

From stdpp Require Import gmap strings list sorting pretty.
From Stdlib Require Import Ascii ZArith QArith Qpower Lia Lqa.
From Stdlib Require Import Floats.SpecFloat.

Local Open Scope string_scope.
Local Open Scope Z_scope.

(* ================================================================= *)
(** * Part I: definitions *)
(* ================================================================= *)

(* ----------------------------------------------------------------- *)
(** ** Python values *)

(** The outcome of evaluating an expression: a value, or a raised exception
    (its [str(e)]). *)
Inductive result (A : Type) : Type :=
| Ok (a : A)
| Raise (msg : string).
Arguments Ok {A} a.
Arguments Raise {A} msg.

(** [float(n)] for an [int]: the nearest binary64 (exact below [2^53]). *)
Definition float_of_int (n : Z) : spec_float :=
  binary_normalize 53 1024 n 0 false.

(** [a / b] on two [int]s: true division.  For operands below [2^53], which
    covers every image dimension, CPython divides the two converted
    doubles. *)
Definition int_truediv (a b : Z) : result spec_float :=
  if b =? 0 then Raise "division by zero"
  else Ok (SFdiv 53 1024 (float_of_int a) (float_of_int b)).

(** [x * y] on two [float]s. *)
Definition float_mul (x y : spec_float) : spec_float := SFmul 53 1024 x y.

(** [int(x)] for a [float]: truncation toward zero. *)
Definition int_of_float (x : spec_float) : result Z :=
  match x with
  | S754_zero _ => Ok 0
  | S754_finite s m e =>
      Ok (cond_Zopp s (if 0 <=? e then Z.pos m * 2 ^ e else Z.pos m / 2 ^ (- e)))
  | S754_infinity _ => Raise "cannot convert float infinity to integer"
  | S754_nan => Raise "cannot convert float NaN to integer"
  end.

(** [int(c * (a / b))], the shape of line 34-35 of the thumbnail script. *)
Definition int_times_ratio (c a b : Z) : result Z :=
  match int_truediv a b with
  | Ok r => int_of_float (float_mul (float_of_int c) r)
  | Raise msg => Raise msg
  end.

(** [int((a / b) * c)], the shape of lines 66 and 69 of the resizer. *)
Definition ratio_times_int (a b c : Z) : result Z :=
  match int_truediv a b with
  | Ok r => int_of_float (float_mul r (float_of_int c))
  | Raise msg => Raise msg
  end.

(** Vocabulary for the rounding analysis: the rational value of a mantissa and
    exponent, the unit round-off [2^-53], the magnitude (bit length plus
    exponent), and the position of an exact quotient [T / U] relative to the
    integer [m]. *)
Definition F2Q (m e : Z) : Q := (inject_Z m * 2 ^ e)%Q.

Definition eps : Q := 1 # 9007199254740992.

Definition mag (m e : Z) : Z := Zdigits2 m + e.

Definition inbetween (m : Z) (l : location) (T U : Z) : Prop :=
  match l with
  | loc_Exact => T = m * U
  | loc_Inexact c => m * U < T < (m + 1) * U /\ (2 * T ?= (2 * m + 1) * U) = c
  end.

(* ----------------------------------------------------------------- *)
(** ** Pillow *)

(** [Image.Transpose]. *)
Inductive Transpose : Type :=
| FLIP_LEFT_RIGHT | ROTATE_180 | FLIP_TOP_BOTTOM
| TRANSPOSE | ROTATE_270 | TRANSVERSE | ROTATE_90.

(** An image object: [img.size], the EXIF orientation tag (0x0112) if the
    file carries one, and the pixel data. *)
Record image {pixels : Type} : Type := Image {
  img_size : Z * Z;
  orientation : option Z;
  raster : pixels;
}.
Arguments image : clear implicits.
Arguments Image {pixels} img_size orientation raster.

Definition img_width {pixels} (img : image pixels) : Z := (img_size img).1.
Definition img_height {pixels} (img : image pixels) : Z := (img_size img).2.

(** The arguments of one [img.save(path, quality=..., optimize=..., exif=...)]
    call; [sv_exif = None] when the keyword is not given. *)
Record save_request {pixels : Type} : Type := SaveRequest {
  sv_image : image pixels;
  sv_quality : Z;
  sv_optimize : bool;
  sv_exif : option (list Byte.byte);
}.
Arguments save_request : clear implicits.
Arguments SaveRequest {pixels} sv_image sv_quality sv_optimize sv_exif.

(** The JPEG writer emits the EXIF block it is given by the [exif] keyword and
    none without it: what the written file carries as EXIF. *)
Definition saved_exif {pixels} (req : save_request pixels) : list Byte.byte :=
  default [] (sv_exif req).

(** What a [save] call leaves behind: the encoded file, or an exception and
    whatever is then at the destination ([None]: no file). *)
Inductive save_outcome : Type :=
| Written (data : list Byte.byte)
| SaveFailed (msg : string) (residue : option (list Byte.byte)).

(** The part of Pillow that is not modelled: header parsing, pixel decoding,
    resampling, transposition and encoding.  Each may raise. *)
Class Pillow : Type := {
  pixels : Type;
  decode_header : list Byte.byte -> result (image pixels);
  load_error : image pixels -> option string;
  resample : image pixels -> Z * Z -> result pixels;
  transpose_raster : Transpose -> image pixels -> result pixels;
  encode : save_request pixels -> option (list Byte.byte) -> save_outcome;
}.

Section PillowOps.
Context `{Pillow}.

(** [img.copy()]: forces the pixel data to be decoded. *)
Definition copy (img : image pixels) : result (image pixels) :=
  match load_error img with
  | Some e => Raise e
  | None => Ok img
  end.

(** [img.resize(size, Image.Resampling.LANCZOS)]: the result has the
    requested size. *)
Definition resize (img : image pixels) (new_size : Z * Z) : result (image pixels) :=
  match load_error img with
  | Some e => Raise e
  | None =>
      match resample img new_size with
      | Ok px => Ok (Image new_size (orientation img) px)
      | Raise e => Raise e
      end
  end.

Definition transposed_size (m : Transpose) (s : Z * Z) : Z * Z :=
  match m with
  | TRANSPOSE | ROTATE_270 | TRANSVERSE | ROTATE_90 => (s.2, s.1)
  | FLIP_LEFT_RIGHT | ROTATE_180 | FLIP_TOP_BOTTOM => s
  end.

(** [img.transpose(method)]. *)
Definition transpose (img : image pixels) (m : Transpose) : result (image pixels) :=
  match transpose_raster m img with
  | Ok px => Ok (Image (transposed_size m (img_size img)) (orientation img) px)
  | Raise e => Raise e
  end.

(** The table of [ImageOps.exif_transpose]. *)
Definition orientation_method (o : Z) : option Transpose :=
  match o with
  | 2 => Some FLIP_LEFT_RIGHT
  | 3 => Some ROTATE_180
  | 4 => Some FLIP_TOP_BOTTOM
  | 5 => Some TRANSPOSE
  | 6 => Some ROTATE_270
  | 7 => Some TRANSVERSE
  | 8 => Some ROTATE_90
  | _ => None
  end.

(** [ImageOps.exif_transpose(img)]: the transposed image without its
    orientation tag, or a copy when there is nothing to do.  The Python
    function is typed as returning an optional image. *)
Definition exif_transpose (img : image pixels) : result (option (image pixels)) :=
  match orientation_method (default 1 (orientation img)) with
  | Some m =>
      match transpose img m with
      | Ok t => Ok (Some (Image (img_size t) None (raster t)))
      | Raise e => Raise e
      end
  | None => Ok (Some img)
  end.

End PillowOps.

(* ----------------------------------------------------------------- *)
(** ** The operating system *)

(** A path below the directory of the scripts: [parent / name]. *)
Record Path : Type := mkPath { parent : string; name : string }.

#[global] Instance Path_eq_dec : EqDecision Path.
Proof. solve_decision. Defined.

(** The file-system calls that are logged. *)
Inductive fs_event `{Pillow} : Type :=
| Mkdir (d : string)
| CopyFile (src dst : Path)
| SaveCall (p : Path) (req : save_request pixels).
Arguments Mkdir {_} d.
Arguments CopyFile {_} src dst.
Arguments SaveCall {_} p req.

(** The world the scripts run in: [here] is [Path(__file__).parent], [fs] the
    directories below it with their files. *)
Record world `{Pillow} : Type := World {
  here : string;
  fs : gmap string (gmap string (list Byte.byte));
  stdout : list string;
  fslog : list fs_event;
}.
Arguments World {_} here fs stdout fslog.

Section OS.
Context `{Pillow}.

(** Statements: state passing with exceptions. *)
Definition M (A : Type) : Type := world -> result A * world.

#[global] Instance M_ret : MRet M := λ A a w, (Ok a, w).

#[global] Instance M_bind : MBind M := λ A B f m w,
  match m w with
  | (Ok a, w') => f a w'
  | (Raise e, w') => (Raise e, w')
  end.

(** [try: body except Exception as e: handler]. *)
Definition try_except {A} (body : M A) (handler : string -> M A) : M A := λ w,
  match body w with
  | (Ok a, w') => (Ok a, w')
  | (Raise e, w') => handler e w'
  end.

Definition lift {A} (r : result A) : M A := λ w, (r, w).

(** [for x in l: body]. *)
Fixpoint for_each {A} (l : list A) (body : A -> M unit) : M unit :=
  match l with
  | [] => mret ()
  | x :: l' => body x;; for_each l' body
  end.

Definition with_fs (w : world) (f : gmap string (gmap string (list Byte.byte))) : world :=
  World (here w) f (stdout w) (fslog w).

Definition with_event (w : world) (ev : fs_event) : world :=
  World (here w) (fs w) (stdout w) (fslog w ++ [ev]).

Definition print (s : string) : M unit := λ w,
  (Ok (), World (here w) (fs w) (stdout w ++ [s]) (fslog w)).

(** [str(d)] and [str(p)]. *)
Definition dir_name (w : world) (d : string) : string := here w ++ "/" ++ d.

Definition dir_str (d : string) : M string := λ w, (Ok (dir_name w d), w).

Definition path_str (w : world) (p : Path) : string :=
  here w ++ "/" ++ parent p ++ "/" ++ name p.

Definition lookup_file (w : world) (p : Path) : option (list Byte.byte) :=
  fs w !! parent p ≫= λ files, files !! name p.

(** [d.exists()] and [p.exists()]. *)
Definition dir_exists (d : string) : M bool := λ w,
  (Ok (bool_decide (is_Some (fs w !! d))), w).

Definition path_exists (p : Path) : M bool := λ w,
  (Ok (bool_decide (is_Some (lookup_file w p))), w).

(** [d.mkdir(exist_ok=True)]. *)
Definition mkdir (d : string) : M unit := λ w,
  match fs w !! d with
  | Some _ => (Ok (), w)
  | None => (Ok (), with_event (with_fs w (<[d := ∅]> (fs w))) (Mkdir d))
  end.

(** [fnmatch] for the patterns the scripts use: a leading [*] followed by
    literal text. *)
Definition ends_with (suffix s : string) : bool :=
  bool_decide (String.length suffix ≤ String.length s)%nat
  && String.eqb
       (String.substring (String.length s - String.length suffix)%nat
                         (String.length suffix) s)
       suffix.

Definition fnmatch (pattern s : string) : bool :=
  match pattern with
  | String "*"%char suffix => ends_with suffix s
  | _ => String.eqb pattern s
  end.

(** [d.glob(pattern)]; nothing for a directory that does not exist. *)
Definition glob_list (d pattern : string) (w : world) : list Path :=
  match fs w !! d with
  | Some files => mkPath d <$> filter (λ n, fnmatch pattern n) (map_to_list files).*1
  | None => []
  end.

Definition glob (d pattern : string) : M (list Path) := λ w,
  (Ok (glob_list d pattern w), w).

(** The order of [sorted] on paths of one directory. *)
Definition path_le (p q : Path) : Prop := String.leb (name p) (name q).

#[global] Instance path_le_dec : RelDecision path_le.
Proof. intros p q. unfold path_le. apply _. Defined.

#[global] Instance path_le_total : Total path_le.
Proof. intros p q. unfold path_le. apply (String.le_total (name p) (name q)). Qed.

Definition sorted (l : list Path) : list Path := merge_sort path_le l.

Definition no_such_file (w : world) (p : Path) : string :=
  "[Errno 2] No such file or directory: '" ++ path_str w p ++ "'".

(** [Image.open(p)]. *)
Definition Image_open (p : Path) : M (image pixels) := λ w,
  match lookup_file w p with
  | Some data => (decode_header data, w)
  | None => (Raise (no_such_file w p), w)
  end.

(** [img.save(p, quality=.., optimize=.., exif=..)]. *)
Definition save (img : image pixels) (p : Path)
    (quality : Z) (optimize : bool) (exif : option (list Byte.byte)) : M unit := λ w,
  match fs w !! parent p with
  | None => (Raise (no_such_file w p), w)
  | Some files =>
      let req := SaveRequest img quality optimize exif in
      let w1 := with_event w (SaveCall p req) in
      match encode req (files !! name p) with
      | Written data =>
          (Ok (), with_fs w1 (<[parent p := <[name p := data]> files]> (fs w)))
      | SaveFailed msg (Some partial) =>
          (Raise msg, with_fs w1 (<[parent p := <[name p := partial]> files]> (fs w)))
      | SaveFailed msg None =>
          (Raise msg, with_fs w1 (<[parent p := delete (name p) files]> (fs w)))
      end
  end.

(** [shutil.copy2(src, dst)]. *)
Definition copy2 (src dst : Path) : M unit := λ w,
  match lookup_file w src, fs w !! parent dst with
  | Some data, Some files =>
      (Ok (), with_event (with_fs w (<[parent dst := <[name dst := data]> files]> (fs w)))
                         (CopyFile src dst))
  | None, _ => (Raise (no_such_file w src), w)
  | _, None => (Raise (no_such_file w dst), w)
  end.

End OS.

Definition nl : string := String "010"%char "".

(** The lines the scripts print. *)
Definition line_error (n e : string) : string := "✗ Error processing " ++ n ++ ": " ++ e.
Definition line_no_jpgs (d : string) : string := "No JPG files found in " ++ d.
Definition line_generated (n : string) : string := "✓ Generated: " ++ n.
Definition line_skipped (n : string) : string := "○ Skipped: " ++ n ++ " (thumbnail exists)".
Definition line_found_nl (k : nat) : string :=
  "Found " ++ pretty k ++ " image(s) to process" ++ nl.
Definition line_done : string := nl ++ "Done!".
Definition line_no_orientation (n : string) : string :=
  "✗ Error: Could not process orientation for " ++ n.
Definition line_optimized (n : string) : string := "✓ Optimized quality: " ++ n.
Definition line_size (width height : Z) : string :=
  "  Size: " ++ pretty width ++ "x" ++ pretty height ++ " (no resize needed)".
Definition line_resized (n : string) : string := "✓ Resized: " ++ n.
Definition line_dimensions (width height new_width new_height : Z) : string :=
  "  " ++ pretty width ++ "x" ++ pretty height ++ " → "
       ++ pretty new_width ++ "x" ++ pretty new_height.
Definition line_missing (d : string) : string := "Error: " ++ d ++ " does not exist".
Definition line_found (k : nat) : string := "Found " ++ pretty k ++ " image(s) to process".
Definition line_settings (max_dimension quality : Z) : string :=
  "Max dimension: " ++ pretty max_dimension ++ "px, Quality: " ++ pretty quality ++ "%".
Definition line_creating_backup (d : string) : string :=
  nl ++ "Creating backup in " ++ d ++ "..." ++ nl.
Definition line_processed (k : nat) : string :=
  "Done! Processed " ++ pretty k ++ " image(s)".
Definition line_backed_up (d : string) : string := "Original files backed up to: " ++ d.


Section Discovery.
Context `{Pillow}.

(** Both scripts collect their inputs the same way (lines 55-57 and 90-92):
    [image_files = []; for ext in exts: image_files.extend(d.glob(ext))]. *)
Fixpoint extend_globs (d : string) (exts : list string) (image_files : list Path)
    : M (list Path) :=
  match exts with
  | [] => mret image_files
  | ext :: exts' => found ← glob d ext; extend_globs d exts' (image_files ++ found)
  end.

Definition jpg_patterns : list string := ["*.jpg"; "*.jpeg"; "*.JPG"; "*.JPEG"].

Definition find_jpgs (d : string) : M (list Path) :=
  extend_globs d jpg_patterns [].

End Discovery.

(* ----------------------------------------------------------------- *)
(** ** generate_thumbs.py *)

Module generate_thumbs.
Section Script.
Context `{Pillow}.

Definition THUMBNAIL_HEIGHT : Z := 250.
Definition IMAGES_DIR : string := "images".
Definition THUMBS_DIR : string := "thumbs".

(** Lines 32-42, the body of the [try]. *)
Definition generate_thumbnail_body (image_path thumb_path : Path) (height : Z) : M unit :=
  img ← Image_open image_path;
  new_width ← lift (int_times_ratio height (img_width img) (img_height img));
  img_resized ← lift (resize img (new_width, height));
  save img_resized thumb_path 85 true None;;
  print (line_generated (name thumb_path)).

Definition generate_thumbnail (image_path thumb_path : Path) (height : Z) : M unit :=
  try_except (generate_thumbnail_body image_path thumb_path height)
    (λ e, print (line_error (name image_path) e)).

(** Lines 67-74, the body of the loop. *)
Definition process_image (image_path : Path) : M unit :=
  let thumb_path := mkPath THUMBS_DIR (name image_path) in
  present ← path_exists thumb_path;
  if present : bool
  then print (line_skipped (name image_path))
  else generate_thumbnail image_path thumb_path THUMBNAIL_HEIGHT.

Definition main : M unit :=
  mkdir IMAGES_DIR;;
  mkdir THUMBS_DIR;;
  image_files ← find_jpgs IMAGES_DIR;
  match image_files with
  | [] => d ← dir_str IMAGES_DIR; print (line_no_jpgs d)
  | _ :: _ =>
      print (line_found_nl (length image_files));;
      for_each (sorted image_files) process_image;;
      print line_done
  end.

End Script.
End generate_thumbs.

(* ----------------------------------------------------------------- *)
(** ** resize_for_web.py *)

Module resize_for_web.
Section Script.
Context `{Pillow}.

Definition MAX_DIMENSION : Z := 3000.
Definition QUALITY : Z := 80.
Definition IMAGES_DIR : string := "images".
Definition BACKUP_DIR : string := "images_backup".

(** Lines 63-69: the new dimensions of an image that is too large. *)
Definition new_dimensions (width height max_dimension : Z) : result (Z * Z) :=
  if height <? width then
    match ratio_times_int height width max_dimension with
    | Ok new_height => Ok (max_dimension, new_height)
    | Raise e => Raise e
    end
  else
    match ratio_times_int width height max_dimension with
    | Ok new_width => Ok (new_width, max_dimension)
    | Raise e => Raise e
    end.

(** Lines 38-77, the body of the [try]. *)
Definition resize_for_web_body (image_path : Path) (max_dimension quality : Z) : M unit :=
  img ← Image_open image_path;
  img ← lift (copy img);
  img ← lift (exif_transpose img);
  match img with
  | None => print (line_no_orientation (name image_path))
  | Some img =>
      let width := img_width img in
      let height := img_height img in
      let max_original := Z.max width height in
      if max_original <=? max_dimension then
        save img image_path quality true (Some []);;
        print (line_optimized (name image_path));;
        print (line_size width height)
      else
        new_size ← lift (new_dimensions width height max_dimension);
        img_resized ← lift (resize img new_size);
        save img_resized image_path quality true (Some []);;
        print (line_resized (name image_path));;
        print (line_dimensions width height new_size.1 new_size.2)
  end.

Definition resize_for_web (image_path : Path) (max_dimension quality : Z) : M unit :=
  try_except (resize_for_web_body image_path max_dimension quality)
    (λ e, print (line_error (name image_path) e)).

(** Lines 107-114, the body of the loop. *)
Definition process_image (image_path : Path) : M unit :=
  let backup_path := mkPath BACKUP_DIR (name image_path) in
  present ← path_exists backup_path;
  (if present : bool then mret () else copy2 image_path backup_path);;
  resize_for_web image_path MAX_DIMENSION QUALITY;;
  print "".

Definition main : M unit :=
  present ← dir_exists IMAGES_DIR;
  if negb present
  then d ← dir_str IMAGES_DIR; print (line_missing d)
  else
    image_files ← find_jpgs IMAGES_DIR;
    match image_files with
    | [] => d ← dir_str IMAGES_DIR; print (line_no_jpgs d)
    | _ :: _ =>
        print (line_found (length image_files));;
        print (line_settings MAX_DIMENSION QUALITY);;
        b ← dir_str BACKUP_DIR;
        print (line_creating_backup b);;
        mkdir BACKUP_DIR;;
        for_each (sorted image_files) process_image;;
        print (line_processed (length image_files));;
        print (line_backed_up b)
    end.

End Script.
End resize_for_web.


(* ----------------------------------------------------------------- *)
(** ** Vocabulary of the properties *)

Section Vocabulary.
Context `{Pillow}.

(** The files a run of [find_jpgs] finds. *)
Definition discovered (d : string) (w : world) : list Path :=
  match (find_jpgs d w).1 with
  | Ok l => l
  | Raise _ => []
  end.

(** A name that one of the four patterns matches. *)
Definition is_jpg (n : string) : bool :=
  existsb (λ pattern, fnmatch pattern n) jpg_patterns.

(** The directories after [d.mkdir(exist_ok=True)], and what the call logs. *)
Definition ensure_dir (d : string) (dirs : gmap string (gmap string (list Byte.byte)))
    : gmap string (gmap string (list Byte.byte)) :=
  match dirs !! d with
  | Some _ => dirs
  | None => <[d := ∅]> dirs
  end.

Definition mkdir_events (d : string) (dirs : gmap string (gmap string (list Byte.byte)))
    : list fs_event :=
  match dirs !! d with
  | Some _ => []
  | None => [Mkdir d]
  end.

(** The world once the thumbnail generator has made sure of its two
    directories (lines 51-52). *)
Definition thumbs_ready (w : world) : world :=
  World (here w)
    (ensure_dir generate_thumbs.THUMBS_DIR (ensure_dir generate_thumbs.IMAGES_DIR (fs w)))
    (stdout w)
    (fslog w ++ mkdir_events generate_thumbs.IMAGES_DIR (fs w)
             ++ mkdir_events generate_thumbs.THUMBS_DIR
                  (ensure_dir generate_thumbs.IMAGES_DIR (fs w))).

(** [w'] differs from [w] at most in the file [p], and in what was printed
    and logged since. *)
Record touches_only (p : Path) (w w' : world) : Prop := {
  to_here : here w' = here w;
  to_dirs : forall d, is_Some (fs w' !! d) <-> is_Some (fs w !! d);
  to_files : forall q, q <> p -> lookup_file w' q = lookup_file w q;
  to_stdout : stdout w `prefix_of` stdout w';
  to_fslog : fslog w `prefix_of` fslog w';
}.

Definition frames {A} (p : Path) (m : M A) : Prop :=
  forall w, touches_only p w (m w).2.

(** The per-file lines of the two scripts. *)
Definition thumb_report (n line : string) : Prop :=
  line = line_skipped n \/ line = line_generated n \/ exists e, line = line_error n e.

Definition web_report (n line : string) : Prop :=
  line = line_optimized n \/ line = line_resized n \/ line = line_no_orientation n
  \/ exists e, line = line_error n e.

(** Decoding, resizing or encoding raises [e] while the thumbnail of
    [image_path] is made. *)
Inductive thumb_failure (w : world) (image_path thumb_path : Path) (height : Z)
    (e : string) : Prop :=
| thumb_decode_fails data :
    lookup_file w image_path = Some data ->
    decode_header data = Raise e ->
    thumb_failure w image_path thumb_path height e
| thumb_resize_fails data img new_width :
    lookup_file w image_path = Some data ->
    decode_header data = Ok img ->
    int_times_ratio height (img_width img) (img_height img) = Ok new_width ->
    resize img (new_width, height) = Raise e ->
    thumb_failure w image_path thumb_path height e
| thumb_encode_fails data img new_width resized files residue :
    lookup_file w image_path = Some data ->
    decode_header data = Ok img ->
    int_times_ratio height (img_width img) (img_height img) = Ok new_width ->
    resize img (new_width, height) = Ok resized ->
    fs w !! parent thumb_path = Some files ->
    encode (SaveRequest resized 85 true None) (files !! name thumb_path)
      = SaveFailed e residue ->
    thumb_failure w image_path thumb_path height e.

(** The image the resizer works on: decoded, loaded and put upright. *)
Definition upright (w : world) (image_path : Path) : result (option (image pixels)) :=
  match lookup_file w image_path with
  | None => Raise (no_such_file w image_path)
  | Some data =>
      match decode_header data with
      | Raise e => Raise e
      | Ok img =>
          match copy img with
          | Raise e => Raise e
          | Ok img => exif_transpose img
          end
      end
  end.

(** Decoding, transposing, resizing or encoding raises [e] while
    [image_path] is resized for the web. *)
Inductive web_failure (w : world) (image_path : Path) (max_dimension quality : Z)
    (e : string) : Prop :=
| web_decode_fails data :
    lookup_file w image_path = Some data ->
    upright w image_path = Raise e ->
    web_failure w image_path max_dimension quality e
| web_resize_fails img new_size :
    upright w image_path = Ok (Some img) ->
    max_dimension < Z.max (img_width img) (img_height img) ->
    resize_for_web.new_dimensions (img_width img) (img_height img) max_dimension
      = Ok new_size ->
    resize img new_size = Raise e ->
    web_failure w image_path max_dimension quality e
| web_encode_fails img files residue :
    upright w image_path = Ok (Some img) ->
    Z.max (img_width img) (img_height img) <= max_dimension ->
    fs w !! parent image_path = Some files ->
    encode (SaveRequest img quality true (Some [])) (files !! name image_path)
      = SaveFailed e residue ->
    web_failure w image_path max_dimension quality e
| web_encode_resized_fails img new_size resized files residue :
    upright w image_path = Ok (Some img) ->
    max_dimension < Z.max (img_width img) (img_height img) ->
    resize_for_web.new_dimensions (img_width img) (img_height img) max_dimension
      = Ok new_size ->
    resize img new_size = Ok resized ->
    fs w !! parent image_path = Some files ->
    encode (SaveRequest resized quality true (Some [])) (files !! name image_path)
      = SaveFailed e residue ->
    web_failure w image_path max_dimension quality e.

(** The paths the loops derive from an image path (lines 67 and 108). *)
Definition thumb_path (p : Path) : Path := mkPath generate_thumbs.THUMBS_DIR (name p).

Definition backup_path (p : Path) : Path := mkPath resize_for_web.BACKUP_DIR (name p).

(** The statement after the image has been put upright (lines 51-77). *)
Definition resize_upright (image_path : Path) (max_dimension quality : Z)
    (img : image pixels) : M unit :=
  if Z.max (img_width img) (img_height img) <=? max_dimension then
    save img image_path quality true (Some []);;
    print (line_optimized (name image_path));;
    print (line_size (img_width img) (img_height img))
  else
    new_size ← lift (resize_for_web.new_dimensions (img_width img) (img_height img)
                       max_dimension);
    img_resized ← lift (resize img new_size);
    save img_resized image_path quality true (Some []);;
    print (line_resized (name image_path));;
    print (line_dimensions (img_width img) (img_height img) new_size.1 new_size.2).

(** The world in which the resizer enters its loop (lines 98-103). *)
Definition web_ready (w : world) : world :=
  World (here w) (ensure_dir resize_for_web.BACKUP_DIR (fs w))
    (stdout w ++ [line_found (length (discovered resize_for_web.IMAGES_DIR w));
                  line_settings resize_for_web.MAX_DIMENSION resize_for_web.QUALITY;
                  line_creating_backup (dir_name w resize_for_web.BACKUP_DIR)])
    (fslog w ++ mkdir_events resize_for_web.BACKUP_DIR (fs w)).

(** The size of an image once [exif_transpose] has put it upright. *)
Definition upright_size (img : image pixels) : Z * Z :=
  match orientation_method (default 1 (orientation img)) with
  | Some m => transposed_size m (img_size img)
  | None => img_size img
  end.


(** [w'] differs from [w] at most in files that satisfy [S], and in what was
    printed and logged since. *)
Record changes_within (S : Path -> Prop) (w w' : world) : Prop := {
  cw_here : here w' = here w;
  cw_files : forall q, ~ S q -> lookup_file w' q = lookup_file w q;
  cw_stdout : stdout w `prefix_of` stdout w';
  cw_fslog : fslog w `prefix_of` fslog w';
}.

(** The thumbnails of other images than [p]; the files other than [p] and
    its backup. *)
Definition other_thumbnails (p : Path) (q : Path) : Prop :=
  parent q = generate_thumbs.THUMBS_DIR /\ q <> thumb_path p.

Definition other_files (p : Path) (q : Path) : Prop :=
  q <> p /\ q <> backup_path p.

(** The lines [resize_for_web] prints for a file named [n]. *)
Definition web_lines (n : string) (lines : list string) : Prop :=
  (exists width height, lines = [line_optimized n; line_size width height])
  \/ (exists width height new_width new_height,
        lines = [line_resized n; line_dimensions width height new_width new_height])
  \/ lines = [line_no_orientation n]
  \/ exists e, lines = [line_error n e].

(** The file-system calls of one iteration of the resizer's loop, in a run
    that started in [w]: a copy to the backup if there was none, then at most
    one save of the file itself. *)
Definition web_calls (w : world) (quality : Z) (p : Path) (calls : list fs_event) : Prop :=
  exists copies saves,
    calls = (copies ++ saves)%list
    /\ copies = match lookup_file w (backup_path p) with
                | Some _ => []
                | None => [CopyFile p (backup_path p)]
                end
    /\ (saves = []
        \/ exists saved, saves = [SaveCall p (SaveRequest saved quality true (Some []))]).

(** The file-system calls of one iteration of the generator's loop, in a run
    that started in [w]: none, or one save of the resized image. *)
Definition thumb_calls (w : world) (height : Z) (p : Path) (calls : list fs_event) : Prop :=
  calls = []
  \/ exists data img new_width resized,
       lookup_file w p = Some data
       /\ decode_header data = Ok img
       /\ int_times_ratio height (img_width img) (img_height img) = Ok new_width
       /\ resize img (new_width, height) = Ok resized
       /\ calls = [SaveCall (thumb_path p) (SaveRequest resized 85 true None)].

End Vocabulary.
(* ----------------------------------------------------------------- *)
(** ** The description's rounding, and sample inputs *)

(** Rounding of the exact quotient [num / den] to the nearest integer, ties
    to even: Python's [round], which is what the description writes for the
    thumbnail width. *)
Definition round_half_even (num den : Z) : Z :=
  let q := num / den in
  let r2 := 2 * (num mod den) in
  if r2 <? den then q
  else if den <? r2 then q + 1
  else if Z.even q then q else q + 1.

Definition spec_thumbnail_width (height width_px height_px : Z) : Z :=
  round_half_even (height * width_px) height_px.

(** A small codec to run the scripts on: a file is one byte that names a
    test picture; resampling insists on a positive target size, as Pillow's
    does; encoding always succeeds. *)
Definition sample_header (data : list Byte.byte) : result (image unit) :=
  match data with
  | [Byte.x01] => Ok (Image (4000, 3000) (Some 6) ())
  | [Byte.x02] => Ok (Image (2000, 3000) None ())
  | [Byte.x03] => Ok (Image (1, 300) None ())
  | [Byte.x04] => Ok (Image (800, 600) None ())
  | [Byte.x05] => Ok (Image (4000, 1160) None ())
  | _ => Raise "cannot identify image file"
  end.

Definition sample_resample (img : image unit) (new_size : Z * Z) : result unit :=
  if (new_size.1 <? 1) || (new_size.2 <? 1)
  then Raise "height and width must be > 0"
  else Ok ().

Definition sample_codec : Pillow := {|
  pixels := unit;
  decode_header := sample_header;
  load_error := λ _, None;
  resample := sample_resample;
  transpose_raster := λ _ _, Ok ();
  encode := λ _ _, Written [Byte.xff; Byte.xd8];
|}.

Definition picture (size : Z * Z) (tag : option Z) : image (@pixels sample_codec) :=
  Image size tag ().

Definition sample_world (dirs : gmap string (gmap string (list Byte.byte)))
    : @world sample_codec :=
  World "/site" dirs [] [].

(** No [images/] at all; an empty [images/]; a small gallery with a rotated
    landscape, a portrait, a sliver and a file that is no image; and a
    gallery whose thumbnails and backups have been made. *)
Definition no_source : @world sample_codec := sample_world ∅.

Definition empty_source : @world sample_codec := sample_world {[ "images" := ∅ ]}.

Definition gallery_files : gmap string (list Byte.byte) :=
  {[ "rotated.jpg" := [Byte.x01];
     "portrait.jpg" := [Byte.x02];
     "sliver.jpeg" := [Byte.x03];
     "broken.JPG" := [Byte.x00] ]}.

Definition gallery : @world sample_codec :=
  sample_world {[ "images" := gallery_files; "thumbs" := ∅ ]}.

Definition finished_files : gmap string (list Byte.byte) :=
  {[ "small.jpg" := [Byte.x04]; "portrait.jpg" := [Byte.x02] ]}.

Definition finished : @world sample_codec :=
  sample_world {[ "images" := finished_files;
                  "thumbs" := finished_files;
                  "images_backup" := finished_files ]}.

Definition rotated_jpg : Path := mkPath "images" "rotated.jpg".
Definition portrait_jpg : Path := mkPath "images" "portrait.jpg".
Definition sliver_jpeg : Path := mkPath "images" "sliver.jpeg".
Definition broken_JPG : Path := mkPath "images" "broken.JPG".

(** Two more test pictures: a strip one pixel wide, and an icon smaller than
    a thumbnail. *)
Definition odd_header (data : list Byte.byte) : result (image unit) :=
  match data with
  | [Byte.x06] => Ok (Image (1, 4000) None ())
  | [Byte.x08] => Ok (Image (120, 90) None ())
  | _ => sample_header data
  end.

Definition odd_codec : Pillow := {|
  pixels := unit;
  decode_header := odd_header;
  load_error := λ _, None;
  resample := sample_resample;
  transpose_raster := λ _ _, Ok ();
  encode := λ _ _, Written [Byte.xff; Byte.xd8];
|}.

Definition odd_picture (size : Z * Z) : image (@pixels odd_codec) := Image size None ().

Definition odd_gallery : @world odd_codec :=
  World "/site"
    {[ "images" := {[ "strip.jpg" := [Byte.x06];
                      "icon.jpg" := [Byte.x08] ]};
       "thumbs" := ∅ ]} [] [].

Definition strip_jpg : Path := mkPath "images" "strip.jpg".
Definition icon_jpg : Path := mkPath "images" "icon.jpg".
Definition absent_jpg : Path := mkPath "images" "absent.jpg".

(* ================================================================= *)
(** * Part II: binary64 arithmetic *)
(* ================================================================= *)

(** The scripts compute their geometry in floating point.  This part derives,
    from the bit-level definitions of [SpecFloat], that division and
    multiplication of positive operands in the normal range are within a
    relative error of [2^-53] of the exact result, and from that the integer
    bounds on [int(c * (a / b))] that the claims need. *)

Lemma digits2_pos_bounds (p : positive) :
  2 ^ (Z.pos (digits2_pos p) - 1) <= Z.pos p < 2 ^ Z.pos (digits2_pos p).
Proof.
  induction p as [p IH | p IH |]; cbn [digits2_pos].
  - rewrite Pos2Z.inj_succ, Z.pow_succ_r by lia.
    replace (Z.succ (Z.pos (digits2_pos p)) - 1) with (Z.succ (Z.pos (digits2_pos p) - 1)) by lia.
    rewrite Z.pow_succ_r by lia. lia.
  - rewrite Pos2Z.inj_succ, Z.pow_succ_r by lia.
    replace (Z.succ (Z.pos (digits2_pos p)) - 1) with (Z.succ (Z.pos (digits2_pos p) - 1)) by lia.
    rewrite Z.pow_succ_r by lia. lia.
  - cbn. lia.
Qed.

Lemma digits2_pos_unique (p : positive) (d : Z) :
  2 ^ (d - 1) <= Z.pos p < 2 ^ d -> Z.pos (digits2_pos p) = d.
Proof.
  intros [Hlo Hhi]. pose proof (digits2_pos_bounds p) as [Glo Ghi].
  assert (0 < d).
  { destruct (Z_lt_le_dec 0 d) as [|Hd]; [assumption|exfalso].
    assert (2 ^ d <= 2 ^ 0) by (destruct (Z_lt_le_dec d 0); [rewrite Z.pow_neg_r by lia; cbn; lia | apply Z.pow_le_mono_r; lia]).
    cbn in *. lia. }
  destruct (Z.lt_trichotomy (Z.pos (digits2_pos p)) d) as [Hlt | [Heq | Hgt]]; [exfalso | assumption | exfalso].
  - assert (2 ^ Z.pos (digits2_pos p) <= 2 ^ (d - 1)) by (apply Z.pow_le_mono_r; lia). lia.
  - assert (2 ^ d <= 2 ^ (Z.pos (digits2_pos p) - 1)) by (apply Z.pow_le_mono_r; lia). lia.
Qed.

Ltac shr_case :=
  unfold inbetween in *;
  cbn [shr_1 shr_m shr_r shr_s loc_of_shr_record orb] in *;
  rewrite ?Z.compare_lt_iff, ?Z.compare_gt_iff, ?Z.compare_eq_iff in *;
  lia.

Lemma shr_1_m (mrs : shr_record) :
  0 <= shr_m mrs -> shr_m (shr_1 mrs) = shr_m mrs / 2.
Proof.
  destruct mrs as [m r s]. cbn [shr_m]. intros Hm.
  destruct m as [|[p|p|]|]; [reflexivity | | | reflexivity | lia]; cbn [shr_1 shr_m].
  - rewrite Pos2Z.inj_xI. apply Z.div_unique with 1; lia.
  - rewrite Pos2Z.inj_xO. apply Z.div_unique with 0; lia.
Qed.

Lemma shr_1_inbetween (mrs : shr_record) (T U : Z) :
  0 <= shr_m mrs -> 0 < U ->
  inbetween (shr_m mrs) (loc_of_shr_record mrs) T U ->
  inbetween (shr_m (shr_1 mrs)) (loc_of_shr_record (shr_1 mrs)) T (2 * U).
Proof.
  destruct mrs as [m r s]. cbn [shr_m]. intros Hm HU Hin.
  destruct m as [|[p|p|]|]; [| | | |lia].
  - destruct r, s; shr_case.
  - rewrite Pos2Z.inj_xI in Hin. destruct r, s; shr_case.
  - rewrite Pos2Z.inj_xO in Hin. destruct r, s; shr_case.
  - destruct r, s; shr_case.
Qed.

Lemma Zdigits2_bounds (m : Z) :
  0 < m -> 2 ^ (Zdigits2 m - 1) <= m < 2 ^ Zdigits2 m.
Proof. destruct m as [|p|p]; try lia. intros _. apply digits2_pos_bounds. Qed.

Lemma Zdigits2_unique (m d : Z) :
  0 < m -> 2 ^ (d - 1) <= m < 2 ^ d -> Zdigits2 m = d.
Proof. destruct m as [|p|p]; try lia. intros _. apply digits2_pos_unique. Qed.

Lemma Zdigits2_pos (m : Z) : 0 < m -> 0 < Zdigits2 m.
Proof. destruct m; cbn; lia. Qed.

Lemma loc_of_shr_record_of_loc (m : Z) (l : location) :
  loc_of_shr_record (shr_record_of_loc m l) = l.
Proof. destruct l as [|[ | | ]]; reflexivity. Qed.

Lemma shr_m_of_loc (m : Z) (l : location) : shr_m (shr_record_of_loc m l) = m.
Proof. destruct l as [|[ | | ]]; reflexivity. Qed.

Lemma iter_shr_1_inbetween (p : positive) :
  forall (mrs : shr_record) (T U : Z),
  0 <= shr_m mrs -> 0 < U ->
  inbetween (shr_m mrs) (loc_of_shr_record mrs) T U ->
  inbetween (shr_m (iter_pos shr_1 p mrs))
            (loc_of_shr_record (iter_pos shr_1 p mrs)) T (2 ^ Z.pos p * U)
  /\ shr_m (iter_pos shr_1 p mrs) = shr_m mrs / 2 ^ Z.pos p.
Proof.
  induction p as [p IH | p IH |]; intros mrs T U Hm HU Hin; cbn [iter_pos].
  - pose proof (shr_1_m mrs Hm) as E1.
    pose proof (shr_1_inbetween mrs T U Hm HU Hin) as I1.
    assert (0 <= shr_m (shr_1 mrs)) as Hm1 by (rewrite E1; apply Z.div_pos; lia).
    destruct (IH _ T (2 * U) Hm1 ltac:(lia) I1) as [I2 E2].
    assert (0 < 2 ^ Z.pos p) as Hp by (apply Z.pow_pos_nonneg; lia).
    assert (0 <= shr_m (iter_pos shr_1 p (shr_1 mrs))) as Hm2
      by (rewrite E2; apply Z.div_pos; lia).
    destruct (IH _ T (2 ^ Z.pos p * (2 * U)) Hm2 ltac:(lia) I2) as [I3 E3].
    replace (Z.pos p~1) with (1 + Z.pos p + Z.pos p) by lia.
    rewrite !Z.pow_add_r by lia. change (2 ^ 1) with 2. split.
    + replace (2 * 2 ^ Z.pos p * 2 ^ Z.pos p * U)
        with (2 ^ Z.pos p * (2 ^ Z.pos p * (2 * U))) by ring. exact I3.
    + rewrite E3, E2, E1, !Z.div_div by lia. f_equal. ring.
  - destruct (IH _ T U Hm HU Hin) as [I2 E2].
    assert (0 < 2 ^ Z.pos p) as Hp by (apply Z.pow_pos_nonneg; lia).
    assert (0 <= shr_m (iter_pos shr_1 p mrs)) as Hm2
      by (rewrite E2; apply Z.div_pos; lia).
    destruct (IH _ T (2 ^ Z.pos p * U) Hm2 ltac:(lia) I2) as [I3 E3].
    replace (Z.pos p~0) with (Z.pos p + Z.pos p) by lia.
    rewrite !Z.pow_add_r by lia. split.
    + replace (2 ^ Z.pos p * 2 ^ Z.pos p * U)
        with (2 ^ Z.pos p * (2 ^ Z.pos p * U)) by ring. exact I3.
    + rewrite E3, E2, !Z.div_div by lia. reflexivity.
  - split; [apply shr_1_inbetween; assumption | apply shr_1_m; assumption].
Qed.

Lemma shr_inbetween (mrs : shr_record) (e n T U : Z) :
  0 <= shr_m mrs -> 0 < U ->
  inbetween (shr_m mrs) (loc_of_shr_record mrs) T U ->
  exists mrs', shr mrs e n = (mrs', e + Z.max 0 n)
    /\ shr_m mrs' = shr_m mrs / 2 ^ Z.max 0 n
    /\ inbetween (shr_m mrs') (loc_of_shr_record mrs') T (2 ^ Z.max 0 n * U).
Proof.
  intros Hm HU Hin. destruct n as [|p|p]; cbn [shr].
  - exists mrs. rewrite Z.add_0_r. change (2 ^ Z.max 0 0) with 1.
    rewrite Z.div_1_r, Z.mul_1_l. auto.
  - exists (iter_pos shr_1 p mrs). rewrite Z.max_r by lia.
    destruct (iter_shr_1_inbetween p mrs T U Hm HU Hin) as [I E]. auto.
  - exists mrs. rewrite Z.max_l by lia. rewrite Z.add_0_r. change (2 ^ 0) with 1.
    rewrite Z.div_1_r, Z.mul_1_l. auto.
Qed.

Lemma round_nearest_even_spec (m : Z) (l : location) (T U : Z) :
  0 < U -> inbetween m l T U ->
  (round_nearest_even m l = m \/ round_nearest_even m l = m + 1)
  /\ 2 * Z.abs (round_nearest_even m l * U - T) <= U.
Proof.
  intros HU Hin. destruct l as [|[ | | ]]; cbn [round_nearest_even inbetween] in *.
  - subst T. split; [auto|]. rewrite Z.sub_diag. cbn. lia.
  - destruct Hin as [Hb Hc]. rewrite Z.compare_eq_iff in Hc.
    destruct (Z.even m); split; auto; lia.
  - destruct Hin as [Hb Hc]. rewrite Z.compare_lt_iff in Hc. split; auto; lia.
  - destruct Hin as [Hb Hc]. rewrite Z.compare_gt_iff in Hc. split; auto; lia.
Qed.

Lemma fexp_normal (e : Z) : -1074 <= e - 53 -> fexp 53 1024 e = e - 53.
Proof. unfold fexp, emin. lia. Qed.

Lemma shr_fexp_spec (m e : Z) (l : location) (T U : Z) :
  0 < m -> 0 < U -> inbetween m l T U -> -1074 <= Zdigits2 m + e - 53 ->
  exists mrs', shr_fexp 53 1024 m e l = (mrs', e + Z.max 0 (Zdigits2 m - 53))
   /\ shr_m mrs' = m / 2 ^ Z.max 0 (Zdigits2 m - 53)
   /\ inbetween (shr_m mrs') (loc_of_shr_record mrs') T
                (2 ^ Z.max 0 (Zdigits2 m - 53) * U).
Proof.
  intros Hm HU Hin He. unfold shr_fexp. rewrite fexp_normal by lia.
  replace (Zdigits2 m + e - 53 - e) with (Zdigits2 m - 53) by lia.
  destruct (shr_inbetween (shr_record_of_loc m l) e (Zdigits2 m - 53) T U)
    as (mrs' & E & Em & I).
  - rewrite shr_m_of_loc; lia.
  - lia.
  - rewrite shr_m_of_loc, loc_of_shr_record_of_loc. assumption.
  - exists mrs'. rewrite shr_m_of_loc in Em. auto.
Qed.

Lemma div_pow2_digits (m d : Z) :
  53 <= d -> 2 ^ (d - 1) <= m < 2 ^ d ->
  2 ^ 52 <= m / 2 ^ (d - 53) < 2 ^ 53.
Proof.
  intros Hd [Hlo Hhi].
  assert (0 < 2 ^ (d - 53)) as Hp by (apply Z.pow_pos_nonneg; lia).
  replace (d - 1) with (52 + (d - 53)) in Hlo by lia.
  replace d with (53 + (d - 53)) in Hhi at 1 by lia.
  rewrite Z.pow_add_r in Hlo, Hhi by lia. split.
  - apply Z.div_le_lower_bound; lia.
  - apply Z.div_lt_upper_bound; lia.
Qed.

Lemma binary_round_aux_spec (sx : bool) (mx ex : Z) (lx : location) (T U : Z) :
  0 < mx -> 0 < U -> inbetween mx lx T U ->
  53 <= Zdigits2 mx \/ lx = loc_Exact ->
  -1074 <= Zdigits2 mx + ex - 53 -> Zdigits2 mx + ex <= 1023 -> ex <= 971 ->
  exists (m : positive) (k : Z),
    binary_round_aux 53 1024 sx mx ex lx = S754_finite sx m (ex + k)
    /\ 0 <= k /\ 2 ^ 53 * Z.abs (Z.pos m * 2 ^ k * U - T) <= T
    /\ Zdigits2 mx <= Zdigits2 (Z.pos m) + k <= Zdigits2 mx + 1.
Proof.
  intros Hm HU Hin Hfull Hlo Hhi Hex0. unfold binary_round_aux.
  destruct (shr_fexp_spec mx ex lx T U Hm HU Hin Hlo) as (mrs1 & E1 & M1 & I1).
  rewrite E1. clear E1.
  pose proof (Zdigits2_bounds mx Hm) as Hd.
  set (d := Zdigits2 mx) in *. set (k1 := Z.max 0 (d - 53)) in *.
  assert (0 < 2 ^ k1) as Hk1 by (apply Z.pow_pos_nonneg; lia).
  destruct (round_nearest_even_spec _ _ T (2 ^ k1 * U) ltac:(lia) I1) as [R1 R2].
  set (m2 := round_nearest_even (shr_m mrs1) (loc_of_shr_record mrs1)) in *.
  assert (exists k2, 0 <= k2 <= 1 /\ ex + k1 + k2 <= 971
            /\ d - k1 <= Zdigits2 m2 <= k2 + 53
            /\ d <= Zdigits2 (m2 / 2 ^ k2) + k1 + k2 <= d + 1 /\ 0 < m2
            /\ m2 = (m2 / 2 ^ k2) * 2 ^ k2
            /\ Z.max 0 (Zdigits2 m2 - 53) = k2
            /\ 2 ^ 53 * Z.abs (m2 * (2 ^ k1 * U) - T) <= T) as (k2 & Hk2 & Hov & Hdk & Hmag & Hm2 & Hex & Hmax & Hrel).
  { destruct (Z_le_gt_dec 53 d) as [Hge | Hlt].
    - assert (k1 = d - 53) as -> by lia.
      pose proof (div_pow2_digits mx d Hge Hd) as Hb. rewrite <- M1 in Hb.
      assert (2 ^ 52 * (2 ^ (d - 53) * U) <= T) as HT.
      { destruct (loc_of_shr_record mrs1); cbn [inbetween] in I1; nia. }
      assert (2 ^ 52 <= m2 <= 2 ^ 53) as Hb2 by lia.
      destruct (Z_lt_le_dec m2 (2 ^ 53)) as [Hs | Hs].
      + exists 0. change (2 ^ 0) with 1. rewrite Z.div_1_r.
        rewrite (Zdigits2_unique m2 53) by (change (53 - 1) with 52; lia).
        repeat split; try lia.
      + assert (m2 = 2 ^ 53) as Hm2e by lia. exists 1.
        rewrite (Zdigits2_unique m2 54) by (rewrite Hm2e; cbn; lia).
        repeat split; try lia; rewrite Hm2e; try reflexivity.
        all: change (Zdigits2 (2 ^ 53 / 2 ^ 1)) with 53; lia.
    - destruct Hfull as [Hfull | ->]; [lia|].
      assert (k1 = 0) as Hk0 by lia. rewrite Hk0 in *. change (2 ^ 0) with 1 in *.
      rewrite Z.div_1_r in M1. cbn [inbetween] in Hin.
      assert (m2 = mx) as -> by nia.
      exists 0. change (2 ^ 0) with 1. rewrite Z.div_1_r. fold d.
      repeat split; try lia. }
  destruct (shr_fexp_spec m2 (ex + k1) loc_Exact (m2 * 1) 1 Hm2 ltac:(lia) eq_refl)
    as (mrs2 & E2 & M2 & _).
  { lia. }
  rewrite E2, M2, Hmax. clear E2 M2.
  assert (0 < 2 ^ k2) by (apply Z.pow_pos_nonneg; lia).
  assert (0 < m2 / 2 ^ k2) as Hq by nia.
  destruct (m2 / 2 ^ k2) as [|q|q] eqn:Eq; try lia.
  exists q, (k1 + k2). split; [|split; [|split]].
  - replace (ex + k1 + k2 <=? 1024 - 53) with true
      by (symmetry; apply Z.leb_le; lia).
    f_equal. lia.
  - lia.
  - rewrite Z.pow_add_r by lia.
    replace (Z.pos q * (2 ^ k1 * 2 ^ k2) * U) with (Z.pos q * 2 ^ k2 * (2 ^ k1 * U)) by ring.
    rewrite <- Hex. exact Hrel.
  - fold d. lia.
Qed.

Lemma Qpow2_pos (e : Z) : (0 < 2 ^ e)%Q.
Proof. apply Qpower_0_lt. reflexivity. Qed.

Lemma Qpow2_add (a b : Z) : (2 ^ (a + b) == 2 ^ a * 2 ^ b)%Q.
Proof. apply Qpower_plus. discriminate. Qed.

Lemma Qpow2_inject (k : Z) : 0 <= k -> (inject_Z (2 ^ k) == 2 ^ k)%Q.
Proof. intros Hk. rewrite Zpower_Qpower by assumption. reflexivity. Qed.

Lemma F2Q_shift (m e k : Z) : 0 <= k -> (F2Q m (e + k) == F2Q (m * 2 ^ k) e)%Q.
Proof.
  intros Hk. unfold F2Q. rewrite inject_Z_mult, Qpow2_add, Qpow2_inject by assumption.
  ring.
Qed.

Lemma binary_round_aux_Q (sx : bool) (mx ex : Z) (lx : location) (T U : Z) (v : Q) :
  0 < mx -> 0 < U -> inbetween mx lx T U ->
  53 <= Zdigits2 mx \/ lx = loc_Exact ->
  -1021 <= mag mx ex <= 1023 -> ex <= 971 ->
  (v * inject_Z U == inject_Z T * 2 ^ ex)%Q ->
  exists (m : positive) (e : Z),
    binary_round_aux 53 1024 sx mx ex lx = S754_finite sx m e
    /\ (v * (1 - eps) <= F2Q (Z.pos m) e <= v * (1 + eps))%Q
    /\ mag mx ex <= mag (Z.pos m) e <= mag mx ex + 1.
Proof.
  unfold mag. intros Hm HU Hin Hfull [Hlo Hhi] Hex Hv.
  destruct (binary_round_aux_spec sx mx ex lx T U Hm HU Hin Hfull)
    as (m & k & E & Hk & Hrel & Hmag); try lia.
  exists m, (ex + k). split; [exact E|]. split; [|lia].
  rewrite F2Q_shift by assumption. unfold F2Q.
  set (M := Z.pos m * 2 ^ k) in *.
  assert (- T <= 2 ^ 53 * (M * U - T) <= T) as [H1 H2] by lia.
  rewrite Zle_Qle in H1, H2. unfold Z.sub in H1, H2.
  repeat rewrite ?inject_Z_opp, ?inject_Z_mult, ?inject_Z_plus in H1, H2.
  change (inject_Z (2 ^ 53)) with (9007199254740992 # 1)%Q in H1, H2.
  assert (0 < inject_Z U)%Q as HUq by (change (inject_Z 0 < inject_Z U)%Q; rewrite <- Zlt_Qlt; assumption).
  pose proof (Qpow2_pos ex) as HP.
  set (u := inject_Z U) in *. set (t := inject_Z T) in *.
  set (P := (2 ^ ex)%Q) in *. set (q := inject_Z M) in *.
  split.
  - apply (Qmult_le_r _ _ u HUq).
    setoid_replace (v * (1 - eps) * u)%Q with ((v * u) * (1 - eps))%Q using relation Qeq by ring.
    rewrite Hv. unfold eps. 
    setoid_replace (t * P * (1 - (1 # 9007199254740992)))%Q
      with ((t * (1 - (1 # 9007199254740992))) * P)%Q using relation Qeq by ring.
    setoid_replace (q * P * u)%Q with ((q * u) * P)%Q using relation Qeq by ring.
    apply Qmult_le_compat_r; lra.
  - apply (Qmult_le_r _ _ u HUq).
    setoid_replace (v * (1 + eps) * u)%Q with ((v * u) * (1 + eps))%Q using relation Qeq by ring.
    rewrite Hv. unfold eps. 
    setoid_replace (t * P * (1 + (1 # 9007199254740992)))%Q
      with ((t * (1 + (1 # 9007199254740992))) * P)%Q using relation Qeq by ring.
    setoid_replace (q * P * u)%Q with ((q * u) * P)%Q using relation Qeq by ring.
    apply Qmult_le_compat_r; lra.
Qed.

Lemma pos_iter_xO (p k : positive) :
  Z.pos (Pos.iter xO p k) = Z.pos p * 2 ^ Z.pos k.
Proof.
  induction k as [|k IH] using Pos.peano_ind.
  - cbn [Pos.iter]. rewrite Pos2Z.inj_xO. change (2 ^ 1) with 2. ring.
  - rewrite Pos.iter_succ, Pos2Z.inj_xO, IH, Pos2Z.inj_succ, Z.pow_succ_r by lia. ring.
Qed.

Lemma Zdigits2_mul_pow2 (m k : Z) :
  0 < m -> 0 <= k -> Zdigits2 (m * 2 ^ k) = Zdigits2 m + k.
Proof.
  intros Hm Hk. pose proof (Zdigits2_bounds m Hm) as [Hlo Hhi].
  pose proof (Zdigits2_pos m Hm) as Hd.
  assert (0 < 2 ^ k) as Hp by (apply Z.pow_pos_nonneg; lia).
  apply Zdigits2_unique; [nia|].
  replace (Zdigits2 m + k - 1) with ((Zdigits2 m - 1) + k) by lia.
  rewrite !Z.pow_add_r by lia. nia.
Qed.

Lemma Zdigits2_mul (m1 m2 : Z) :
  0 < m1 -> 0 < m2 ->
  Zdigits2 m1 + Zdigits2 m2 - 1 <= Zdigits2 (m1 * m2) <= Zdigits2 m1 + Zdigits2 m2.
Proof.
  intros H1 H2.
  pose proof (Zdigits2_bounds m1 H1) as [L1 U1]. pose proof (Zdigits2_pos m1 H1) as P1.
  pose proof (Zdigits2_bounds m2 H2) as [L2 U2]. pose proof (Zdigits2_pos m2 H2) as P2.
  assert (0 < m1 * m2) as H12 by nia.
  pose proof (Zdigits2_bounds _ H12) as [L U]. pose proof (Zdigits2_pos _ H12) as P.
  set (d1 := Zdigits2 m1) in *. set (d2 := Zdigits2 m2) in *.
  set (d := Zdigits2 (m1 * m2)) in *.
  assert (2 ^ (d1 - 1 + (d2 - 1)) <= m1 * m2 < 2 ^ (d1 + d2)) as [Lp Up].
  { rewrite !Z.pow_add_r by lia.
    assert (0 < 2 ^ (d1 - 1)) by (apply Z.pow_pos_nonneg; lia).
    assert (0 < 2 ^ (d2 - 1)) by (apply Z.pow_pos_nonneg; lia). nia. }
  split.
  - destruct (Z_le_gt_dec (d1 + d2 - 1) d) as [|Hc]; [assumption|exfalso].
    assert (2 ^ d <= 2 ^ (d1 - 1 + (d2 - 1))) by (apply Z.pow_le_mono_r; lia). lia.
  - destruct (Z_le_gt_dec d (d1 + d2)) as [|Hc]; [assumption|exfalso].
    assert (2 ^ (d1 + d2) <= 2 ^ (d - 1)) by (apply Z.pow_le_mono_r; lia). lia.
Qed.

Lemma float_of_int_spec (n : Z) :
  0 < n < 2 ^ 53 ->
  exists (m : positive) (e : Z),
    float_of_int n = S754_finite false m e
    /\ (F2Q (Z.pos m) e == inject_Z n)%Q
    /\ mag (Z.pos m) e = Zdigits2 n.
Proof.
  intros [Hn0 Hn]. destruct n as [|p|p]; try lia.
  unfold float_of_int, binary_normalize, binary_round.
  pose proof (digits2_pos_bounds p) as [Hlo Hhi].
  set (d := Z.pos (digits2_pos p)) in *.
  assert (d <= 53) as Hd.
  { destruct (Z_le_gt_dec d 53) as [|Hc]; [assumption|exfalso].
    assert (2 ^ 53 <= 2 ^ (d - 1)) by (apply Z.pow_le_mono_r; lia). lia. }
  assert (0 < d) as Hd0 by (unfold d; lia).
  rewrite Z.add_0_r, fexp_normal by lia.
  assert (exists mz, shl_align p 0 (d - 53) = (mz, d - 53)
            /\ Z.pos mz = Z.pos p * 2 ^ (53 - d)) as (mz & -> & Hmz).
  { unfold shl_align. rewrite Z.sub_0_r.
    destruct (d - 53) as [|k|k] eqn:Ek; try lia.
    - exists p. replace (53 - d) with 0 by lia. split; [reflexivity | cbn; lia].
    - exists (Pos.iter xO p k). split; [reflexivity|].
      rewrite pos_iter_xO. f_equal. f_equal. lia. }
  assert (Zdigits2 (Z.pos mz) = 53) as Hdz.
  { rewrite Hmz, Zdigits2_mul_pow2 by lia. cbn [Zdigits2]. fold d. lia. }
  destruct (binary_round_aux_spec false (Z.pos mz) (d - 53) loc_Exact (Z.pos mz * 1) 1)
    as (m & k & E & Hk & Hrel & Hmag); try lia; try reflexivity.
  pose proof (Zdigits2_bounds (Z.pos mz) ltac:(lia)) as [_ Hup]. rewrite Hdz in Hup.
  assert (Z.pos m * 2 ^ k = Z.pos mz) as Hval by lia.
  exists m, (d - 53 + k). split; [exact E|]. split.
  - rewrite F2Q_shift, Hval, Hmz by assumption. unfold F2Q.
    rewrite inject_Z_mult, Qpow2_inject by lia.
    rewrite <- Qmult_assoc, <- Qpow2_add. replace (53 - d + (d - 53)) with 0 by lia.
    change (2 ^ 0)%Q with 1%Q. ring.
  - unfold mag. cbn [Zdigits2]. fold d.
    assert (Zdigits2 (Z.pos m) + k = 53) as Hk53
      by (rewrite <- Zdigits2_mul_pow2, Hval by lia; exact Hdz).
    cbn [Zdigits2] in Hk53. lia.
Qed.

Lemma SFmul_spec (m1 m2 : positive) (e1 e2 : Z) :
  -1020 <= mag (Z.pos m1) e1 + mag (Z.pos m2) e2 <= 1023 -> e1 + e2 <= 971 ->
  exists (m : positive) (e : Z),
    SFmul 53 1024 (S754_finite false m1 e1) (S754_finite false m2 e2)
      = S754_finite false m e
    /\ (F2Q (Z.pos m1) e1 * F2Q (Z.pos m2) e2 * (1 - eps) <= F2Q (Z.pos m) e
        <= F2Q (Z.pos m1) e1 * F2Q (Z.pos m2) e2 * (1 + eps))%Q
    /\ mag (Z.pos m1) e1 + mag (Z.pos m2) e2 - 1 <= mag (Z.pos m) e
       <= mag (Z.pos m1) e1 + mag (Z.pos m2) e2 + 1.
Proof.
  unfold mag. intros Hr He. cbn [SFmul xorb].
  pose proof (Zdigits2_mul (Z.pos m1) (Z.pos m2) ltac:(lia) ltac:(lia)) as Hd.
  rewrite <- Pos2Z.inj_mul in Hd.
  destruct (binary_round_aux_Q false (Z.pos (m1 * m2)) (e1 + e2) loc_Exact
              (Z.pos (m1 * m2) * 1) 1 (F2Q (Z.pos m1) e1 * F2Q (Z.pos m2) e2))
    as (m & e & E & Hv & Hmag); unfold mag in *; try lia; try reflexivity.
  { right. reflexivity. }
  { unfold F2Q. rewrite Z.mul_1_r, Pos2Z.inj_mul, inject_Z_mult, Qpow2_add.
    change (inject_Z 1) with 1%Q. ring. }
  exists m, e. split; [exact E|]. split; [exact Hv | lia].
Qed.

Lemma new_location_inbetween (nb q r : Z) :
  0 < nb -> 0 <= r < nb -> inbetween q (new_location nb r) (q * nb + r) nb.
Proof.
  intros Hnb Hr. unfold new_location, new_location_even, new_location_odd.
  destruct (Z.even nb) eqn:Ev; destruct (Z.eqb_spec r 0) as [-> | Hr0];
    cbn [inbetween]; try ring.
  - split; [lia|]. destruct (Z.compare_spec (2 * r) nb) as [H|H|H];
      [apply Z.compare_eq_iff | apply Z.compare_lt_iff | apply Z.compare_gt_iff]; lia.
  - assert (2 * r <> nb) as Hne.
    { intros <-. rewrite Z.even_mul in Ev. discriminate. }
    split; [lia|]. destruct (Z.compare_spec (2 * r + 1) nb) as [H|H|H];
      [apply Z.compare_lt_iff | apply Z.compare_lt_iff | apply Z.compare_gt_iff]; lia.
Qed.

Lemma shift_mantissa (m s : Z) :
  0 <= s ->
  match s with Z.pos _ => Z.shiftl m s | 0 => m | Z.neg _ => 0 end = m * 2 ^ s.
Proof.
  intros Hs. destruct s as [|ps|ps]; [lia | | lia].
  apply Z.shiftl_mul_pow2. lia.
Qed.

Lemma SFdiv_spec (m1 m2 : positive) (e1 e2 : Z) :
  -1021 <= mag (Z.pos m1) e1 - mag (Z.pos m2) e2 <= 1022 ->
  exists (m : positive) (e : Z),
    SFdiv 53 1024 (S754_finite false m1 e1) (S754_finite false m2 e2)
      = S754_finite false m e
    /\ (F2Q (Z.pos m1) e1 / F2Q (Z.pos m2) e2 * (1 - eps) <= F2Q (Z.pos m) e
        <= F2Q (Z.pos m1) e1 / F2Q (Z.pos m2) e2 * (1 + eps))%Q
    /\ mag (Z.pos m1) e1 - mag (Z.pos m2) e2 <= mag (Z.pos m) e
       <= mag (Z.pos m1) e1 - mag (Z.pos m2) e2 + 2.
Proof.
  unfold mag. intros Hr. cbn [SFdiv xorb]. unfold SFdiv_core_binary.
  pose proof (Zdigits2_bounds (Z.pos m1) ltac:(lia)) as [L1 U1].
  pose proof (Zdigits2_bounds (Z.pos m2) ltac:(lia)) as [L2 U2].
  pose proof (Zdigits2_pos (Z.pos m1) ltac:(lia)) as P1.
  pose proof (Zdigits2_pos (Z.pos m2) ltac:(lia)) as P2.
  set (d1 := Zdigits2 (Z.pos m1)) in *. set (d2 := Zdigits2 (Z.pos m2)) in *.
  rewrite fexp_normal by lia.
  set (e' := Z.min (d1 + e1 - (d2 + e2) - 53) (e1 - e2)).
  set (s := e1 - e2 - e').
  assert (0 <= s /\ 53 + d2 - d1 <= s) as [Hs0 Hs] by (unfold s, e'; lia).
  assert (match s with Z.pos _ => Z.shiftl (Z.pos m1) s | 0 => Z.pos m1 | Z.neg _ => 0 end
          = Z.pos m1 * 2 ^ s) as ->.
  { apply shift_mantissa. assumption. }
  assert (0 < 2 ^ s) as Hps by (apply Z.pow_pos_nonneg; lia).
  pose proof (Z_div_mod (Z.pos m1 * 2 ^ s) (Z.pos m2) ltac:(lia)) as Hdm.
  destruct (Z.div_eucl (Z.pos m1 * 2 ^ s) (Z.pos m2)) as [q r]. destruct Hdm as [Hq Hr0].
  set (a := d1 + s - d2).
  assert (2 ^ (d1 - 1 + s) <= Z.pos m1 * 2 ^ s < 2 ^ (d1 + s)) as [Lm Um].
  { rewrite !Z.pow_add_r by lia. nia. }
  assert (2 ^ (a - 1) <= q < 2 ^ (a + 1)) as [Lq Uq].
  { replace (d1 - 1 + s) with ((a - 1) + d2) in Lm by (unfold a; lia).
    replace (d1 + s) with ((a + 1) + (d2 - 1)) in Um by (unfold a; lia).
    rewrite Z.pow_add_r in Lm, Um by (unfold a; lia).
    assert (0 < 2 ^ (a - 1)) by (apply Z.pow_pos_nonneg; unfold a; lia).
    assert (0 < 2 ^ (a + 1)) by (apply Z.pow_pos_nonneg; unfold a; lia).
    split; nia. }
  assert (0 < q) as Hq0.
  { assert (0 < 2 ^ (a - 1)) by (apply Z.pow_pos_nonneg; unfold a; lia). lia. }
  assert (a <= Zdigits2 q <= a + 1) as Hdq.
  { destruct (Z_lt_le_dec q (2 ^ a)) as [Hlt | Hge].
    - rewrite (Zdigits2_unique q a) by lia. lia.
    - rewrite (Zdigits2_unique q (a + 1)); [lia | lia |].
      replace (a + 1 - 1) with a by lia. lia. }
  destruct (binary_round_aux_Q false q e' (new_location (Z.pos m2) r)
              (Z.pos m1 * 2 ^ s) (Z.pos m2)
              (F2Q (Z.pos m1) e1 / F2Q (Z.pos m2) e2))
    as (m & e & E & Hv & Hmag); unfold mag in *; try lia.
  { rewrite Hq, Z.mul_comm. apply new_location_inbetween; lia. }
  { unfold F2Q. rewrite inject_Z_mult, Qpow2_inject by lia.
    replace e1 with (s + e' + e2) at 1 by (unfold s; lia).
    rewrite !Qpow2_add. field. split.
    - pose proof (Qpow2_pos e2). lra.
    - change (~ inject_Z (Z.pos m2) == inject_Z 0)%Q. rewrite inject_Z_injective. lia. }
  exists m, e. split; [exact E|]. split; [exact Hv|].
  unfold a, s in *. lia.
Qed.

Lemma int_of_float_spec (m : positive) (e : Z) :
  exists n : Z, int_of_float (S754_finite false m e) = Ok n
    /\ (inject_Z n <= F2Q (Z.pos m) e < inject_Z n + 1)%Q.
Proof.
  cbn [int_of_float cond_Zopp]. destruct (Z.leb_spec 0 e) as [He | He].
  - exists (Z.pos m * 2 ^ e). split; [reflexivity|]. unfold F2Q.
    rewrite inject_Z_mult, Qpow2_inject by assumption. lra.
  - exists (Z.pos m / 2 ^ (- e)). split; [reflexivity|].
    assert (0 < 2 ^ (- e)) as Hp by (apply Z.pow_pos_nonneg; lia).
    pose proof (Z.mul_div_le (Z.pos m) _ Hp) as Hlo.
    pose proof (Z.mul_succ_div_gt (Z.pos m) _ Hp) as Hhi.
    set (n := Z.pos m / 2 ^ (- e)) in *.
    rewrite Zle_Qle in Hlo. rewrite Zlt_Qlt in Hhi. unfold Z.succ in Hhi.
    rewrite inject_Z_mult in Hlo, Hhi. rewrite inject_Z_plus in Hhi.
    rewrite Qpow2_inject in Hlo, Hhi by lia.
    pose proof (Qpow2_pos (- e)) as HP. pose proof (Qpow2_pos e) as HQ.
    assert (2 ^ (- e) * 2 ^ e == 1)%Q as Hinv
      by (rewrite <- Qpow2_add; replace (- e + e) with 0 by lia; reflexivity).
    unfold F2Q. change (inject_Z 1) with 1%Q in Hhi.
    set (P := (2 ^ (- e))%Q) in *. set (R := (2 ^ e)%Q) in *.
    set (x := inject_Z (Z.pos m)) in *. set (y := inject_Z n) in *.
    split.
    + apply (Qmult_le_r _ _ P HP).
      setoid_replace (x * R * P)%Q with (x * (P * R))%Q using relation Qeq by ring.
      rewrite Hinv. lra.
    + apply (Qmult_lt_r _ _ P HP).
      setoid_replace (x * R * P)%Q with (x * (P * R))%Q using relation Qeq by ring.
      rewrite Hinv. lra.
Qed.

Lemma Zdigits2_le (n k : Z) : 0 < n < 2 ^ k -> 0 < Zdigits2 n <= k.
Proof.
  intros [Hn Hk]. pose proof (Zdigits2_bounds n Hn) as [Hlo _].
  pose proof (Zdigits2_pos n Hn). split; [assumption|].
  destruct (Z_le_gt_dec (Zdigits2 n) k) as [|Hc]; [assumption|exfalso].
  assert (2 ^ k <= 2 ^ (Zdigits2 n - 1)).
  { destruct (Z_lt_le_dec k 0); [rewrite (Z.pow_neg_r 2 k) by lia; apply Z.pow_nonneg; lia|].
    apply Z.pow_le_mono_r; lia. }
  lia.
Qed.

Lemma scaled_ratio_bounds (a b c n : Z) (y : Q) :
  0 < a < 2 ^ 31 -> 0 < b -> 0 < c < 2 ^ 12 ->
  (inject_Z c * (inject_Z a / inject_Z b) * (1 - eps) * (1 - eps) <= y)%Q ->
  (y <= inject_Z c * (inject_Z a / inject_Z b) * (1 + eps) * (1 + eps))%Q ->
  (inject_Z n <= y < inject_Z n + 1)%Q ->
  c * a - b <= n * b <= c * a.
Proof.
  intros Ha Hb Hc Hlo Hhi [Hn1 Hn2].
  assert (0 < inject_Z b)%Q as HB
    by (change (inject_Z 0 < inject_Z b)%Q; rewrite <- Zlt_Qlt; assumption).
  assert (0 < c * a < 2 ^ 43) as Hca by (change (2 ^ 43) with (2 ^ 12 * 2 ^ 31); nia).
  destruct Hca as [Hca0 Hca1]. rewrite Zlt_Qlt in Hca0, Hca1.
  change (inject_Z (2 ^ 43)) with (8796093022208 # 1)%Q in Hca1.
  change (inject_Z 0) with 0%Q in Hca0.
  set (X := (inject_Z c * (inject_Z a / inject_Z b))%Q) in *.
  assert (X * inject_Z b == inject_Z (c * a))%Q as HX.
  { unfold X. rewrite inject_Z_mult. field. lra. }
  assert (inject_Z (n * b) < inject_Z (c * a) + 1)%Q as H1.
  { rewrite (inject_Z_mult n b).
    apply Qle_lt_trans with (X * (1 + eps) * (1 + eps) * inject_Z b)%Q.
    - apply Qmult_le_compat_r; lra.
    - setoid_replace (X * (1 + eps) * (1 + eps) * inject_Z b)%Q
        with ((X * inject_Z b) * (1 + eps) * (1 + eps))%Q using relation Qeq by ring.
      rewrite HX. unfold eps. lra. }
  assert (inject_Z (c * a) - 1 < inject_Z ((n + 1) * b))%Q as H2.
  { rewrite (inject_Z_mult (n + 1) b), inject_Z_plus. change (inject_Z 1) with 1%Q.
    apply Qlt_le_trans with (X * (1 - eps) * (1 - eps) * inject_Z b)%Q.
    - setoid_replace (X * (1 - eps) * (1 - eps) * inject_Z b)%Q
        with ((X * inject_Z b) * (1 - eps) * (1 - eps))%Q using relation Qeq by ring.
      rewrite HX. unfold eps. lra.
    - apply Qmult_le_compat_r; lra. }
  change 1%Q with (inject_Z 1) in H1, H2.
  unfold Qminus in H2. rewrite <- inject_Z_opp in H2.
  rewrite <- inject_Z_plus, <- Zlt_Qlt in H1, H2. lia.
Qed.

Lemma float_ratio_spec (a b : Z) :
  0 < a < 2 ^ 31 -> 0 < b < 2 ^ 31 ->
  exists (m : positive) (e : Z),
    int_truediv a b = Ok (S754_finite false m e)
    /\ (inject_Z a / inject_Z b * (1 - eps) <= F2Q (Z.pos m) e
        <= inject_Z a / inject_Z b * (1 + eps))%Q
    /\ -30 <= mag (Z.pos m) e <= 32.
Proof.
  intros Ha Hb. unfold int_truediv.
  destruct (Z.eqb_spec b 0) as [->|_]; [lia|].
  destruct (float_of_int_spec a) as (ma & ea & -> & Va & Ma);
    [change (2 ^ 53) with (2 ^ 31 * 2 ^ 22); lia|].
  destruct (float_of_int_spec b) as (mb & eb & -> & Vb & Mb);
    [change (2 ^ 53) with (2 ^ 31 * 2 ^ 22); lia|].
  pose proof (Zdigits2_le a 31 Ha). pose proof (Zdigits2_le b 31 Hb).
  destruct (SFdiv_spec ma mb ea eb) as (m & e & -> & Hv & Hm); [lia|].
  exists m, e. split; [reflexivity|]. split; [|lia].
  rewrite Va, Vb in Hv. exact Hv.
Qed.

Lemma float_of_int_small (c : Z) :
  0 < c < 2 ^ 12 ->
  exists (m : positive) (e : Z),
    float_of_int c = S754_finite false m e
    /\ (F2Q (Z.pos m) e == inject_Z c)%Q
    /\ 1 <= mag (Z.pos m) e <= 12 /\ e <= 11.
Proof.
  intros Hc. destruct (float_of_int_spec c) as (m & e & E & V & M);
    [change (2 ^ 53) with (2 ^ 12 * 2 ^ 41); lia|].
  pose proof (Zdigits2_le c 12 Hc). exists m, e. repeat split; try assumption; try lia.
  unfold mag in M. pose proof (Zdigits2_pos (Z.pos m) ltac:(lia)). lia.
Qed.

Lemma ratio_times_bounds (c x v y : Q) :
  (0 < c)%Q -> (0 <= v)%Q ->
  (v * (1 - eps) <= x <= v * (1 + eps))%Q ->
  (c * x * (1 - eps) <= y <= c * x * (1 + eps))%Q ->
  (c * v * (1 - eps) * (1 - eps) <= y <= c * v * (1 + eps) * (1 + eps))%Q.
Proof.
  intros Hc Hv [Hx1 Hx2] [Hy1 Hy2].
  assert (c * (v * (1 - eps)) <= c * x)%Q as H1 by (apply Qmult_le_l; assumption).
  assert (c * x <= c * (v * (1 + eps)))%Q as H2 by (apply Qmult_le_l; assumption).
  unfold eps in *. split.
  - apply Qle_trans with (c * x * (1 - (1 # 9007199254740992)))%Q; [|assumption].
    setoid_replace (c * v * (1 - (1 # 9007199254740992)) * (1 - (1 # 9007199254740992)))%Q
      with ((c * (v * (1 - (1 # 9007199254740992)))) * (1 - (1 # 9007199254740992)))%Q using relation Qeq by ring.
    apply Qmult_le_compat_r; [assumption | lra].
  - apply Qle_trans with (c * x * (1 + (1 # 9007199254740992)))%Q; [assumption|].
    setoid_replace (c * v * (1 + (1 # 9007199254740992)) * (1 + (1 # 9007199254740992)))%Q
      with ((c * (v * (1 + (1 # 9007199254740992)))) * (1 + (1 # 9007199254740992)))%Q using relation Qeq by ring.
    apply Qmult_le_compat_r; [assumption | lra].
Qed.

Lemma ratio_nonneg (a b : Z) : 0 < a -> 0 < b -> (0 <= inject_Z a / inject_Z b)%Q.
Proof.
  intros Ha Hb. apply Qlt_le_weak, Qlt_shift_div_l.
  - change (inject_Z 0 < inject_Z b)%Q. rewrite <- Zlt_Qlt. assumption.
  - rewrite Qmult_0_l. change (inject_Z 0 < inject_Z a)%Q. rewrite <- Zlt_Qlt. assumption.
Qed.

Lemma int_times_ratio_pos (c a b : Z) :
  0 < c < 2 ^ 12 -> 0 < a < 2 ^ 31 -> 0 < b < 2 ^ 31 ->
  exists n : Z, int_times_ratio c a b = Ok n /\ c * a - b <= n * b <= c * a.
Proof.
  intros Hc Ha Hb. unfold int_times_ratio, float_mul.
  destruct (float_ratio_spec a b Ha Hb) as (m & e & -> & Hv & Hm).
  destruct (float_of_int_small c Hc) as (mc & ec & -> & Vc & Mc & Ec).
  assert (e <= 31) as He by (unfold mag in Hm; pose proof (Zdigits2_pos (Z.pos m) ltac:(lia)); lia).
  destruct (SFmul_spec mc m ec e) as (mp & ep & -> & Hp & _); [lia | lia |].
  destruct (int_of_float_spec mp ep) as (n & -> & Hn).
  exists n. split; [reflexivity|].
  rewrite Vc in Hp.
  assert (0 < inject_Z c)%Q as HC
    by (change (inject_Z 0 < inject_Z c)%Q; rewrite <- Zlt_Qlt; lia).
  destruct (ratio_times_bounds _ _ _ _ HC (ratio_nonneg a b ltac:(lia) ltac:(lia)) Hv Hp)
    as [B1 B2].
  apply (scaled_ratio_bounds a b c n (F2Q (Z.pos mp) ep)); try assumption; lia.
Qed.

Lemma ratio_times_int_pos (a b c : Z) :
  0 < c < 2 ^ 12 -> 0 < a < 2 ^ 31 -> 0 < b < 2 ^ 31 ->
  exists n : Z, ratio_times_int a b c = Ok n /\ c * a - b <= n * b <= c * a.
Proof.
  intros Hc Ha Hb. unfold ratio_times_int, float_mul.
  destruct (float_ratio_spec a b Ha Hb) as (m & e & -> & Hv & Hm).
  destruct (float_of_int_small c Hc) as (mc & ec & -> & Vc & Mc & Ec).
  assert (e <= 31) as He by (unfold mag in Hm; pose proof (Zdigits2_pos (Z.pos m) ltac:(lia)); lia).
  destruct (SFmul_spec m mc e ec) as (mp & ep & -> & Hp & _); [lia | lia |].
  destruct (int_of_float_spec mp ep) as (n & -> & Hn).
  exists n. split; [reflexivity|].
  rewrite Vc in Hp.
  assert (0 < inject_Z c)%Q as HC
    by (change (inject_Z 0 < inject_Z c)%Q; rewrite <- Zlt_Qlt; lia).
  assert (inject_Z c * F2Q (Z.pos m) e * (1 - eps) <= F2Q (Z.pos mp) ep
          <= inject_Z c * F2Q (Z.pos m) e * (1 + eps))%Q as Hp'.
  { setoid_replace (inject_Z c * F2Q (Z.pos m) e)%Q
      with (F2Q (Z.pos m) e * inject_Z c)%Q using relation Qeq by ring. exact Hp. }
  destruct (ratio_times_bounds _ _ _ _ HC (ratio_nonneg a b ltac:(lia) ltac:(lia)) Hv Hp')
    as [B1 B2].
  apply (scaled_ratio_bounds a b c n (F2Q (Z.pos mp) ep)); try assumption; lia.
Qed.

Lemma float_of_int_zero : float_of_int 0 = S754_zero false.
Proof. reflexivity. Qed.

Lemma ratio_of_zero (b : Z) :
  0 < b < 2 ^ 31 -> int_truediv 0 b = Ok (S754_zero false).
Proof.
  intros Hb. unfold int_truediv. destruct (Z.eqb_spec b 0) as [->|_]; [lia|].
  destruct (float_of_int_spec b) as (mb & eb & -> & _);
    [change (2 ^ 53) with (2 ^ 31 * 2 ^ 22); lia|].
  rewrite float_of_int_zero. reflexivity.
Qed.

(** [int(c * (a / b))] is at most the exact [c * a / b] and less than one
    below it, or exactly one below when [b] divides [c * a]. *)
Lemma int_times_ratio_bounds (c a b : Z) :
  0 < c < 2 ^ 12 -> 0 <= a < 2 ^ 31 -> 0 < b < 2 ^ 31 ->
  exists n : Z,
    int_times_ratio c a b = Ok n /\ c * a - b <= n * b <= c * a /\ 0 <= n.
Proof.
  intros Hc Ha Hb. destruct (Z.eq_dec a 0) as [-> | Hne].
  - exists 0. unfold int_times_ratio, float_mul. rewrite (ratio_of_zero b Hb).
    destruct (float_of_int_small c Hc) as (mc & ec & -> & _). split; [reflexivity | lia].
  - destruct (int_times_ratio_pos c a b) as (n & Hn & Hbnd); try lia.
    exists n. split; [exact Hn|]. split; [exact Hbnd | nia].
Qed.

Lemma ratio_times_int_bounds (a b c : Z) :
  0 < c < 2 ^ 12 -> 0 <= a < 2 ^ 31 -> 0 < b < 2 ^ 31 ->
  exists n : Z,
    ratio_times_int a b c = Ok n /\ c * a - b <= n * b <= c * a /\ 0 <= n.
Proof.
  intros Hc Ha Hb. destruct (Z.eq_dec a 0) as [-> | Hne].
  - exists 0. unfold ratio_times_int, float_mul. rewrite (ratio_of_zero b Hb).
    destruct (float_of_int_small c Hc) as (mc & ec & -> & _). split; [reflexivity | lia].
  - destruct (ratio_times_int_pos a b c) as (n & Hn & Hbnd); try lia.
    exists n. split; [exact Hn|]. split; [exact Hbnd | nia].
Qed.

(** A finite number divided by itself is exactly [1.0]. *)
Lemma SFdiv_same (m : positive) (e : Z) :
  SFdiv 53 1024 (S754_finite false m e) (S754_finite false m e)
  = S754_finite false 4503599627370496 (-52).
Proof.
  cbn [SFdiv xorb]. unfold SFdiv_core_binary.
  rewrite Z.sub_diag. replace (Zdigits2 (Z.pos m) + e - (Zdigits2 (Z.pos m) + e)) with 0 by lia.
  change (Z.min (fexp 53 1024 0) 0) with (-53). change (0 - -53) with 53.
  cbv iota beta zeta.
  assert (Z.div_eucl (Z.shiftl (Z.pos m) 53) (Z.pos m) = (2 ^ 53, 0)) as ->.
  { rewrite Z.shiftl_mul_pow2 by lia.
    assert (forall a b, Z.div_eucl a b = (a / b, a mod b)) as ->
      by (intros a b; unfold Z.div, Z.modulo; destruct (Z.div_eucl a b); reflexivity).
    rewrite (Z.mul_comm (Z.pos m)), Z.div_mul, Z.mod_mul by lia. reflexivity. }
  unfold new_location. destruct (Z.even (Z.pos m)); reflexivity.
Qed.

Lemma int_truediv_same (a : Z) :
  0 < a < 2 ^ 53 -> int_truediv a a = Ok (S754_finite false 4503599627370496 (-52)).
Proof.
  intros Ha. unfold int_truediv. destruct (Z.eqb_spec a 0) as [->|_]; [lia|].
  destruct (float_of_int_spec a Ha) as (m & e & -> & _). rewrite SFdiv_same. reflexivity.
Qed.

Local Close Scope string_scope.

(* ================================================================= *)
(** * Part III: the statements of the scripts *)
(* ================================================================= *)

Section Statements.
Context `{Pillow}.

Lemma touches_only_refl (p : Path) (w : world) : touches_only p w w.
Proof. split; reflexivity. Qed.

Lemma touches_only_trans (p : Path) (w1 w2 w3 : world) :
  touches_only p w1 w2 -> touches_only p w2 w3 -> touches_only p w1 w3.
Proof.
  intros [h1 d1 f1 o1 l1] [h2 d2 f2 o2 l2]. split.
  - congruence.
  - intros d. rewrite d2. apply d1.
  - intros q Hq. rewrite f2, f1 by assumption. reflexivity.
  - etrans; eassumption.
  - etrans; eassumption.
Qed.

Lemma path_neq (p q : Path) : q <> p -> parent q = parent p -> name q <> name p.
Proof. destruct p, q; simpl; intros Hne -> ->. apply Hne. reflexivity. Qed.

(** Replacing the files of [parent p] by files that agree except at
    [name p] touches only [p]. *)
Lemma update_touches (p : Path) (w : world) (files files' : gmap string (list Byte.byte))
    (ev : fs_event) :
  fs w !! parent p = Some files ->
  (forall n, n <> name p -> files' !! n = files !! n) ->
  touches_only p w (with_fs (with_event w ev) (<[parent p := files']> (fs w))).
Proof.
  intros Hd Hsame. split; simpl; try reflexivity.
  - intros d. destruct (decide (d = parent p)) as [-> | Hne].
    + rewrite lookup_insert_eq, Hd. split; eauto.
    + rewrite lookup_insert_ne by congruence. reflexivity.
  - intros q Hq. unfold lookup_file. simpl.
    destruct (decide (parent q = parent p)) as [Hpar | Hne].
    + rewrite Hpar, lookup_insert_eq, Hd. simpl. apply Hsame.
      apply path_neq; assumption.
    + rewrite lookup_insert_ne by congruence. reflexivity.
  - apply prefix_app_r. reflexivity.
Qed.

Lemma frames_lift {A} (p : Path) (r : result A) : frames p (lift r).
Proof. intros w. apply touches_only_refl. Qed.

Lemma frames_bind {A B} (p : Path) (m : M A) (k : A -> M B) :
  frames p m -> (forall a, frames p (k a)) -> frames p (m ≫= k).
Proof.
  intros Hm Hk w. unfold mbind, M_bind. specialize (Hm w).
  destruct (m w) as [[a|e] w1]; simpl in *; [|exact Hm].
  eapply touches_only_trans; [exact Hm | apply Hk].
Qed.

Lemma frames_try {A} (p : Path) (body : M A) (handler : string -> M A) :
  frames p body -> (forall e, frames p (handler e)) -> frames p (try_except body handler).
Proof.
  intros Hb Hh w. unfold try_except. specialize (Hb w).
  destruct (body w) as [[a|e] w1]; simpl in *; [exact Hb|].
  eapply touches_only_trans; [exact Hb | apply Hh].
Qed.

Lemma frames_print (p : Path) (s : string) : frames p (print s).
Proof.
  intros w. split; simpl; try reflexivity. apply prefix_app_r. reflexivity.
Qed.

Lemma frames_open (p q : Path) : frames p (Image_open q).
Proof.
  intros w. unfold Image_open. destruct (lookup_file w q); apply touches_only_refl.
Qed.

Lemma frames_save (img : image pixels) (p : Path) (quality : Z) (optimize : bool)
    (exif : option (list Byte.byte)) :
  frames p (save img p quality optimize exif).
Proof.
  intros w. unfold save.
  destruct (fs w !! parent p) as [files|] eqn:Hd; [|apply touches_only_refl].
  destruct (encode _ _) as [data | msg [partial|]]; simpl;
    apply (update_touches p w files); try assumption; intros n Hn.
  - apply lookup_insert_ne. congruence.
  - apply lookup_insert_ne. congruence.
  - apply lookup_delete_ne. congruence.
Qed.

Lemma frames_copy2 (src dst : Path) : frames dst (copy2 src dst).
Proof.
  intros w. unfold copy2. destruct (lookup_file w src) as [data|];
    destruct (fs w !! parent dst) as [files|] eqn:Hd; try apply touches_only_refl.
  apply (update_touches dst w files); [assumption|].
  intros n Hn. apply lookup_insert_ne. congruence.
Qed.

(** What [save] logs, and that printing logs nothing. *)
Lemma save_fslog (img : image pixels) (p : Path) (quality : Z) (optimize : bool)
    (exif : option (list Byte.byte)) (w : world) :
  fslog (save img p quality optimize exif w).2 = fslog w
  \/ fslog (save img p quality optimize exif w).2
     = fslog w ++ [SaveCall p (SaveRequest img quality optimize exif)].
Proof.
  unfold save. destruct (fs w !! parent p) as [files|]; [|left; reflexivity].
  destruct (encode _ _) as [data | msg [partial|]]; right; reflexivity.
Qed.

(** Every element of a loop whose body reports on it has its report in what
    the loop printed. *)
Lemma for_each_reports {A} (body : A -> M unit) (R : A -> string -> Prop)
    (J : A -> Prop) (I : world -> Prop) :
  (forall x w, J x -> I w ->
     (body x w).1 = Ok () /\ I (body x w).2
     /\ exists out, stdout (body x w).2 = stdout w ++ out
          /\ exists line, line ∈ out /\ R x line) ->
  forall l w, Forall J l -> I w ->
    (for_each l body w).1 = Ok () /\ I (for_each l body w).2
    /\ exists out, stdout (for_each l body w).2 = stdout w ++ out
         /\ forall x, x ∈ l -> exists line, line ∈ out /\ R x line.
Proof.
  intros Hbody l. induction l as [|x l IH]; intros w HJ HI.
  - split; [reflexivity|]. split; [exact HI|]. exists []. split.
    + simpl. rewrite app_nil_r. reflexivity.
    + intros x Hx. inversion Hx.
  - apply Forall_cons in HJ as [Hx Hl]. cbn [for_each]. unfold mbind, M_bind.
    destruct (Hbody x w Hx HI) as (H1 & H2 & out1 & Hout1 & line & Hin & HR).
    destruct (body x w) as [[[]|e] w1]; simpl in *; [|discriminate].
    destruct (IH w1 Hl H2) as (G1 & G2 & out2 & Hout2 & Hall).
    split; [exact G1|]. split; [exact G2|]. exists (out1 ++ out2). split.
    + rewrite Hout2, Hout1, app_assoc. reflexivity.
    + intros y Hy. apply elem_of_cons in Hy as [-> | Hy].
      * exists line. split; [apply elem_of_app; left; exact Hin | exact HR].
      * destruct (Hall y Hy) as (ly & Hly & HRy). exists ly.
        split; [apply elem_of_app; right; exact Hly | exact HRy].
Qed.

(** ** Discovery *)

Lemma glob_list_elem (d pattern : string) (w : world) (p : Path) :
  p ∈ glob_list d pattern w <->
  parent p = d /\ is_Some (lookup_file w p) /\ fnmatch pattern (name p) = true.
Proof.
  unfold glob_list, lookup_file. split.
  - destruct (fs w !! d) as [files|] eqn:Hd; [|intros Hp; inversion Hp].
    intros Hp. apply list_elem_of_fmap in Hp as (n & -> & Hn). cbn [parent name].
    apply list_elem_of_filter in Hn as [Hm Hn].
    apply list_elem_of_fmap in Hn as ([n' data] & -> & Hn). cbn [fst] in *.
    apply elem_of_map_to_list in Hn. rewrite Hd. cbn. rewrite Hn.
    split; [reflexivity|]. split; [eauto|]. destruct (fnmatch pattern n'); [reflexivity | contradiction].
  - intros (<- & [data Hdata] & Hm). destruct (fs w !! parent p) as [files|]; [|discriminate].
    cbn in Hdata. apply list_elem_of_fmap. exists (name p). split; [destruct p; reflexivity|].
    apply list_elem_of_filter. split; [rewrite Hm; exact I|].
    apply list_elem_of_fmap. exists (name p, data). split; [reflexivity|].
    apply elem_of_map_to_list. exact Hdata.
Qed.

Lemma extend_globs_run (d : string) (exts : list string) :
  forall (acc : list Path) (w : world),
  exists l, extend_globs d exts acc w = (Ok l, w)
    /\ forall p, p ∈ l <-> p ∈ acc \/ exists pattern, pattern ∈ exts /\ p ∈ glob_list d pattern w.
Proof.
  induction exts as [|ext exts IH]; intros acc w; cbn [extend_globs].
  - exists acc. split; [reflexivity|]. intros p. split; [auto|].
    intros [Hp | (pat & Hpat & _)]; [exact Hp | inversion Hpat].
  - unfold mbind, M_bind, glob.
    destruct (IH (acc ++ glob_list d ext w) w) as (l & -> & Hl).
    exists l. split; [reflexivity|]. intros p. rewrite Hl, elem_of_app. split.
    + intros [[Hp | Hp] | (pat & Hpat & Hp)]; [left; exact Hp | right | right].
      * exists ext. split; [left | exact Hp].
      * exists pat. split; [right; exact Hpat | exact Hp].
    + intros [Hp | (pat & Hpat & Hp)]; [left; left; exact Hp|].
      apply elem_of_cons in Hpat as [-> | Hpat]; [left; right; exact Hp|].
      right. exists pat. split; assumption.
Qed.

Lemma find_jpgs_run (d : string) (w : world) :
  find_jpgs d w = (Ok (discovered d w), w).
Proof.
  unfold discovered, find_jpgs.
  destruct (extend_globs_run d jpg_patterns [] w) as (l & -> & _). reflexivity.
Qed.

Lemma discovered_elem (d : string) (w : world) (p : Path) :
  p ∈ discovered d w <->
  parent p = d /\ is_Some (lookup_file w p) /\ is_jpg (name p) = true.
Proof.
  unfold discovered, find_jpgs.
  destruct (extend_globs_run d jpg_patterns [] w) as (l & -> & Hl). cbn [fst].
  rewrite Hl. unfold is_jpg. rewrite existsb_exists. split.
  - intros [Hp | (pat & Hpat & Hp)]; [inversion Hp|].
    apply glob_list_elem in Hp as (Hd & Hf & Hm). split; [exact Hd|]. split; [exact Hf|].
    exists pat. split; [apply list_elem_of_In; exact Hpat | exact Hm].
  - intros (Hd & Hf & pat & Hpat & Hm). right. exists pat.
    split; [apply list_elem_of_In; exact Hpat|]. apply glob_list_elem. auto.
Qed.

Lemma discovered_ext (d : string) (w w' : world) :
  (forall pattern, glob_list d pattern w = glob_list d pattern w') ->
  discovered d w = discovered d w'.
Proof.
  intros Hg. unfold discovered, find_jpgs.
  assert (forall exts acc, (extend_globs d exts acc w).1 = (extend_globs d exts acc w').1) as He.
  { induction exts as [|ext exts IH]; intros acc; cbn [extend_globs]; [reflexivity|].
    unfold mbind, M_bind, glob. rewrite Hg. apply IH. }
  rewrite He. reflexivity.
Qed.

Lemma discovered_nil (d : string) (w : world) :
  (forall files n, fs w !! d = Some files -> is_Some (files !! n) -> is_jpg n = false) ->
  discovered d w = [].
Proof.
  intros Hno. destruct (discovered d w) as [|p l] eqn:E; [reflexivity|exfalso].
  assert (p ∈ discovered d w) as Hp by (rewrite E; left).
  apply discovered_elem in Hp as (Hd & [data Hf] & Hj). unfold lookup_file in Hf.
  rewrite Hd in Hf. destruct (fs w !! d) as [files|] eqn:Hfs; [|discriminate].
  cbn in Hf. rewrite (Hno files (name p) eq_refl) in Hj; [discriminate | eauto].
Qed.

Lemma sorted_elem (l : list Path) (p : Path) : p ∈ sorted l <-> p ∈ l.
Proof. unfold sorted. rewrite merge_sort_Permutation. reflexivity. Qed.

Lemma sorted_length (l : list Path) : length (sorted l) = length l.
Proof. unfold sorted. rewrite merge_sort_Permutation. reflexivity. Qed.

Lemma mkdir_run (d : string) (w : world) :
  mkdir d w
  = (Ok (), World (here w) (ensure_dir d (fs w)) (stdout w)
                  (fslog w ++ mkdir_events d (fs w))).
Proof.
  unfold mkdir, ensure_dir, mkdir_events. destruct (fs w !! d); [|reflexivity].
  rewrite app_nil_r. destruct w; reflexivity.
Qed.

(** ** The thumbnail generator *)

Lemma save_stdout (img : image pixels) (p : Path) (quality : Z) (optimize : bool)
    (exif : option (list Byte.byte)) (w : world) :
  stdout (save img p quality optimize exif w).2 = stdout w.
Proof.
  unfold save. destruct (fs w !! parent p) as [files|]; [|reflexivity].
  destruct (encode _ _) as [data | msg [partial|]]; reflexivity.
Qed.

Lemma save_run (img : image pixels) (p : Path) (quality : Z) (optimize : bool)
    (exif : option (list Byte.byte)) (w : world) (files : gmap string (list Byte.byte)) :
  fs w !! parent p = Some files ->
  match encode (SaveRequest img quality optimize exif) (files !! name p) with
  | Written _ => (save img p quality optimize exif w).1 = Ok ()
  | SaveFailed e _ => (save img p quality optimize exif w).1 = Raise e
  end
  /\ fslog (save img p quality optimize exif w).2
     = fslog w ++ [SaveCall p (SaveRequest img quality optimize exif)].
Proof.
  intros Hd. unfold save. rewrite Hd.
  destruct (encode _ _) as [data | msg [partial|]]; split; reflexivity.
Qed.

Ltac unfold_thumb :=
  unfold generate_thumbs.generate_thumbnail, generate_thumbs.generate_thumbnail_body,
    try_except, mbind, M_bind, lift, Image_open.

Lemma generate_thumbnail_returns (image_path thumb_path : Path) (height : Z) (w : world) :
  (generate_thumbs.generate_thumbnail image_path thumb_path height w).1 = Ok ().
Proof.
  unfold generate_thumbs.generate_thumbnail, try_except.
  destruct (generate_thumbs.generate_thumbnail_body _ _ _ w) as [[[]|e] w1]; reflexivity.
Qed.

Lemma generate_thumbnail_frames (image_path thumb_path : Path) (height : Z) :
  frames thumb_path (generate_thumbs.generate_thumbnail image_path thumb_path height).
Proof.
  apply frames_try; [|intros e; apply frames_print].
  apply frames_bind; [apply frames_open | intros img].
  apply frames_bind; [apply frames_lift | intros new_width].
  apply frames_bind; [apply frames_lift | intros resized].
  apply frames_bind; [apply frames_save | intros _; apply frames_print].
Qed.

Lemma generate_thumbnail_report (image_path thumb_path : Path) (height : Z) (w : world) :
  exists line,
    stdout (generate_thumbs.generate_thumbnail image_path thumb_path height w).2
      = stdout w ++ [line]
    /\ (line = line_generated (name thumb_path) \/ exists e, line = line_error (name image_path) e).
Proof.
  unfold_thumb.
  destruct (lookup_file w image_path) as [data|]; [|cbn; eauto].
  destruct (decode_header data) as [img|e]; [|cbn; eauto].
  destruct (int_times_ratio _ _ _) as [new_width|e]; [|cbn; eauto].
  destruct (resize _ _) as [resized|e]; [|cbn; eauto].
  pose proof (save_stdout resized thumb_path 85 true None w) as Hs.
  destruct (save _ _ _ _ _ w) as [[[]|e] w1]; cbn in *; rewrite Hs; eauto.
Qed.

Lemma generate_thumbnail_saves (image_path thumb_path : Path) (height : Z) (w : world) :
  fslog (generate_thumbs.generate_thumbnail image_path thumb_path height w).2 = fslog w
  \/ exists data img new_width resized,
       lookup_file w image_path = Some data
       /\ decode_header data = Ok img
       /\ int_times_ratio height (img_width img) (img_height img) = Ok new_width
       /\ resize img (new_width, height) = Ok resized
       /\ fslog (generate_thumbs.generate_thumbnail image_path thumb_path height w).2
          = fslog w ++ [SaveCall thumb_path (SaveRequest resized 85 true None)].
Proof.
  unfold_thumb.
  destruct (lookup_file w image_path) as [data|]; [|left; reflexivity].
  destruct (decode_header data) as [img|e] eqn:Hdec; [|left; reflexivity].
  destruct (int_times_ratio _ _ _) as [new_width|e] eqn:Hw; [|left; reflexivity].
  destruct (resize _ _) as [resized|e] eqn:Hr; [|left; reflexivity].
  destruct (save_fslog resized thumb_path 85 true None w) as [Hs | Hs];
    destruct (save _ _ _ _ _ w) as [[[]|e] w1]; cbn in *; rewrite Hs; eauto 10.
Qed.

Lemma thumb_failure_logged (w : world) (image_path thumb_path : Path) (height : Z)
    (e : string) :
  thumb_failure w image_path thumb_path height e ->
  (generate_thumbs.generate_thumbnail image_path thumb_path height w).1 = Ok ()
  /\ stdout (generate_thumbs.generate_thumbnail image_path thumb_path height w).2
     = stdout w ++ [line_error (name image_path) e].
Proof.
  intros Hfail. split; [apply generate_thumbnail_returns|]. unfold_thumb.
  destruct Hfail as [data Hf Hdec | data img nw Hf Hdec Hw Hr
                    | data img nw resized files residue Hf Hdec Hw Hr Hd Henc].
  - rewrite Hf, Hdec. reflexivity.
  - rewrite Hf, Hdec. cbn. rewrite Hw. cbn. rewrite Hr. reflexivity.
  - rewrite Hf, Hdec. cbn. rewrite Hw. cbn. rewrite Hr. cbn.
    pose proof (save_run resized thumb_path 85 true None w files Hd) as [Hs _].
    pose proof (save_stdout resized thumb_path 85 true None w) as Hout.
    rewrite Henc in Hs.
    destruct (save _ _ _ _ _ w) as [[[]|e'] w1]; cbn in *; [discriminate|].
    injection Hs as ->. rewrite Hout. reflexivity.
Qed.

(** A file whose thumbnail exists is skipped: one line, nothing else. *)
Lemma process_image_skips (image_path : Path) (w : world) :
  is_Some (lookup_file w (mkPath generate_thumbs.THUMBS_DIR (name image_path))) ->
  generate_thumbs.process_image image_path w = print (line_skipped (name image_path)) w.
Proof.
  intros Hex. unfold generate_thumbs.process_image, mbind, M_bind, path_exists.
  cbn. rewrite bool_decide_eq_true_2 by exact Hex. reflexivity.
Qed.

Lemma thumb_process_image_spec (image_path : Path) (w : world) :
  (generate_thumbs.process_image image_path w).1 = Ok ()
  /\ touches_only (mkPath generate_thumbs.THUMBS_DIR (name image_path)) w
       (generate_thumbs.process_image image_path w).2
  /\ exists line,
       stdout (generate_thumbs.process_image image_path w).2 = stdout w ++ [line]
       /\ thumb_report (name image_path) line.
Proof.
  unfold generate_thumbs.process_image, mbind, M_bind, path_exists. cbn.
  destruct (bool_decide _).
  - split; [reflexivity|]. split; [apply frames_print|].
    exists (line_skipped (name image_path)). split; [reflexivity | left; reflexivity].
  - split; [apply generate_thumbnail_returns|]. split; [apply generate_thumbnail_frames|].
    destruct (generate_thumbnail_report image_path
                (mkPath generate_thumbs.THUMBS_DIR (name image_path))
                generate_thumbs.THUMBNAIL_HEIGHT w) as (line & Hout & Hline).
    exists line. split; [exact Hout|]. unfold thumb_report. cbn in Hline. tauto.
Qed.

Lemma ensure_dir_lookup (d d' : string) (dirs : gmap string (gmap string (list Byte.byte))) :
  ensure_dir d dirs !! d'
  = if decide (d = d') then Some (default ∅ (dirs !! d)) else dirs !! d'.
Proof.
  unfold ensure_dir. destruct (dirs !! d) as [files|] eqn:Hd.
  - destruct (decide (d = d')) as [<-|]; [exact Hd | reflexivity].
  - destruct (decide (d = d')) as [<-|Hne];
      [apply lookup_insert_eq | apply lookup_insert_ne; exact Hne].
Qed.

Lemma glob_list_empty_dir (d pattern : string) (w w' : world) :
  fs w !! d = None -> fs w' !! d = Some ∅ ->
  glob_list d pattern w' = glob_list d pattern w.
Proof.
  intros Hn He. unfold glob_list. rewrite Hn, He, map_to_list_empty. reflexivity.
Qed.

Lemma thumbs_ready_discovered (w : world) :
  discovered generate_thumbs.IMAGES_DIR (thumbs_ready w)
  = discovered generate_thumbs.IMAGES_DIR w.
Proof.
  apply discovered_ext. intros pattern.
  assert (fs (thumbs_ready w) !! generate_thumbs.IMAGES_DIR
          = Some (default ∅ (fs w !! generate_thumbs.IMAGES_DIR))) as Hl.
  { unfold thumbs_ready. cbn [fs]. rewrite ensure_dir_lookup.
    rewrite decide_False by discriminate. rewrite ensure_dir_lookup.
    rewrite decide_True by reflexivity. reflexivity. }
  destruct (fs w !! generate_thumbs.IMAGES_DIR) as [files|] eqn:Hd.
  - unfold glob_list. rewrite Hl, Hd. reflexivity.
  - apply glob_list_empty_dir; assumption.
Qed.

Lemma thumbs_main_run (w : world) :
  generate_thumbs.main w
  = match discovered generate_thumbs.IMAGES_DIR w with
    | [] => print (line_no_jpgs (dir_name w generate_thumbs.IMAGES_DIR)) (thumbs_ready w)
    | _ :: _ =>
        (print (line_found_nl (length (discovered generate_thumbs.IMAGES_DIR w)));;
         for_each (sorted (discovered generate_thumbs.IMAGES_DIR w))
                  generate_thumbs.process_image;;
         print line_done) (thumbs_ready w)
    end.
Proof.
  unfold generate_thumbs.main. unfold mbind at 1 2 3. unfold M_bind at 1 2 3.
  rewrite mkdir_run. rewrite mkdir_run. cbn [here fs stdout fslog].
  rewrite <- app_assoc. fold (thumbs_ready w).
  rewrite find_jpgs_run, thumbs_ready_discovered.
  destruct (discovered generate_thumbs.IMAGES_DIR w); reflexivity.
Qed.

(** ** The web resizer *)

Lemma resize_for_web_body_run (image_path : Path) (max_dimension quality : Z) (w : world) :
  resize_for_web.resize_for_web_body image_path max_dimension quality w
  = match upright w image_path with
    | Raise e => (Raise e, w)
    | Ok None => print (line_no_orientation (name image_path)) w
    | Ok (Some img) => resize_upright image_path max_dimension quality img w
    end.
Proof.
  unfold resize_for_web.resize_for_web_body, upright, mbind, M_bind, lift, Image_open.
  destruct (lookup_file w image_path) as [data|]; [|reflexivity].
  destruct (decode_header data) as [img0|e]; [|reflexivity].
  destruct (copy img0) as [img1|e]; [|reflexivity].
  destruct (exif_transpose img1) as [[img|]|e]; reflexivity.
Qed.

Lemma resize_for_web_returns (image_path : Path) (max_dimension quality : Z) (w : world) :
  (resize_for_web.resize_for_web image_path max_dimension quality w).1 = Ok ().
Proof.
  unfold resize_for_web.resize_for_web, try_except.
  destruct (resize_for_web.resize_for_web_body _ _ _ w) as [[[]|e] w1]; reflexivity.
Qed.

Lemma resize_for_web_frames (image_path : Path) (max_dimension quality : Z) :
  frames image_path (resize_for_web.resize_for_web image_path max_dimension quality).
Proof.
  apply frames_try; [|intros e; apply frames_print].
  apply frames_bind; [apply frames_open | intros img0].
  apply frames_bind; [apply frames_lift | intros img1].
  apply frames_bind; [apply frames_lift | intros [img|]]; [|apply frames_print].
  cbv zeta. destruct (Z.max _ _ <=? _).
  - apply frames_bind; [apply frames_save | intros _].
    apply frames_bind; [apply frames_print | intros _; apply frames_print].
  - apply frames_bind; [apply frames_lift | intros new_size].
    apply frames_bind; [apply frames_lift | intros resized].
    apply frames_bind; [apply frames_save | intros _].
    apply frames_bind; [apply frames_print | intros _; apply frames_print].
Qed.

(** What the resizer hands to the encoder: nothing, or one request. *)
Lemma resize_upright_saves (image_path : Path) (max_dimension quality : Z)
    (img : image pixels) (w : world) :
  fslog (resize_upright image_path max_dimension quality img w).2 = fslog w
  \/ exists saved,
       fslog (resize_upright image_path max_dimension quality img w).2
         = fslog w ++ [SaveCall image_path (SaveRequest saved quality true (Some []))]
       /\ (if Z.max (img_width img) (img_height img) <=? max_dimension
           then saved = img
           else exists new_size,
                  resize_for_web.new_dimensions (img_width img) (img_height img)
                    max_dimension = Ok new_size
                  /\ resize img new_size = Ok saved).
Proof.
  unfold resize_upright. destruct (_ <=? _).
  - unfold mbind, M_bind.
    destruct (save_fslog img image_path quality true (Some []) w) as [Hs | Hs];
      destruct (save _ _ _ _ _ w) as [[[]|e] w1]; cbn in *; rewrite Hs; eauto.
  - unfold mbind, M_bind, lift.
    destruct (resize_for_web.new_dimensions _ _ _) as [new_size|e]; [|left; reflexivity].
    destruct (resize img new_size) as [resized|e] eqn:Hr; [|left; reflexivity].
    destruct (save_fslog resized image_path quality true (Some []) w) as [Hs | Hs];
      destruct (save _ _ _ _ _ w) as [[[]|e] w1]; cbn in *; rewrite Hs; eauto 10.
Qed.

Lemma resize_for_web_fslog (image_path : Path) (max_dimension quality : Z) (w : world) :
  fslog (resize_for_web.resize_for_web image_path max_dimension quality w).2
  = match upright w image_path with
    | Ok (Some img) => fslog (resize_upright image_path max_dimension quality img w).2
    | _ => fslog w
    end.
Proof.
  unfold resize_for_web.resize_for_web, try_except. rewrite resize_for_web_body_run.
  destruct (upright w image_path) as [[img|]|e]; try reflexivity.
  destruct (resize_upright _ _ _ img w) as [[[]|e] w1]; reflexivity.
Qed.

Lemma resize_for_web_report (image_path : Path) (max_dimension quality : Z) (w : world) :
  exists out,
    stdout (resize_for_web.resize_for_web image_path max_dimension quality w).2
      = stdout w ++ out
    /\ exists line, line ∈ out /\ web_report (name image_path) line.
Proof.
  unfold resize_for_web.resize_for_web, try_except. rewrite resize_for_web_body_run.
  unfold web_report.
  destruct (upright w image_path) as [[img|]|e].
  - unfold resize_upright. destruct (_ <=? _).
    + unfold mbind, M_bind.
      pose proof (save_stdout img image_path quality true (Some []) w) as Hs.
      destruct (save _ _ _ _ _ w) as [[[]|e] w1]; cbn in *; rewrite Hs.
      * eexists [_; _]. split; [rewrite <- app_assoc; reflexivity|].
        eexists. split; [left|]. auto.
      * eexists [_]. split; [reflexivity|]. eexists. split; [left|]. eauto 10.
    + unfold mbind, M_bind, lift.
      destruct (resize_for_web.new_dimensions _ _ _) as [new_size|e]; cbn.
      2: { eexists [_]. split; [reflexivity|]. eexists. split; [left|]. eauto 10. }
      destruct (resize img new_size) as [resized|e]; cbn.
      2: { eexists [_]. split; [reflexivity|]. eexists. split; [left|]. eauto 10. }
      pose proof (save_stdout resized image_path quality true (Some []) w) as Hs.
      destruct (save _ _ _ _ _ w) as [[[]|e] w1]; cbn in *; rewrite Hs.
      * eexists [_; _]. split; [rewrite <- app_assoc; reflexivity|].
        eexists. split; [left|]. auto.
      * eexists [_]. split; [reflexivity|]. eexists. split; [left|]. eauto 10.
  - cbn. eexists [_]. split; [reflexivity|]. eexists. split; [left|]. auto.
  - cbn. eexists [_]. split; [reflexivity|]. eexists. split; [left|]. eauto 10.
Qed.

Lemma web_failure_logged (w : world) (image_path : Path) (max_dimension quality : Z)
    (e : string) :
  web_failure w image_path max_dimension quality e ->
  (resize_for_web.resize_for_web image_path max_dimension quality w).1 = Ok ()
  /\ stdout (resize_for_web.resize_for_web image_path max_dimension quality w).2
     = stdout w ++ [line_error (name image_path) e].
Proof.
  intros Hfail. split; [apply resize_for_web_returns|].
  unfold resize_for_web.resize_for_web, try_except. rewrite resize_for_web_body_run.
  destruct Hfail as [data Hf Hup | img new_size Hup Hmax Hdim Hr
                    | img files residue Hup Hmax Hd Henc
                    | img new_size resized files residue Hup Hmax Hdim Hr Hd Henc];
    rewrite Hup; [reflexivity | | |]; unfold resize_upright.
  - rewrite (proj2 (Z.leb_gt _ _)) by lia. unfold mbind, M_bind, lift.
    rewrite Hdim, Hr. reflexivity.
  - rewrite (proj2 (Z.leb_le _ _)) by lia. unfold mbind, M_bind.
    pose proof (save_run img image_path quality true (Some []) w files Hd) as [Hs _].
    pose proof (save_stdout img image_path quality true (Some []) w) as Hout.
    rewrite Henc in Hs.
    destruct (save _ _ _ _ _ w) as [[[]|e'] w1]; cbn in *; [discriminate|].
    injection Hs as ->. rewrite Hout. reflexivity.
  - rewrite (proj2 (Z.leb_gt _ _)) by lia. unfold mbind, M_bind, lift.
    rewrite Hdim, Hr.
    pose proof (save_run resized image_path quality true (Some []) w files Hd) as [Hs _].
    pose proof (save_stdout resized image_path quality true (Some []) w) as Hout.
    rewrite Henc in Hs.
    destruct (save _ _ _ _ _ w) as [[[]|e'] w1]; cbn in *; [discriminate|].
    injection Hs as ->. rewrite Hout. reflexivity.
Qed.

Lemma copy2_run (src dst : Path) (w : world) (data : list Byte.byte) :
  lookup_file w src = Some data -> is_Some (fs w !! parent dst) ->
  (copy2 src dst w).1 = Ok ()
  /\ lookup_file (copy2 src dst w).2 dst = Some data
  /\ fslog (copy2 src dst w).2 = fslog w ++ [CopyFile src dst].
Proof.
  intros Hsrc [files Hd]. unfold copy2. rewrite Hsrc, Hd. split; [reflexivity|].
  split; [|reflexivity]. unfold lookup_file. cbn.
  rewrite lookup_insert_eq. cbn. apply lookup_insert_eq.
Qed.

(** Lines 107-110 leave a backup of [p] behind without touching anything
    else: the old one if there was one, a copy of the original otherwise. *)
Lemma backup_step (p : Path) (w : world) :
  parent p = resize_for_web.IMAGES_DIR ->
  is_Some (fs w !! resize_for_web.BACKUP_DIR) ->
  is_Some (lookup_file w p) \/ is_Some (lookup_file w (backup_path p)) ->
  exists w1,
    resize_for_web.process_image p w
      = (resize_for_web.resize_for_web p resize_for_web.MAX_DIMENSION resize_for_web.QUALITY;;
         print "") w1
    /\ touches_only (backup_path p) w w1
    /\ lookup_file w1 (backup_path p)
       = match lookup_file w (backup_path p) with
         | Some b => Some b
         | None => lookup_file w p
         end
    /\ fslog w1 = fslog w ++ match lookup_file w (backup_path p) with
                             | Some _ => []
                             | None => [CopyFile p (backup_path p)]
                             end.
Proof.
  intros Hpar Hdir Hsrc. unfold resize_for_web.process_image.
  unfold mbind at 1 2. unfold M_bind at 1 2. unfold path_exists. cbn [fst snd].
  fold (backup_path p).
  destruct (lookup_file w (backup_path p)) as [b|] eqn:Hb.
  - rewrite bool_decide_eq_true_2 by eauto. exists w. cbn.
    split; [reflexivity|]. split; [apply touches_only_refl|]. split; [exact Hb|].
    rewrite app_nil_r. reflexivity.
  - rewrite bool_decide_eq_false_2 by (intros [? ?]; discriminate).
    destruct Hsrc as [[data Hdata] | [? ?]]; [|discriminate].
    destruct (copy2_run p (backup_path p) w data Hdata Hdir) as (Hok & Hlk & Hlog).
    pose proof (frames_copy2 p (backup_path p) w) as Hfr.
    destruct (copy2 p (backup_path p) w) as [[[]|e] w1]; cbn in *; [|discriminate].
    exists w1. split; [reflexivity|]. split; [exact Hfr|]. split; [|exact Hlog].
    rewrite Hlk, Hdata. reflexivity.
Qed.

Lemma backup_path_neq (p q : Path) :
  parent p = resize_for_web.IMAGES_DIR -> p <> backup_path q.
Proof. intros Hp ->. discriminate Hp. Qed.

Lemma web_process_image_spec (p : Path) (w : world) :
  parent p = resize_for_web.IMAGES_DIR ->
  is_Some (fs w !! resize_for_web.BACKUP_DIR) ->
  is_Some (lookup_file w p) \/ is_Some (lookup_file w (backup_path p)) ->
  (resize_for_web.process_image p w).1 = Ok ()
  /\ lookup_file (resize_for_web.process_image p w).2 (backup_path p)
     = match lookup_file w (backup_path p) with
       | Some b => Some b
       | None => lookup_file w p
       end
  /\ (forall q, q <> p -> q <> backup_path p ->
        lookup_file (resize_for_web.process_image p w).2 q = lookup_file w q)
  /\ (forall d, is_Some (fs (resize_for_web.process_image p w).2 !! d)
                <-> is_Some (fs w !! d))
  /\ exists out,
       stdout (resize_for_web.process_image p w).2 = stdout w ++ out
       /\ exists line, line ∈ out /\ web_report (name p) line.
Proof.
  intros Hpar Hdir Hsrc.
  destruct (backup_step p w Hpar Hdir Hsrc) as (w1 & -> & Hfr1 & Hbk & _).
  unfold mbind, M_bind.
  pose proof (resize_for_web_returns p resize_for_web.MAX_DIMENSION
                resize_for_web.QUALITY w1) as Hok.
  pose proof (resize_for_web_frames p resize_for_web.MAX_DIMENSION
                resize_for_web.QUALITY w1) as Hfr2.
  destruct (resize_for_web_report p resize_for_web.MAX_DIMENSION
              resize_for_web.QUALITY w1) as (out & Hout & line & Hin & Hrep).
  destruct (resize_for_web.resize_for_web p _ _ w1) as [[[]|e] w2];
    cbn in *; [|discriminate].
  split; [reflexivity|]. split; [|split; [|split]].
  - unfold lookup_file at 1. cbn [fs]. fold (lookup_file w2 (backup_path p)).
    rewrite (to_files _ _ _ Hfr2) by (intros E; symmetry in E; revert E; apply backup_path_neq; exact Hpar).
    exact Hbk.
  - intros q Hq1 Hq2. unfold lookup_file at 1. cbn [fs]. fold (lookup_file w2 q).
    rewrite (to_files _ _ _ Hfr2), (to_files _ _ _ Hfr1) by assumption. reflexivity.
  - intros d. cbn [fs]. rewrite (to_dirs _ _ _ Hfr2). apply (to_dirs _ _ _ Hfr1).
  - destruct (to_stdout _ _ _ Hfr1) as [out1 Hout1].
    exists (out1 ++ out ++ [""%string]). split.
    + rewrite Hout, Hout1, <- !app_assoc. reflexivity.
    + exists line. split; [|exact Hrep]. rewrite !elem_of_app. auto.
Qed.

Lemma path_eq (p q : Path) : parent p = parent q -> name p = name q -> p = q.
Proof. destruct p, q; cbn; intros -> ->; reflexivity. Qed.

Lemma web_loop_spec (l : list Path) :
  forall w : world,
  Forall (λ p, parent p = resize_for_web.IMAGES_DIR) l ->
  is_Some (fs w !! resize_for_web.BACKUP_DIR) ->
  (forall p, p ∈ l -> is_Some (lookup_file w p) \/ is_Some (lookup_file w (backup_path p))) ->
  (for_each l resize_for_web.process_image w).1 = Ok ()
  /\ (forall p, p ∈ l ->
        lookup_file (for_each l resize_for_web.process_image w).2 (backup_path p)
        = match lookup_file w (backup_path p) with
          | Some b => Some b
          | None => lookup_file w p
          end)
  /\ (forall n b, lookup_file w (mkPath resize_for_web.BACKUP_DIR n) = Some b ->
        lookup_file (for_each l resize_for_web.process_image w).2
          (mkPath resize_for_web.BACKUP_DIR n) = Some b)
  /\ exists out,
       stdout (for_each l resize_for_web.process_image w).2 = stdout w ++ out
       /\ forall p, p ∈ l -> exists line, line ∈ out /\ web_report (name p) line.
Proof.
  induction l as [|p l IH]; intros w Hpar Hdir Hsrc.
  - split; [reflexivity|]. split; [intros p Hp; inversion Hp|]. split; [auto|].
    exists []. split; [cbn; rewrite app_nil_r; reflexivity | intros p Hp; inversion Hp].
  - apply Forall_cons in Hpar as [Hp Hl].
    destruct (web_process_image_spec p w Hp Hdir (Hsrc p (list_elem_of_here p l)))
      as (Hok & Hbk & Hother & Hdirs & out1 & Hout1 & line1 & Hin1 & Hrep1).
    cbn [for_each]. unfold mbind, M_bind.
    destruct (resize_for_web.process_image p w) as [[[]|e] w1]; cbn in *; [|discriminate].
    assert (is_Some (lookup_file w1 (backup_path p))) as Hnow.
    { rewrite Hbk. destruct (lookup_file w (backup_path p)) as [b|] eqn:Hb; [eauto|].
      destruct (Hsrc p (list_elem_of_here p l)) as [Ho | Ho]; [exact Ho|].
      rewrite Hb in Ho. destruct Ho as [? ?]. discriminate. }
    assert (forall q, parent q = resize_for_web.IMAGES_DIR -> name q <> name p ->
              lookup_file w1 q = lookup_file w q
              /\ lookup_file w1 (backup_path q) = lookup_file w (backup_path q)) as Hframe.
    { intros q Hq Hn. split; apply Hother.
      - intros ->. apply Hn. reflexivity.
      - apply backup_path_neq. exact Hq.
      - intros E. symmetry in E. revert E. apply backup_path_neq. exact Hp.
      - intros E. apply Hn. injection E as E. exact E. }
    destruct (IH w1 Hl) as (G1 & G2 & G3 & out2 & Hout2 & Hrep2).
    { apply Hdirs. exact Hdir. }
    { intros q Hq. destruct (decide (name q = name p)) as [Heq | Hne].
      - right. unfold backup_path. rewrite Heq. exact Hnow.
      - rewrite Forall_forall in Hl. destruct (Hframe q (Hl q Hq) Hne) as [-> ->].
        apply Hsrc. apply list_elem_of_further. exact Hq. }
    split; [exact G1|]. split; [|split].
    + intros q Hq. destruct (decide (name q = name p)) as [Heq | Hne].
      * assert (backup_path q = backup_path p) as Hbq by (unfold backup_path; rewrite Heq; reflexivity).
        assert (q = p) as ->.
        { apply path_eq; [|exact Heq]. rewrite Hp.
          apply elem_of_cons in Hq as [-> | Hq]; [exact Hp|].
          rewrite Forall_forall in Hl. apply Hl. exact Hq. }
        rewrite <- Hbk. destruct Hnow as [b Hb]. rewrite Hb. exact (G3 (name p) b Hb).
      * apply elem_of_cons in Hq as [-> | Hq]; [contradiction Hne; reflexivity|].
        rewrite Forall_forall in Hl. destruct (Hframe q (Hl q Hq) Hne) as [E1 E2].
        rewrite (G2 q Hq), E1, E2. reflexivity.
    + intros n b Hb. apply G3. destruct (decide (n = name p)) as [-> | Hne].
      * fold (backup_path p). rewrite Hbk. fold (backup_path p) in Hb. rewrite Hb. reflexivity.
      * rewrite Hother; [exact Hb | |].
        -- intros E. rewrite <- E in Hp. discriminate Hp.
        -- intros E. apply Hne. injection E as E. exact E.
    + exists (out1 ++ out2). split; [rewrite Hout2, Hout1, app_assoc; reflexivity|].
      intros q Hq. apply elem_of_cons in Hq as [-> | Hq].
      * exists line1. split; [apply elem_of_app; left; exact Hin1 | exact Hrep1].
      * destruct (Hrep2 q Hq) as (line & Hin & Hrep). exists line.
        split; [apply elem_of_app; right; exact Hin | exact Hrep].
Qed.

Lemma lookup_file_ensure_dir (d : string) (w w' : world) (q : Path) :
  fs w' = ensure_dir d (fs w) -> lookup_file w' q = lookup_file w q.
Proof.
  intros Hfs. unfold lookup_file. rewrite Hfs, ensure_dir_lookup.
  destruct (decide (d = parent q)) as [<- | Hne]; [|reflexivity].
  destruct (fs w !! d); reflexivity.
Qed.

Lemma discovered_none (d : string) (w : world) :
  fs w !! d = None -> discovered d w = [].
Proof.
  intros Hd. apply discovered_nil. intros files n Hf. rewrite Hd in Hf. discriminate.
Qed.

Lemma web_main_run (w : world) :
  resize_for_web.main w
  = match fs w !! resize_for_web.IMAGES_DIR with
    | None => print (line_missing (dir_name w resize_for_web.IMAGES_DIR)) w
    | Some _ =>
        match discovered resize_for_web.IMAGES_DIR w with
        | [] => print (line_no_jpgs (dir_name w resize_for_web.IMAGES_DIR)) w
        | _ :: _ =>
            (for_each (sorted (discovered resize_for_web.IMAGES_DIR w))
                      resize_for_web.process_image;;
             print (line_processed (length (discovered resize_for_web.IMAGES_DIR w)));;
             print (line_backed_up (dir_name w resize_for_web.BACKUP_DIR))) (web_ready w)
        end
    end.
Proof.
  unfold resize_for_web.main. unfold mbind at 1. unfold M_bind at 1. unfold dir_exists.
  cbn [fst snd].
  destruct (fs w !! resize_for_web.IMAGES_DIR) as [files|] eqn:Hd.
  - rewrite bool_decide_eq_true_2 by eauto. cbn [negb].
    unfold mbind at 1. unfold M_bind at 1. rewrite find_jpgs_run.
    destruct (discovered resize_for_web.IMAGES_DIR w) as [|p l] eqn:Hl; [reflexivity|].
    unfold mbind at 1 2 3 4 5. unfold M_bind at 1 2 3 4 5. unfold dir_str at 1.
    unfold print at 1 2 3. cbn [fst snd here fs stdout fslog].
    rewrite mkdir_run. unfold web_ready, dir_name. cbn [fst snd here fs stdout fslog].
    rewrite Hl, <- !app_assoc. reflexivity.
  - rewrite bool_decide_eq_false_2 by (intros [? ?]; discriminate). reflexivity.
Qed.

Lemma discovered_parent (d : string) (w : world) :
  Forall (λ p, parent p = d) (sorted (discovered d w)).
Proof.
  apply Forall_forall. intros p Hp. apply sorted_elem, discovered_elem in Hp. tauto.
Qed.

(** The resizer as a whole: it returns, every file it found has a backup
    that is the old backup or else a copy of the original, no backup that
    existed is changed, and every file found is reported on. *)
Lemma web_main_spec (w : world) :
  (resize_for_web.main w).1 = Ok ()
  /\ (forall p, p ∈ discovered resize_for_web.IMAGES_DIR w ->
        lookup_file (resize_for_web.main w).2 (backup_path p)
        = match lookup_file w (backup_path p) with
          | Some b => Some b
          | None => lookup_file w p
          end)
  /\ (forall n b, lookup_file w (mkPath resize_for_web.BACKUP_DIR n) = Some b ->
        lookup_file (resize_for_web.main w).2 (mkPath resize_for_web.BACKUP_DIR n) = Some b)
  /\ exists out,
       stdout (resize_for_web.main w).2 = stdout w ++ out
       /\ forall p, p ∈ discovered resize_for_web.IMAGES_DIR w ->
            exists line, line ∈ out /\ web_report (name p) line.
Proof.
  rewrite web_main_run.
  destruct (fs w !! resize_for_web.IMAGES_DIR) as [files|] eqn:Hd.
  2: { rewrite (discovered_none _ w Hd). split; [reflexivity|].
       split; [intros p Hp; inversion Hp|]. split; [auto|].
       eexists. split; [reflexivity | intros p Hp; inversion Hp]. }
  destruct (discovered resize_for_web.IMAGES_DIR w) as [|p0 l0] eqn:Hl.
  { split; [reflexivity|]. split; [intros p Hp; inversion Hp|]. split; [auto|].
    eexists. split; [reflexivity | intros p Hp; inversion Hp]. }
  rewrite <- Hl. clear p0 l0 Hl.
  assert (forall q, lookup_file (web_ready w) q = lookup_file w q) as Hlk
    by (intros q; apply (lookup_file_ensure_dir resize_for_web.BACKUP_DIR); reflexivity).
  destruct (web_loop_spec (sorted (discovered resize_for_web.IMAGES_DIR w)) (web_ready w))
    as (Hok & Hbk & Hkeep & out & Hout & Hrep).
  { apply discovered_parent. }
  { unfold web_ready. cbn [fs]. rewrite ensure_dir_lookup, decide_True by reflexivity. eauto. }
  { intros p Hp. apply sorted_elem, discovered_elem in Hp as (_ & Hf & _).
    left. rewrite Hlk. exact Hf. }
  unfold mbind, M_bind.
  destruct (for_each _ _ (web_ready w)) as [[[]|e] w1]; cbn in *; [|discriminate].
  split; [reflexivity|]. split; [|split].
  - intros p Hp. unfold lookup_file at 1. cbn [fs]. fold (lookup_file w1 (backup_path p)).
    rewrite (Hbk p) by (apply sorted_elem; exact Hp). rewrite !Hlk. reflexivity.
  - intros n b Hb. unfold lookup_file at 1. cbn [fs].
    apply (Hkeep n b). rewrite Hlk. exact Hb.
  - eexists. split.
    + rewrite Hout. unfold web_ready. cbn [stdout]. rewrite <- !app_assoc. reflexivity.
    + intros p Hp. destruct (Hrep p) as (line & Hin & Hr); [apply sorted_elem; exact Hp|].
      exists line. split; [|exact Hr]. rewrite !elem_of_app. auto.
Qed.

(** ** The thumbnail generator as a whole *)

Lemma thumbs_ready_lookup (w : world) (q : Path) :
  lookup_file (thumbs_ready w) q = lookup_file w q.
Proof.
  rewrite (lookup_file_ensure_dir generate_thumbs.THUMBS_DIR
             (World (here w) (ensure_dir generate_thumbs.IMAGES_DIR (fs w)) (stdout w) (fslog w))
             (thumbs_ready w) q eq_refl).
  apply (lookup_file_ensure_dir generate_thumbs.IMAGES_DIR). reflexivity.
Qed.

Lemma ensure_dir_id (d : string) (dirs : gmap string (gmap string (list Byte.byte))) :
  is_Some (dirs !! d) -> ensure_dir d dirs = dirs /\ mkdir_events d dirs = [].
Proof. intros [files Hd]. unfold ensure_dir, mkdir_events. rewrite Hd. auto. Qed.

Lemma lookup_file_dir (w : world) (q : Path) :
  is_Some (lookup_file w q) -> is_Some (fs w !! parent q).
Proof.
  unfold lookup_file. destruct (fs w !! parent q); [eauto | intros [? ?]; discriminate].
Qed.

Lemma thumbs_ready_id (w : world) :
  is_Some (fs w !! generate_thumbs.IMAGES_DIR) ->
  is_Some (fs w !! generate_thumbs.THUMBS_DIR) ->
  thumbs_ready w = w.
Proof.
  intros Hi Ht. unfold thumbs_ready.
  destruct (ensure_dir_id _ _ Hi) as [-> ->].
  destruct (ensure_dir_id _ _ Ht) as [-> ->].
  rewrite !app_nil_r. destruct w; reflexivity.
Qed.

Lemma skip_loop (l : list Path) :
  forall w : world,
  (forall p, p ∈ l -> is_Some (lookup_file w (thumb_path p))) ->
  for_each l generate_thumbs.process_image w
  = (Ok (), World (here w) (fs w) (stdout w ++ (line_skipped ∘ name <$> l)) (fslog w)).
Proof.
  induction l as [|p l IH]; intros w Hall.
  - cbn. rewrite app_nil_r. destruct w; reflexivity.
  - cbn [for_each]. unfold mbind, M_bind.
    rewrite process_image_skips by (apply Hall; left).
    cbn. rewrite IH.
    + cbn. rewrite <- app_assoc. reflexivity.
    + intros q Hq. apply (Hall q). right. exact Hq.
Qed.

Lemma thumbs_loop_spec (l : list Path) (w : world) :
  (for_each l generate_thumbs.process_image w).1 = Ok ()
  /\ (forall n t, lookup_file w (mkPath generate_thumbs.THUMBS_DIR n) = Some t ->
        lookup_file (for_each l generate_thumbs.process_image w).2
          (mkPath generate_thumbs.THUMBS_DIR n) = Some t)
  /\ exists out,
       stdout (for_each l generate_thumbs.process_image w).2 = stdout w ++ out
       /\ forall p, p ∈ l -> exists line, line ∈ out /\ thumb_report (name p) line.
Proof.
  destruct (for_each_reports generate_thumbs.process_image
              (λ p line, thumb_report (name p) line) (λ _, True)
              (λ w' : world,
                 forall n t, lookup_file w (mkPath generate_thumbs.THUMBS_DIR n) = Some t ->
                             lookup_file w' (mkPath generate_thumbs.THUMBS_DIR n) = Some t))
    with (l := l) (w := w) as (Hok & HI & Hrep).
  - intros p w' _ HI.
    destruct (thumb_process_image_spec p w') as (Hok & Hfr & line & Hout & Hrep).
    split; [exact Hok|]. split.
    + intros n t Ht. specialize (HI n t Ht).
      destruct (decide (n = name p)) as [-> | Hne].
      * rewrite process_image_skips by (rewrite HI; eauto). exact HI.
      * rewrite (to_files _ _ _ Hfr); [exact HI|].
        intros E. apply Hne. injection E as E. exact E.
    + exists [line]. split; [exact Hout|]. exists line. split; [left | exact Hrep].
  - apply Forall_forall. auto.
  - auto.
  - auto.
Qed.

Lemma thumbs_main_spec (w : world) :
  (generate_thumbs.main w).1 = Ok ()
  /\ (forall n t, lookup_file w (mkPath generate_thumbs.THUMBS_DIR n) = Some t ->
        lookup_file (generate_thumbs.main w).2 (mkPath generate_thumbs.THUMBS_DIR n) = Some t)
  /\ exists out,
       stdout (generate_thumbs.main w).2 = stdout w ++ out
       /\ forall p, p ∈ discovered generate_thumbs.IMAGES_DIR w ->
            exists line, line ∈ out /\ thumb_report (name p) line.
Proof.
  rewrite thumbs_main_run.
  destruct (discovered generate_thumbs.IMAGES_DIR w) as [|p0 l0] eqn:Hl.
  { split; [reflexivity|]. split.
    - intros n t Ht. unfold lookup_file at 1. cbn [print snd fs].
      fold (lookup_file (thumbs_ready w) (mkPath generate_thumbs.THUMBS_DIR n)).
      rewrite thumbs_ready_lookup. exact Ht.
    - eexists. split; [reflexivity | intros p Hp; inversion Hp]. }
  rewrite <- Hl. clear p0 l0 Hl.
  set (k := length (discovered generate_thumbs.IMAGES_DIR w)).
  set (l := sorted (discovered generate_thumbs.IMAGES_DIR w)).
  set (w0 := (print (line_found_nl k) (thumbs_ready w)).2).
  assert ((print (line_found_nl k);; for_each l generate_thumbs.process_image;;
           print line_done) (thumbs_ready w)
          = match for_each l generate_thumbs.process_image w0 with
            | (Ok _, w1) => print line_done w1
            | (Raise e, w1) => (Raise e, w1)
            end) as -> by reflexivity.
  assert (forall q, lookup_file w0 q = lookup_file w q) as Hlk.
  { intros q. unfold lookup_file. cbn [fs w0 print snd]. apply thumbs_ready_lookup. }
  destruct (thumbs_loop_spec l w0) as (Hok & Hkeep & out & Hout & Hrep).
  destruct (for_each l _ w0) as [[[]|e] w1]; cbn [fst snd] in *; [|discriminate].
  split; [reflexivity|]. split.
  - intros n t Ht. unfold lookup_file at 1. cbn [print snd fs]. apply (Hkeep n t).
    rewrite Hlk. exact Ht.
  - eexists. split.
    + cbn [print snd stdout]. rewrite Hout. unfold w0. cbn [print snd stdout thumbs_ready].
      rewrite <- !app_assoc. reflexivity.
    + intros p Hp. destruct (Hrep p) as (line & Hin & Hr); [apply sorted_elem; exact Hp|].
      exists line. split; [|exact Hr]. rewrite !elem_of_app. auto.
Qed.

Lemma thumbs_main_idempotent (w : world) :
  discovered generate_thumbs.IMAGES_DIR w <> [] ->
  (forall p, p ∈ discovered generate_thumbs.IMAGES_DIR w ->
     is_Some (lookup_file w (thumb_path p))) ->
  generate_thumbs.main w
  = (Ok (),
     World (here w) (fs w)
       (stdout w
        ++ [line_found_nl (length (discovered generate_thumbs.IMAGES_DIR w))]
        ++ (line_skipped ∘ name <$> sorted (discovered generate_thumbs.IMAGES_DIR w))
        ++ [line_done])
       (fslog w)).
Proof.
  intros Hne Hall. rewrite thumbs_main_run.
  destruct (discovered generate_thumbs.IMAGES_DIR w) as [|p0 l0] eqn:Hl; [contradiction|].
  assert (p0 ∈ discovered generate_thumbs.IMAGES_DIR w) as Hp0 by (rewrite Hl; left).
  rewrite <- Hl in *. clear l0 Hl.
  rewrite thumbs_ready_id.
  - unfold mbind, M_bind, print. cbn [fst snd here fs stdout fslog]. rewrite skip_loop.
    + cbn [here fs stdout fslog]. rewrite <- !app_assoc. reflexivity.
    + intros p Hp. unfold lookup_file. cbn [fs]. apply Hall. apply sorted_elem. exact Hp.
  - apply discovered_elem in Hp0 as (Hd & Hf & _). apply lookup_file_dir in Hf.
    rewrite Hd in Hf. exact Hf.
  - apply (lookup_file_dir w (thumb_path p0)). apply Hall. exact Hp0.
Qed.

(* ================================================================= *)
(** * Part IV: the properties *)
(* ================================================================= *)

Lemma resize_size (img resized : image pixels) (new_size : Z * Z) :
  resize img new_size = Ok resized -> img_size resized = new_size.
Proof.
  unfold resize. destruct (load_error img); [discriminate|].
  destruct (resample img new_size); [|discriminate].
  intros E. injection E as <-. reflexivity.
Qed.

Lemma upright_image (w : world) (p : Path) (data : list Byte.byte)
    (img0 img : image pixels) :
  lookup_file w p = Some data -> decode_header data = Ok img0 ->
  upright w p = Ok (Some img) ->
  img_size img = upright_size img0.
Proof.
  intros Hf Hdec. unfold upright, copy, exif_transpose, upright_size, transpose.
  rewrite Hf, Hdec. destruct (load_error img0); [discriminate|].
  destruct (orientation_method _) as [m|].
  - destruct (transpose_raster m img0); [|discriminate].
    intros E. injection E as <-. reflexivity.
  - intros E. injection E as <-. reflexivity.
Qed.

Lemma upright_exists (w : world) (p : Path) (img : image pixels) :
  upright w p = Ok (Some img) -> exists files, fs w !! parent p = Some files.
Proof.
  unfold upright, lookup_file. destruct (fs w !! parent p) as [files|]; [eauto|discriminate].
Qed.

Lemma new_dimensions_spec (width height max_dimension : Z) :
  0 < max_dimension < 2 ^ 12 -> 0 < width < 2 ^ 31 -> 0 < height < 2 ^ 31 ->
  exists short : Z,
    ratio_times_int (Z.min width height) (Z.max width height) max_dimension = Ok short
    /\ resize_for_web.new_dimensions width height max_dimension
       = Ok (if height <? width then (max_dimension, short) else (short, max_dimension))
    /\ max_dimension * Z.min width height - Z.max width height
       <= short * Z.max width height <= max_dimension * Z.min width height
    /\ 0 <= short <= max_dimension.
Proof.
  intros Hm Hw Hh. unfold resize_for_web.new_dimensions.
  destruct (Z.ltb_spec height width) as [Hlt | Hge].
  - rewrite Z.min_r, Z.max_l by lia.
    destruct (ratio_times_int_bounds height width max_dimension) as (n & -> & Hn & Hn0);
      try lia.
    exists n. split; [reflexivity|]. split; [reflexivity|]. split; [lia | nia].
  - rewrite Z.min_l, Z.max_r by lia.
    destruct (ratio_times_int_bounds width height max_dimension) as (n & -> & Hn & Hn0);
      try lia.
    exists n. split; [reflexivity|]. split; [reflexivity|]. split; [lia | nia].
Qed.

(** The thumbnail generator in full, by cases. *)
Lemma generate_thumbnail_run (image_path thumb_path : Path) (height : Z) (w : world) :
  generate_thumbs.generate_thumbnail image_path thumb_path height w
  = match lookup_file w image_path with
    | None => print (line_error (name image_path) (no_such_file w image_path)) w
    | Some data =>
        match decode_header data with
        | Raise e => print (line_error (name image_path) e) w
        | Ok img =>
            match int_times_ratio height (img_width img) (img_height img) with
            | Raise e => print (line_error (name image_path) e) w
            | Ok new_width =>
                match resize img (new_width, height) with
                | Raise e => print (line_error (name image_path) e) w
                | Ok resized =>
                    try_except
                      (save resized thumb_path 85 true None;;
                       print (line_generated (name thumb_path)))
                      (λ e, print (line_error (name image_path) e)) w
                end
            end
        end
    end.
Proof.
  unfold_thumb.
  destruct (lookup_file w image_path) as [data|]; [|reflexivity].
  destruct (decode_header data) as [img|e]; [|reflexivity]. cbn.
  destruct (int_times_ratio _ _ _) as [new_width|e]; [|reflexivity]. cbn.
  destruct (resize _ _) as [resized|e]; reflexivity.
Qed.

Lemma lookup_file_Some (w : world) (p : Path) (data : list Byte.byte) :
  lookup_file w p = Some data ->
  exists files, fs w !! parent p = Some files /\ files !! name p = Some data.
Proof.
  unfold lookup_file. destruct (fs w !! parent p) as [files|]; [|discriminate].
  cbn. eauto.
Qed.

Lemma bind_lift_ok {A B} (a : A) (k : A -> M B) (w : world) :
  (lift (Ok a) ≫= k) w = k a w.
Proof. reflexivity. Qed.

Lemma bind_lift_raise {A B} (e : string) (k : A -> M B) (w : world) :
  (lift (Raise e) ≫= k) w = (Raise e, w).
Proof. reflexivity. Qed.

(** What the generator logs when the image is resized and the directory of
    the thumbnail is there: the request to save the resized image. *)
Lemma generate_thumbnail_logs (image_path thumb_path : Path) (height : Z) (w : world)
    (data : list Byte.byte) (img resized : image pixels) (new_width : Z) :
  lookup_file w image_path = Some data ->
  decode_header data = Ok img ->
  int_times_ratio height (img_width img) (img_height img) = Ok new_width ->
  resize img (new_width, height) = Ok resized ->
  is_Some (fs w !! parent thumb_path) ->
  fslog (generate_thumbs.generate_thumbnail image_path thumb_path height w).2
  = fslog w ++ [SaveCall thumb_path (SaveRequest resized 85 true None)].
Proof.
  intros Hf Hdec Hn Hr [files Hd]. rewrite generate_thumbnail_run, Hf, Hdec, Hn, Hr.
  unfold try_except, mbind, M_bind.
  destruct (save_run resized thumb_path 85 true None w files Hd) as [_ Hlog].
  destruct (save _ _ _ _ _ w) as [[[]|e] w1]; cbn in *; exact Hlog.
Qed.

(** The resizer on an upright image that is too large, by cases. *)
Lemma resize_for_web_resizes (image_path : Path) (max_dimension quality : Z) (w : world)
    (img : image pixels) (new_size : Z * Z) :
  upright w image_path = Ok (Some img) ->
  max_dimension < Z.max (img_width img) (img_height img) ->
  resize_for_web.new_dimensions (img_width img) (img_height img) max_dimension
    = Ok new_size ->
  resize_for_web.resize_for_web image_path max_dimension quality w
  = match resize img new_size with
    | Raise e => print (line_error (name image_path) e) w
    | Ok resized =>
        try_except
          (save resized image_path quality true (Some []);;
           print (line_resized (name image_path));;
           print (line_dimensions (img_width img) (img_height img)
                    new_size.1 new_size.2))
          (λ e, print (line_error (name image_path) e)) w
    end.
Proof.
  intros Hup Hmax Hdim.
  unfold resize_for_web.resize_for_web. unfold try_except at 1.
  rewrite resize_for_web_body_run, Hup. unfold resize_upright.
  rewrite (proj2 (Z.leb_gt _ _)) by lia. rewrite Hdim, bind_lift_ok.
  destruct (resize img new_size) as [resized|e];
    [rewrite bind_lift_ok | rewrite bind_lift_raise]; reflexivity.
Qed.

(** What the resizer logs for an upright image: the request to save the image
    itself, or the image resized to the new dimensions. *)
Lemma resize_for_web_logs (image_path : Path) (max_dimension quality : Z) (w : world)
    (img : image pixels) :
  upright w image_path = Ok (Some img) ->
  (Z.max (img_width img) (img_height img) <= max_dimension ->
   fslog (resize_for_web.resize_for_web image_path max_dimension quality w).2
   = fslog w ++ [SaveCall image_path (SaveRequest img quality true (Some []))])
  /\ (max_dimension < Z.max (img_width img) (img_height img) ->
      forall new_size saved,
        resize_for_web.new_dimensions (img_width img) (img_height img) max_dimension
          = Ok new_size ->
        resize img new_size = Ok saved ->
        fslog (resize_for_web.resize_for_web image_path max_dimension quality w).2
        = fslog w ++ [SaveCall image_path (SaveRequest saved quality true (Some []))]).
Proof.
  intros Hup. destruct (upright_exists w image_path img Hup) as [files Hd].
  rewrite resize_for_web_fslog, Hup. unfold resize_upright. split.
  - intros Hmax. rewrite (proj2 (Z.leb_le _ _)) by exact Hmax.
    destruct (save_run img image_path quality true (Some []) w files Hd) as [_ Hlog].
    unfold mbind, M_bind.
    destruct (save _ _ _ _ _ w) as [[[]|e] w1]; cbn in *; exact Hlog.
  - intros Hmax new_size saved Hdim Hr. rewrite (proj2 (Z.leb_gt _ _)) by lia.
    rewrite Hdim, bind_lift_ok, Hr, bind_lift_ok.
    destruct (save_run saved image_path quality true (Some []) w files Hd) as [_ Hlog].
    unfold mbind, M_bind.
    destruct (save _ _ _ _ _ w) as [[[]|e] w1]; cbn in *; exact Hlog.
Qed.

(** What [exif_transpose] returns: the image itself if its tag asks for
    nothing, and else the image transposed as the tag says, at the upright
    size and without the tag. *)
Lemma exif_transpose_spec (img0 img : image pixels) :
  exif_transpose img0 = Ok (Some img) ->
  img_size img = upright_size img0
  /\ match orientation_method (default 1 (orientation img0)) with
     | None => img = img0
     | Some m => orientation img = None /\ transpose_raster m img0 = Ok (raster img)
     end.
Proof.
  unfold exif_transpose, upright_size, transpose.
  destruct (orientation_method _) as [m|].
  - destruct (transpose_raster m img0) as [px|e]; [|discriminate].
    intros E. injection E as <-. cbn. auto.
  - intros E. injection E as <-. auto.
Qed.

(** C1 (amended).  The thumbnail generator asks for a thumbnail of height 250
    whose width is [int(250 * (width / height))], the scaled width truncated
    toward zero and not rounded to nearest: the width never exceeds the exact
    aspect-preserving width [250 * width / height] and is at most one pixel
    below it.  The generator resizes the image to that width and the height
    250 and saves the result at quality 85 with optimisation: where the
    directory of the thumbnail is there, that request is what it logs. *)
Theorem thumbnail_width_truncates (w : world) (image_path thumb : Path)
    (data : list Byte.byte) (img : image pixels) :
  lookup_file w image_path = Some data ->
  decode_header data = Ok img ->
  0 <= img_width img < 2 ^ 31 ->
  0 < img_height img < 2 ^ 31 ->
  exists new_width : Z,
    int_times_ratio 250 (img_width img) (img_height img) = Ok new_width
    /\ 250 * img_width img - img_height img
       <= new_width * img_height img <= 250 * img_width img
    /\ generate_thumbs.generate_thumbnail image_path thumb 250 w
       = match resize img (new_width, 250) with
         | Raise e => print (line_error (name image_path) e) w
         | Ok resized =>
             try_except (save resized thumb 85 true None;;
                         print (line_generated (name thumb)))
                        (λ e, print (line_error (name image_path) e)) w
         end
    /\ forall resized,
         resize img (new_width, 250) = Ok resized ->
         img_size resized = (new_width, 250)
         /\ (is_Some (fs w !! parent thumb) ->
             fslog (generate_thumbs.generate_thumbnail image_path thumb 250 w).2
             = fslog w ++ [SaveCall thumb (SaveRequest resized 85 true None)]).
Proof.
  intros Hf Hdec Hw Hh.
  destruct (int_times_ratio_bounds 250 (img_width img) (img_height img))
    as (n & Hn & Hb & _); [change (2 ^ 12) with 4096; lia | assumption | assumption |].
  exists n. split; [exact Hn|]. split; [exact Hb|]. split.
  - rewrite generate_thumbnail_run, Hf, Hdec, Hn. reflexivity.
  - intros resized Hr. split; [apply (resize_size img); exact Hr|].
    intros Hdir. apply (generate_thumbnail_logs _ _ _ _ data img resized n); assumption.
Qed.

(** C2.  For an upright image whose longest side exceeds 3000 the resizer
    makes the longer side exactly 3000 and the shorter side
    [int((shorter / longer) * 3000)], which is at most the exact proportional
    value and within one pixel of it; it resizes the upright image to these
    dimensions, and the request to save the result at quality 80 with
    optimisation and an empty EXIF block is what it logs. *)
Theorem oversized_image_scaled (w : world) (image_path : Path) (img : image pixels) :
  upright w image_path = Ok (Some img) ->
  0 < img_width img < 2 ^ 31 ->
  0 < img_height img < 2 ^ 31 ->
  3000 < Z.max (img_width img) (img_height img) ->
  exists short : Z,
    let new_size := if img_height img <? img_width img then (3000, short) else (short, 3000) in
    ratio_times_int (Z.min (img_width img) (img_height img))
                    (Z.max (img_width img) (img_height img)) 3000 = Ok short
    /\ resize_for_web.new_dimensions (img_width img) (img_height img) 3000 = Ok new_size
    /\ 3000 * Z.min (img_width img) (img_height img) - Z.max (img_width img) (img_height img)
       <= short * Z.max (img_width img) (img_height img)
       <= 3000 * Z.min (img_width img) (img_height img)
    /\ 0 <= short <= 3000
    /\ resize_for_web.resize_for_web image_path 3000 80 w
       = match resize img new_size with
         | Raise e => print (line_error (name image_path) e) w
         | Ok resized =>
             try_except
               (save resized image_path 80 true (Some []);;
                print (line_resized (name image_path));;
                print (line_dimensions (img_width img) (img_height img)
                         new_size.1 new_size.2))
               (λ e, print (line_error (name image_path) e)) w
         end
    /\ forall saved,
         resize img new_size = Ok saved ->
         img_size saved = new_size
         /\ fslog (resize_for_web.resize_for_web image_path 3000 80 w).2
            = fslog w ++ [SaveCall image_path (SaveRequest saved 80 true (Some []))].
Proof.
  intros Hup Hw Hh Hmax.
  destruct (new_dimensions_spec (img_width img) (img_height img) 3000)
    as (short & Hshort & Hdim & Hb & Hs);
    [change (2 ^ 12) with 4096; lia | assumption | assumption |].
  exists short. cbv zeta. split; [exact Hshort|]. split; [exact Hdim|].
  split; [exact Hb|]. split; [exact Hs|]. split.
  - apply resize_for_web_resizes; assumption.
  - intros saved Hr. split; [apply (resize_size img); exact Hr|].
    apply (proj2 (resize_for_web_logs image_path 3000 80 w img Hup) Hmax _ saved Hdim Hr).
Qed.

(** C3.  For an upright image whose longest side is at most 3000 the resizer
    hands the image itself, with the dimensions it has, to the encoder, with
    quality 80, optimisation, and an empty EXIF block. *)
Theorem small_image_only_reencoded (w : world) (image_path : Path) (img : image pixels) :
  upright w image_path = Ok (Some img) ->
  Z.max (img_width img) (img_height img) <= 3000 ->
  fslog (resize_for_web.resize_for_web image_path 3000 80 w).2
    = fslog w ++ [SaveCall image_path (SaveRequest img 80 true (Some []))]
  /\ saved_exif (SaveRequest img 80 true (Some [])) = [].
Proof.
  intros Hup Hmax. split; [|reflexivity].
  rewrite resize_for_web_fslog, Hup. unfold resize_upright.
  rewrite (proj2 (Z.leb_le _ _)) by exact Hmax.
  destruct (upright_exists w image_path img Hup) as [files Hd].
  destruct (save_run img image_path 80 true (Some []) w files Hd) as [_ Hlog].
  unfold mbind, M_bind.
  destruct (save _ _ _ _ _ w) as [[[]|e] w1]; cbn in *; exact Hlog.
Qed.

(** C4.  Every file the resizer finds ends up with a backup that is
    byte for byte the original as it was before the run, unless a backup of
    that name existed, which is then left as it was; no backup that exists is
    ever changed; and in the loop the backup is in place, and the original
    still untouched, when the statement that rewrites the original starts. *)
Theorem backups_made_first_and_kept (w : world) :
  (forall p, p ∈ discovered resize_for_web.IMAGES_DIR w ->
     lookup_file (resize_for_web.main w).2 (backup_path p)
     = match lookup_file w (backup_path p) with
       | Some b => Some b
       | None => lookup_file w p
       end)
  /\ (forall n b, lookup_file w (mkPath resize_for_web.BACKUP_DIR n) = Some b ->
        lookup_file (resize_for_web.main w).2 (mkPath resize_for_web.BACKUP_DIR n) = Some b)
  /\ (forall p w0 data,
        parent p = resize_for_web.IMAGES_DIR ->
        is_Some (fs w0 !! resize_for_web.BACKUP_DIR) ->
        lookup_file w0 p = Some data ->
        exists w1,
          resize_for_web.process_image p w0
            = (resize_for_web.resize_for_web p resize_for_web.MAX_DIMENSION
                 resize_for_web.QUALITY;; print "") w1
          /\ lookup_file w1 p = Some data
          /\ lookup_file w1 (backup_path p)
             = Some (default data (lookup_file w0 (backup_path p)))).
Proof.
  destruct (web_main_spec w) as (_ & Hbk & Hkeep & _).
  split; [exact Hbk|]. split; [exact Hkeep|].
  intros p w0 data Hpar Hdir Hf.
  destruct (backup_step p w0 Hpar Hdir) as (w1 & Hrun & Hfr & Hb & _); [left; eauto|].
  exists w1. split; [exact Hrun|]. split.
  - rewrite (to_files _ _ _ Hfr); [exact Hf | apply backup_path_neq; exact Hpar].
  - rewrite Hb. destruct (lookup_file w0 (backup_path p)); [reflexivity | exact Hf].
Qed.

(** C5.  A file whose thumbnail exists is skipped with one line and nothing
    else; no run changes a thumbnail that exists; and a run over a gallery
    all of whose images have thumbnails writes nothing: the files and the log
    of file-system calls are as before, and it prints one "Skipped" line per
    image. *)
Theorem thumbnails_never_overwritten (w : world) :
  (forall p, is_Some (lookup_file w (thumb_path p)) ->
     generate_thumbs.process_image p w = print (line_skipped (name p)) w)
  /\ (forall n t, lookup_file w (mkPath generate_thumbs.THUMBS_DIR n) = Some t ->
        lookup_file (generate_thumbs.main w).2 (mkPath generate_thumbs.THUMBS_DIR n) = Some t)
  /\ (discovered generate_thumbs.IMAGES_DIR w <> [] ->
      (forall p, p ∈ discovered generate_thumbs.IMAGES_DIR w ->
         is_Some (lookup_file w (thumb_path p))) ->
      generate_thumbs.main w
      = (Ok (),
         World (here w) (fs w)
           (stdout w
            ++ [line_found_nl (length (discovered generate_thumbs.IMAGES_DIR w))]
            ++ (line_skipped ∘ name <$> sorted (discovered generate_thumbs.IMAGES_DIR w))
            ++ [line_done])
           (fslog w))
      /\ length (line_skipped ∘ name <$> sorted (discovered generate_thumbs.IMAGES_DIR w))
         = length (discovered generate_thumbs.IMAGES_DIR w)).
Proof.
  split; [intros p Hp; apply process_image_skips; exact Hp|].
  split; [apply (thumbs_main_spec w)|].
  intros Hne Hall. split; [apply thumbs_main_idempotent; assumption|].
  rewrite length_fmap. apply sorted_length.
Qed.

(** C7.  In both scripts an exception raised while a file is decoded,
    resized or encoded is caught for that file: the function returns
    normally after printing the line that names the file and the message.
    Both scripts return normally whatever fails, and print a line for every
    file they found. *)
Theorem failures_are_per_file (w : world) :
  (forall image_path thumb height e,
     thumb_failure w image_path thumb height e ->
     (generate_thumbs.generate_thumbnail image_path thumb height w).1 = Ok ()
     /\ stdout (generate_thumbs.generate_thumbnail image_path thumb height w).2
        = stdout w ++ [line_error (name image_path) e])
  /\ (forall image_path max_dimension quality e,
        web_failure w image_path max_dimension quality e ->
        (resize_for_web.resize_for_web image_path max_dimension quality w).1 = Ok ()
        /\ stdout (resize_for_web.resize_for_web image_path max_dimension quality w).2
           = stdout w ++ [line_error (name image_path) e])
  /\ ((generate_thumbs.main w).1 = Ok ()
      /\ exists out,
           stdout (generate_thumbs.main w).2 = stdout w ++ out
           /\ forall p, p ∈ discovered generate_thumbs.IMAGES_DIR w ->
                exists line, line ∈ out /\ thumb_report (name p) line)
  /\ ((resize_for_web.main w).1 = Ok ()
      /\ exists out,
           stdout (resize_for_web.main w).2 = stdout w ++ out
           /\ forall p, p ∈ discovered resize_for_web.IMAGES_DIR w ->
                exists line, line ∈ out /\ web_report (name p) line).
Proof.
  split; [intros; apply thumb_failure_logged; assumption|].
  split; [intros; apply web_failure_logged; assumption|].
  destruct (thumbs_main_spec w) as (Hok1 & _ & Hrep1).
  destruct (web_main_spec w) as (Hok2 & _ & _ & Hrep2).
  auto.
Qed.

(** C6 (amended).  The resizer works on the image that [exif_transpose]
    returns: the decoded image transposed as its orientation tag says, at the
    upright size and without the tag (the image itself if the tag asks for
    nothing).  It measures that image, saves it or its resizing, and saves
    with an empty EXIF block, so without an orientation tag or any other EXIF
    data: an image stored as 4000x3000 with orientation 6 is resized to and
    saved as 2250x3000 (width x height). *)
Theorem orientation_applied_before_geometry (w : world) (image_path : Path)
    (data : list Byte.byte) (img0 img : image pixels) :
  lookup_file w image_path = Some data ->
  decode_header data = Ok img0 ->
  load_error img0 = None ->
  exif_transpose img0 = Ok (Some img) ->
  upright w image_path = Ok (Some img)
  /\ img_size img = upright_size img0
  /\ match orientation_method (default 1 (orientation img0)) with
     | None => img = img0
     | Some m => orientation img = None /\ transpose_raster m img0 = Ok (raster img)
     end
  /\ (Z.max (img_width img) (img_height img) <= 3000 ->
      fslog (resize_for_web.resize_for_web image_path 3000 80 w).2
      = fslog w ++ [SaveCall image_path (SaveRequest img 80 true (Some []))])
  /\ (3000 < Z.max (img_width img) (img_height img) ->
      forall new_size,
        resize_for_web.new_dimensions (upright_size img0).1 (upright_size img0).2 3000
          = Ok new_size ->
        resize_for_web.resize_for_web image_path 3000 80 w
        = match resize img new_size with
          | Raise e => print (line_error (name image_path) e) w
          | Ok resized =>
              try_except
                (save resized image_path 80 true (Some []);;
                 print (line_resized (name image_path));;
                 print (line_dimensions (img_width img) (img_height img)
                          new_size.1 new_size.2))
                (λ e, print (line_error (name image_path) e)) w
          end
        /\ forall saved,
             resize img new_size = Ok saved ->
             img_size saved = new_size
             /\ fslog (resize_for_web.resize_for_web image_path 3000 80 w).2
                = fslog w ++ [SaveCall image_path (SaveRequest saved 80 true (Some []))]
             /\ saved_exif (SaveRequest saved 80 true (Some [])) = [])
  /\ (img_size img0 = (4000, 3000) -> orientation img0 = Some 6 ->
      img_size img = (3000, 4000)
      /\ transpose_raster ROTATE_270 img0 = Ok (raster img)
      /\ resize_for_web.new_dimensions (img_width img) (img_height img) 3000
         = Ok (2250, 3000)
      /\ forall saved,
           resize img (2250, 3000) = Ok saved ->
           img_size saved = (2250, 3000)
           /\ fslog (resize_for_web.resize_for_web image_path 3000 80 w).2
              = fslog w ++ [SaveCall image_path (SaveRequest saved 80 true (Some []))]).
Proof.
  intros Hf Hdec Hload Hex.
  assert (upright w image_path = Ok (Some img)) as Hup.
  { unfold upright, copy. rewrite Hf, Hdec, Hload. exact Hex. }
  destruct (exif_transpose_spec img0 img Hex) as [Hsize Htr].
  destruct (resize_for_web_logs image_path 3000 80 w img Hup) as [Hsmall Hbig].
  split; [exact Hup|]. split; [exact Hsize|]. split; [exact Htr|].
  split; [exact Hsmall|]. split.
  - intros Hmax new_size Hdim.
    assert (resize_for_web.new_dimensions (img_width img) (img_height img) 3000
            = Ok new_size) as Hdim'
      by (unfold img_width, img_height; rewrite Hsize; exact Hdim).
    split; [apply resize_for_web_resizes; assumption|].
    intros saved Hr. split; [apply (resize_size img); exact Hr|].
    split; [exact (Hbig Hmax new_size saved Hdim' Hr) | reflexivity].
  - intros Hs Ho.
    assert (img_size img = (3000, 4000)) as Hus
      by (rewrite Hsize; unfold upright_size; rewrite Hs, Ho; reflexivity).
    assert (resize_for_web.new_dimensions (img_width img) (img_height img) 3000
            = Ok (2250, 3000)) as Hdim
      by (unfold img_width, img_height; rewrite Hus; vm_compute; reflexivity).
    split; [exact Hus|]. split.
    { rewrite Ho in Htr. cbn in Htr. apply Htr. }
    split; [exact Hdim|]. intros saved Hr.
    split; [apply (resize_size img); exact Hr|].
    apply (Hbig ltac:(unfold img_width, img_height; rewrite Hus; cbn; lia) _ saved Hdim Hr).
Qed.

(** C8 (amended).  When no file of [images/] matches one of the four
    patterns, the thumbnail generator makes sure of [images/] and [thumbs/],
    prints that no JPG files were found and leaves every file as it was; the
    resizer prints the same line and changes nothing at all: it returns
    before the backup directory is created. *)
Theorem no_jpgs_found (w : world) :
  (forall files n, fs w !! generate_thumbs.IMAGES_DIR = Some files ->
     is_Some (files !! n) -> is_jpg n = false) ->
  generate_thumbs.main w
  = (Ok (),
     World (here w)
       (ensure_dir generate_thumbs.THUMBS_DIR (ensure_dir generate_thumbs.IMAGES_DIR (fs w)))
       (stdout w ++ [line_no_jpgs (dir_name w generate_thumbs.IMAGES_DIR)])
       (fslog w ++ mkdir_events generate_thumbs.IMAGES_DIR (fs w)
                ++ mkdir_events generate_thumbs.THUMBS_DIR
                     (ensure_dir generate_thumbs.IMAGES_DIR (fs w))))
  /\ (forall q, lookup_file (generate_thumbs.main w).2 q = lookup_file w q)
  /\ (is_Some (fs w !! resize_for_web.IMAGES_DIR) ->
      resize_for_web.main w
      = (Ok (),
         World (here w) (fs w)
           (stdout w ++ [line_no_jpgs (dir_name w resize_for_web.IMAGES_DIR)])
           (fslog w))).
Proof.
  intros Hno. pose proof (discovered_nil generate_thumbs.IMAGES_DIR w Hno) as Hnil.
  split; [|split].
  - rewrite thumbs_main_run, Hnil. reflexivity.
  - intros q. rewrite thumbs_main_run, Hnil. unfold lookup_file at 1. cbn [print snd fs].
    apply thumbs_ready_lookup.
  - intros [files Hd]. rewrite web_main_run, Hd.
    change resize_for_web.IMAGES_DIR with generate_thumbs.IMAGES_DIR. rewrite Hnil.
    reflexivity.
Qed.

(** C9.  Without [images/] the resizer prints that the directory does not
    exist and changes nothing, whereas the thumbnail generator creates
    [images/], makes sure of [thumbs/], and reports that no JPG files were
    found. *)
Theorem missing_source_directory (w : world) :
  fs w !! resize_for_web.IMAGES_DIR = None ->
  resize_for_web.main w
  = (Ok (),
     World (here w) (fs w)
       (stdout w ++ [line_missing (dir_name w resize_for_web.IMAGES_DIR)]) (fslog w))
  /\ generate_thumbs.main w
     = (Ok (),
        World (here w)
          (ensure_dir generate_thumbs.THUMBS_DIR (<[generate_thumbs.IMAGES_DIR := ∅]> (fs w)))
          (stdout w ++ [line_no_jpgs (dir_name w generate_thumbs.IMAGES_DIR)])
          (fslog w ++ [Mkdir generate_thumbs.IMAGES_DIR]
                   ++ mkdir_events generate_thumbs.THUMBS_DIR
                        (<[generate_thumbs.IMAGES_DIR := ∅]> (fs w)))).
Proof.
  intros Hd. split.
  - rewrite web_main_run, Hd. reflexivity.
  - rewrite thumbs_main_run, (discovered_none generate_thumbs.IMAGES_DIR w Hd).
    unfold thumbs_ready.
    unfold ensure_dir at 2. unfold mkdir_events at 1. unfold ensure_dir at 2.
    change generate_thumbs.IMAGES_DIR with resize_for_web.IMAGES_DIR.
    rewrite Hd. reflexivity.
Qed.

(** C10.  For an image with [width / height < 1 / 250] the computed
    thumbnail width is 0, and the generator passes [(0, 250)] to [resize]
    without looking at it; if [resize] raises, the handler prints the error
    line and the function returns. *)
Theorem sliver_gets_zero_width (w : world) (image_path thumb : Path)
    (data : list Byte.byte) (img : image pixels) :
  lookup_file w image_path = Some data ->
  decode_header data = Ok img ->
  0 <= img_width img ->
  250 * img_width img < img_height img ->
  img_height img < 2 ^ 31 ->
  int_times_ratio 250 (img_width img) (img_height img) = Ok 0
  /\ generate_thumbs.generate_thumbnail image_path thumb 250 w
     = match resize img (0, 250) with
       | Raise e => print (line_error (name image_path) e) w
       | Ok resized =>
           try_except (save resized thumb 85 true None;;
                       print (line_generated (name thumb)))
                      (λ e, print (line_error (name image_path) e)) w
       end.
Proof.
  intros Hf Hdec Hw Hratio Hh.
  destruct (int_times_ratio_bounds 250 (img_width img) (img_height img))
    as (n & Hn & Hb & Hn0); [change (2 ^ 12) with 4096; lia | lia | lia |].
  assert (n = 0) as -> by nia.
  split; [exact Hn|].
  unfold generate_thumbs.generate_thumbnail, generate_thumbs.generate_thumbnail_body.
  unfold try_except at 1. unfold mbind at 1 2 3. unfold M_bind at 1 2 3.
  unfold Image_open, lift. rewrite Hf, Hdec, Hn.
  destruct (resize img (0, 250)) as [resized|e]; reflexivity.
Qed.

(* ================================================================= *)
(** * Part V: further properties of the scripts *)
(* ================================================================= *)

Lemma changes_within_refl (S : Path -> Prop) (w : world) : changes_within S w w.
Proof. split; reflexivity. Qed.

Lemma changes_within_trans (S : Path -> Prop) (w1 w2 w3 : world) :
  changes_within S w1 w2 -> changes_within S w2 w3 -> changes_within S w1 w3.
Proof.
  intros [h1 f1 o1 l1] [h2 f2 o2 l2]. split.
  - congruence.
  - intros q Hq. rewrite f2, f1 by assumption. reflexivity.
  - etrans; eassumption.
  - etrans; eassumption.
Qed.

Lemma changes_within_mono (S S' : Path -> Prop) (w w' : world) :
  (forall q, S q -> S' q) -> changes_within S w w' -> changes_within S' w w'.
Proof. intros HS [h f o l]. split; auto. Qed.

Lemma touches_within (p : Path) (S : Path -> Prop) (w w' : world) :
  S p -> touches_only p w w' -> changes_within S w w'.
Proof.
  intros Hp [h d f o l]. split; try assumption.
  intros q Hq. apply f. intros ->. exact (Hq Hp).
Qed.

(** A loop whose iterations return and keep [I] changes what its iterations
    change. *)
Lemma for_each_within {A} (body : A -> M unit) (I : world -> Prop) (J : A -> Prop)
    (S : Path -> Prop) :
  (forall x w, J x -> I w ->
     (body x w).1 = Ok () /\ I (body x w).2 /\ changes_within S w (body x w).2) ->
  forall l w, Forall J l -> I w ->
    (for_each l body w).1 = Ok () /\ I (for_each l body w).2
    /\ changes_within S w (for_each l body w).2.
Proof.
  intros Hbody l. induction l as [|x l IH]; intros w HJ HI.
  - split; [reflexivity|]. split; [exact HI | apply changes_within_refl].
  - apply Forall_cons in HJ as [Hx Hl]. cbn [for_each]. unfold mbind, M_bind.
    destruct (Hbody x w Hx HI) as (H1 & H2 & H3).
    destruct (body x w) as [[[]|e] w1]; simpl in *; [|discriminate].
    destruct (IH w1 Hl H2) as (G1 & G2 & G3).
    split; [exact G1|]. split; [exact G2|]. eapply changes_within_trans; eassumption.
Qed.

Lemma for_each_app {A} (body : A -> M unit) (l1 l2 : list A) (w : world) :
  for_each (l1 ++ l2) body w = (for_each l1 body;; for_each l2 body) w.
Proof.
  revert w. induction l1 as [|x l1 IH]; intros w; [reflexivity|].
  cbn [for_each app]. unfold mbind, M_bind in *.
  destruct (body x w) as [[[]|e] w1]; [apply IH | reflexivity].
Qed.

(** The iteration for an element that occurs once: the iterations before it
    and after it change only what iterations for other elements change. *)
Lemma for_each_at {A} (body : A -> M unit) (I : world -> Prop) (S : Path -> Prop)
    (l : list A) (x : A) :
  x ∈ l -> NoDup l ->
  (forall y w, y ∈ l -> I w -> (body y w).1 = Ok () /\ I (body y w).2) ->
  (forall y w, y ∈ l -> y <> x -> I w -> changes_within S w (body y w).2) ->
  forall w, I w ->
    exists w1, I w1 /\ changes_within S w w1
      /\ (for_each l body w).1 = Ok ()
      /\ changes_within S (body x w1).2 (for_each l body w).2.
Proof.
  intros Hx Hnd Hret Hother w HI.
  apply list_elem_of_split in Hx as (l1 & l2 & ->).
  apply NoDup_app in Hnd as (_ & Hl1 & Hnd). apply NoDup_cons in Hnd as [Hl2 _].
  assert (forall l', (forall y, y ∈ l' -> y ∈ l1 ++ x :: l2 /\ y <> x) -> forall w0, I w0 ->
            (for_each l' body w0).1 = Ok () /\ I (for_each l' body w0).2
            /\ changes_within S w0 (for_each l' body w0).2) as Hloop.
  { intros l' Hl' w0 HI0.
    apply (for_each_within body I (λ y, y ∈ l1 ++ x :: l2 /\ y <> x) S).
    - intros y w' [Hy Hne] HI'. destruct (Hret y w' Hy HI') as [R1 R2]. auto.
    - apply Forall_forall. exact Hl'.
    - exact HI0. }
  destruct (Hloop l1) with (w0 := w) as (A1 & A2 & A3); [|exact HI|].
  { intros y Hy. split; [apply elem_of_app; left; exact Hy|].
    intros ->. apply (Hl1 x Hy). left. }
  exists (for_each l1 body w).2. split; [exact A2|]. split; [exact A3|].
  rewrite for_each_app. unfold mbind, M_bind.
  destruct (for_each l1 body w) as [[[]|e] w1]; simpl in *; [|discriminate].
  cbn [for_each]. unfold mbind, M_bind.
  destruct (Hret x w1) as [B1 B2]; [apply elem_of_app; right; left | exact A2|].
  destruct (body x w1) as [[[]|e] w2]; simpl in *; [|discriminate].
  destruct (Hloop l2) with (w0 := w2) as (C1 & C2 & C3); [|exact B2|].
  { intros y Hy. split; [apply elem_of_app; right; right; exact Hy|].
    intros ->. exact (Hl2 Hy). }
  split; assumption.
Qed.

(** ** Discovery, once more *)

(** Strings as lists of characters, to reason about suffixes. *)
Lemma string_chars_app (a b : string) :
  String.list_ascii_of_string (a +:+ b)
  = String.list_ascii_of_string a ++ String.list_ascii_of_string b.
Proof. induction a as [|c a IH]; simpl; [reflexivity | f_equal; exact IH]. Qed.

Lemma string_chars_inj (a b : string) :
  String.list_ascii_of_string a = String.list_ascii_of_string b -> a = b.
Proof.
  intros E. rewrite <- (String.string_of_list_ascii_of_string a), E.
  apply String.string_of_list_ascii_of_string.
Qed.

Lemma string_chars_length (a : string) :
  length (String.list_ascii_of_string a) = String.length a.
Proof. induction a as [|c a IH]; simpl; [reflexivity | f_equal; exact IH]. Qed.

Lemma string_chars_substring (s : string) :
  forall n m, String.list_ascii_of_string (String.substring n m s)
              = take m (drop n (String.list_ascii_of_string s)).
Proof.
  induction s as [|c s IH]; intros n m.
  - destruct n, m; reflexivity.
  - destruct n as [|n].
    + destruct m as [|m]; cbn; [reflexivity|]. rewrite IH. reflexivity.
    + cbn. apply IH.
Qed.

Lemma ends_with_spec (suffix s : string) :
  ends_with suffix s = true <-> exists stem, s = stem +:+ suffix.
Proof.
  unfold ends_with. rewrite andb_true_iff, bool_decide_eq_true, String.eqb_eq. split.
  - intros [Hlen Hsub].
    exists (String.substring 0 (String.length s - String.length suffix) s).
    apply string_chars_inj. rewrite string_chars_app.
    rewrite <- Hsub at 2. rewrite !string_chars_substring. cbn [drop].
    rewrite <- (take_drop (String.length s - String.length suffix)
                  (String.list_ascii_of_string s)) at 1.
    f_equal. symmetry. apply take_ge. rewrite length_drop, string_chars_length. lia.
  - intros [stem ->].
    assert (String.length (stem +:+ suffix)
            = (String.length stem + String.length suffix)%nat) as L.
    { rewrite <- !string_chars_length, string_chars_app, length_app. reflexivity. }
    split; [lia|]. apply string_chars_inj.
    rewrite string_chars_substring, string_chars_app, L.
    replace (String.length stem + String.length suffix - String.length suffix)%nat
      with (length (String.list_ascii_of_string stem)) by (rewrite string_chars_length; lia).
    rewrite drop_app_length. apply take_ge. rewrite string_chars_length. lia.
Qed.

Lemma common_suffix {A} (l1 l2 a b : list A) :
  a ++ l1 = b ++ l2 -> (length l1 <= length l2)%nat -> exists c, l2 = c ++ l1.
Proof.
  intros E Hlen. exists (drop (length b) a).
  assert (length a + length l1 = length b + length l2)%nat as L
    by (rewrite <- !length_app, E; reflexivity).
  rewrite <- (take_drop (length b) a), <- app_assoc in E.
  apply app_inj_1 in E as [_ E]; [symmetry; exact E|].
  rewrite length_take. lia.
Qed.

(** Of two suffixes of one name the shorter is a suffix of the longer. *)
Lemma ends_with_both (s1 s2 n : string) :
  ends_with s1 n = true -> ends_with s2 n = true ->
  (String.length s1 <= String.length s2)%nat ->
  ends_with s1 s2 = true.
Proof.
  rewrite !ends_with_spec. intros [a Ha] [b Hb] Hlen.
  rewrite Ha in Hb. apply (f_equal String.list_ascii_of_string) in Hb.
  rewrite !string_chars_app in Hb.
  apply common_suffix in Hb as [c Hc]; [|rewrite !string_chars_length; exact Hlen].
  exists (String.string_of_list_ascii c). apply string_chars_inj.
  rewrite string_chars_app, String.list_ascii_of_string_of_list_ascii. exact Hc.
Qed.

Lemma glob_list_NoDup (d pattern : string) (w : world) : NoDup (glob_list d pattern w).
Proof.
  unfold glob_list. destruct (fs w !! d) as [files|]; [|constructor].
  apply NoDup_fmap_2; [intros a b E; congruence|].
  apply NoDup_filter, NoDup_fst_map_to_list.
Qed.

Lemma discovered_globs (d : string) (w : world) :
  discovered d w
  = glob_list d "*.jpg" w ++ glob_list d "*.jpeg" w
    ++ glob_list d "*.JPG" w ++ glob_list d "*.JPEG" w.
Proof.
  unfold discovered, find_jpgs, jpg_patterns. cbn.
  unfold mbind, M_bind, glob, mret, M_ret. cbn. rewrite <- !app_assoc. reflexivity.
Qed.

Lemma glob_list_disjoint (d s1 s2 : string) (w : world) (p : Path) :
  ends_with s1 s2 = false -> (String.length s1 <= String.length s2)%nat ->
  p ∈ glob_list d (String "*" s1) w -> p ∈ glob_list d (String "*" s2) w -> False.
Proof.
  intros Hno Hlen H1 H2. apply glob_list_elem in H1 as (_ & _ & H1).
  apply glob_list_elem in H2 as (_ & _ & H2). cbn [fnmatch] in H1, H2.
  rewrite (ends_with_both s1 s2 (name p) H1 H2 Hlen) in Hno. discriminate.
Qed.

Lemma discovered_NoDup (d : string) (w : world) : NoDup (discovered d w).
Proof.
  rewrite discovered_globs.
  repeat (apply NoDup_app; split; [apply glob_list_NoDup|]; split;
          [intros p Hp Hq; rewrite ?elem_of_app in Hq|]).
  4: apply glob_list_NoDup.
  all: repeat match goal with Hq : _ \/ _ |- _ => destruct Hq as [Hq | Hq] end.
  all: first
    [ eapply (glob_list_disjoint d _ _ w p); [| |exact Hp|exact Hq]; [reflexivity | cbn; lia]
    | eapply (glob_list_disjoint d _ _ w p); [| |exact Hq|exact Hp]; [reflexivity | cbn; lia] ].
Qed.

(** X1.  The files both scripts work on are the files of the directory whose
    name ends in [.jpg], [.jpeg], [.JPG] or [.JPEG] (the stem may be empty),
    and each of them is listed once: no file is processed twice in a run.
    Names are matched with regard to case, as [glob] does on a POSIX file
    system. *)
Theorem discovery_is_exact (d : string) (w : world) :
  NoDup (discovered d w)
  /\ forall p, p ∈ discovered d w <->
       parent p = d /\ is_Some (lookup_file w p)
       /\ exists stem,
            name p = stem +:+ ".jpg"%string \/ name p = stem +:+ ".jpeg"%string
            \/ name p = stem +:+ ".JPG"%string \/ name p = stem +:+ ".JPEG"%string.
Proof.
  split; [apply discovered_NoDup|].
  intros p. rewrite discovered_elem. unfold is_jpg, jpg_patterns. cbn [existsb fnmatch].
  rewrite !orb_true_iff, !ends_with_spec. split.
  - intros (Hd & Hf & Hm). split; [exact Hd|]. split; [exact Hf|].
    destruct Hm as [[s ->] | [[s ->] | [[s ->] | [[s ->] | Hm]]]]; try discriminate;
      exists s; tauto.
  - intros (Hd & Hf & s & Hm). split; [exact Hd|]. split; [exact Hf|].
    destruct Hm as [-> | [-> | [-> | ->]]]; eauto 10.
Qed.

Lemma unrelated_suffix (s1 s2 n : string) :
  ends_with s1 s2 = false -> ends_with s2 s1 = false ->
  ends_with s1 n = true -> ends_with s2 n = true -> False.
Proof.
  intros H12 H21 H1 H2.
  destruct (decide (String.length s1 <= String.length s2)%nat) as [Hle | Hgt].
  - rewrite (ends_with_both s1 s2 n H1 H2 Hle) in H12. discriminate.
  - rewrite (ends_with_both s2 s1 n H2 H1) in H21 by lia. discriminate.
Qed.

Lemma other_extension_ignored (d : string) (w : world) (stem ext : string) :
  Forall (λ pattern, match pattern with
                     | String _ suffix =>
                         ends_with suffix ext = false /\ ends_with ext suffix = false
                     | EmptyString => False
                     end) jpg_patterns ->
  mkPath d (stem +:+ ext) ∉ discovered d w.
Proof.
  intros Hext Hin. apply discovered_elem in Hin as (_ & _ & Hm). cbn [name] in Hm.
  unfold is_jpg in Hm. apply existsb_exists in Hm as (pattern & Hp & Hm).
  apply list_elem_of_In in Hp. rewrite Forall_forall in Hext. specialize (Hext _ Hp).
  unfold jpg_patterns in Hp.
  assert (ends_with ext (stem +:+ ext) = true) as He by (apply ends_with_spec; eauto).
  destruct pattern as [|c suffix]; [contradiction|]. destruct Hext as [H1 H2].
  assert (c = "*"%char) as ->.
  { repeat (apply elem_of_cons in Hp as [Hp | Hp]; [congruence|]). inversion Hp. }
  exact (unrelated_suffix _ _ _ H1 H2 Hm He).
Qed.

(** X2.  Apart from the two spellings of each extension the search is
    case-sensitive: a file named [stem.Jpg] or [stem.Jpeg] is not found,
    whatever the stem. *)
Theorem mixed_case_extension_ignored (d : string) (w : world) (stem : string) :
  (mkPath d (stem +:+ ".Jpg"%string) ∉ discovered d w)
  /\ (mkPath d (stem +:+ ".Jpeg"%string) ∉ discovered d w).
Proof.
  split; apply other_extension_ignored; repeat constructor.
Qed.

(** ** The generator, image by image *)


Lemma thumbs_ready_dirs (w : world) :
  is_Some (fs (thumbs_ready w) !! generate_thumbs.IMAGES_DIR)
  /\ is_Some (fs (thumbs_ready w) !! generate_thumbs.THUMBS_DIR).
Proof.
  unfold thumbs_ready. cbn [fs]. rewrite !ensure_dir_lookup.
  split; repeat case_decide; try discriminate; try done; eauto.
Qed.

(** The generator from the state in which it enters its loop. *)
Lemma thumbs_main_loop (w : world) :
  discovered generate_thumbs.IMAGES_DIR w <> [] ->
  exists w0,
    changes_within (λ _, False) w w0
    /\ is_Some (fs w0 !! generate_thumbs.THUMBS_DIR)
    /\ stdout w0
       = stdout w ++ [line_found_nl (length (discovered generate_thumbs.IMAGES_DIR w))]
    /\ fslog w0
       = fslog w ++ mkdir_events generate_thumbs.IMAGES_DIR (fs w)
                 ++ mkdir_events generate_thumbs.THUMBS_DIR
                      (ensure_dir generate_thumbs.IMAGES_DIR (fs w))
    /\ generate_thumbs.main w
       = print line_done
           (for_each (sorted (discovered generate_thumbs.IMAGES_DIR w))
                     generate_thumbs.process_image w0).2.
Proof.
  intros Hne. rewrite thumbs_main_run.
  destruct (discovered generate_thumbs.IMAGES_DIR w) as [|p0 l0] eqn:Hl; [contradiction|].
  rewrite <- Hl. clear p0 l0 Hl Hne.
  set (k := length (discovered generate_thumbs.IMAGES_DIR w)).
  set (l := sorted (discovered generate_thumbs.IMAGES_DIR w)).
  exists (print (line_found_nl k) (thumbs_ready w)).2.
  split; [|split; [|split; [|split]]].
  - split; cbn [print snd here fs stdout fslog thumbs_ready].
    + reflexivity.
    + intros q _. apply thumbs_ready_lookup.
    + apply prefix_app_r. reflexivity.
    + apply prefix_app_r. reflexivity.
  - apply thumbs_ready_dirs.
  - reflexivity.
  - reflexivity.
  - unfold mbind at 1, M_bind at 1. cbn [print]. unfold mbind at 1, M_bind at 1.
    pose proof (thumbs_loop_spec l (print (line_found_nl k) (thumbs_ready w)).2) as [Hok _].
    cbn [print snd] in Hok |- *.
    destruct (for_each l _ _) as [[[]|e] w1]; cbn [fst snd] in *; [reflexivity | discriminate].
Qed.

Lemma new_output {A} (s0 s1 s2 sf : list A) (x : A) :
  s0 `prefix_of` s1 -> s2 = s1 ++ [x] -> s2 `prefix_of` sf ->
  exists out, sf = s0 ++ out /\ x ∈ out.
Proof.
  intros [a ->] -> [b ->]. exists (a ++ [x] ++ b). split.
  - rewrite <- !app_assoc. reflexivity.
  - rewrite !elem_of_app. right. left. left.
Qed.

Lemma sorted_NoDup (l : list Path) : NoDup l -> NoDup (sorted l).
Proof. unfold sorted. rewrite merge_sort_Permutation. auto. Qed.

Lemma same_directory_names (d : string) (w : world) (p q : Path) :
  p ∈ discovered d w -> q ∈ discovered d w -> p <> q -> name p <> name q.
Proof.
  intros Hp Hq Hne E. apply discovered_elem in Hp as (Hp & _).
  apply discovered_elem in Hq as (Hq & _). apply Hne. apply path_eq; congruence.
Qed.

(** A [save] that returns has written the file. *)
Lemma save_returns (img : image pixels) (p : Path) (quality : Z) (optimize : bool)
    (exif : option (list Byte.byte)) (w : world) :
  (save img p quality optimize exif w).1 = Ok () ->
  exists files data,
    fs w !! parent p = Some files
    /\ encode (SaveRequest img quality optimize exif) (files !! name p) = Written data
    /\ lookup_file (save img p quality optimize exif w).2 p = Some data.
Proof.
  unfold save. destruct (fs w !! parent p) as [files|] eqn:Hd; [|discriminate].
  destruct (encode _ _) as [data | msg [partial|]] eqn:He; cbn; try discriminate.
  intros _. exists files, data. split; [reflexivity|]. split; [exact He|].
  unfold lookup_file. cbn. rewrite lookup_insert_eq. cbn. apply lookup_insert_eq.
Qed.

(** What one iteration of the generator's loop leaves behind. *)
Lemma thumb_process_image_outcome (p : Path) (w : world) :
  (exists t, lookup_file w (thumb_path p) = Some t
      /\ lookup_file (generate_thumbs.process_image p w).2 (thumb_path p) = Some t
      /\ stdout (generate_thumbs.process_image p w).2 = stdout w ++ [line_skipped (name p)])
  \/ (lookup_file w (thumb_path p) = None
      /\ is_Some (lookup_file (generate_thumbs.process_image p w).2 (thumb_path p))
      /\ stdout (generate_thumbs.process_image p w).2 = stdout w ++ [line_generated (name p)])
  \/ (lookup_file w (thumb_path p) = None
      /\ exists e,
           stdout (generate_thumbs.process_image p w).2 = stdout w ++ [line_error (name p) e]).
Proof.
  destruct (lookup_file w (thumb_path p)) as [t|] eqn:Ht.
  { left. exists t. rewrite process_image_skips by (unfold thumb_path in Ht; rewrite Ht; eauto).
    split; [reflexivity|]. split; [exact Ht | reflexivity]. }
  right.
  assert (generate_thumbs.process_image p w
          = generate_thumbs.generate_thumbnail p (thumb_path p)
              generate_thumbs.THUMBNAIL_HEIGHT w) as ->.
  { unfold generate_thumbs.process_image, mbind, M_bind, path_exists. cbn.
    rewrite bool_decide_eq_false_2; [reflexivity|].
    fold (thumb_path p). rewrite Ht. intros [? ?]. discriminate. }
  rewrite generate_thumbnail_run.
  destruct (lookup_file w p) as [data|]; [|right; cbn; eauto].
  destruct (decode_header data) as [img|e]; [|right; cbn; eauto].
  destruct (int_times_ratio _ _ _) as [new_width|e]; [|right; cbn; eauto].
  destruct (resize _ _) as [resized|e]; [|right; cbn; eauto].
  unfold try_except, mbind, M_bind.
  pose proof (save_returns resized (thumb_path p) 85 true None w) as Hs.
  pose proof (save_stdout resized (thumb_path p) 85 true None w) as Ho.
  destruct (save _ _ _ _ _ w) as [[[]|e] w1]; cbn [fst snd] in *.
  - left. destruct (Hs eq_refl) as (files & data' & _ & _ & Hf). split; [reflexivity|].
    split; [|cbn; rewrite Ho; reflexivity].
    change (is_Some (lookup_file w1 (thumb_path p))). rewrite Hf. eauto.
  - right. split; [reflexivity|]. exists e. cbn. rewrite Ho. reflexivity.
Qed.

(** The iteration for one image, set apart from the rest of a run. *)
Lemma thumbs_main_at (w : world) (p : Path) :
  p ∈ discovered generate_thumbs.IMAGES_DIR w ->
  exists w1,
    changes_within (other_thumbnails p) w w1
    /\ is_Some (fs w1 !! generate_thumbs.THUMBS_DIR)
    /\ changes_within (other_thumbnails p)
         (generate_thumbs.process_image p w1).2 (generate_thumbs.main w).2.
Proof.
  intros Hp.
  destruct (thumbs_main_loop w) as (w0 & Hw0 & Hdir & _ & _ & ->).
  { intros E. rewrite E in Hp. inversion Hp. }
  destruct (for_each_at generate_thumbs.process_image
              (λ w', is_Some (fs w' !! generate_thumbs.THUMBS_DIR))
              (other_thumbnails p)
              (sorted (discovered generate_thumbs.IMAGES_DIR w)) p)
    with (w := w0) as (w1 & HI & Hpre & _ & Hpost).
  - apply sorted_elem. exact Hp.
  - apply sorted_NoDup, discovered_NoDup.
  - intros y w' _ HI. destruct (thumb_process_image_spec y w') as (Hok & Hfr & _).
    split; [exact Hok|]. apply (to_dirs _ _ _ Hfr). exact HI.
  - intros y w' Hy Hne _. destruct (thumb_process_image_spec y w') as (_ & Hfr & _).
    apply (touches_within (thumb_path y)); [|exact Hfr].
    split; [reflexivity|].
    intros E. apply (proj1 (sorted_elem _ _)) in Hy.
    apply (same_directory_names _ w y p Hy Hp Hne). injection E as E. exact E.
  - exact Hdir.
  - exists w1. split; [|split; [exact HI|]].
    + eapply changes_within_trans; [|exact Hpre].
      eapply changes_within_mono; [|exact Hw0]. contradiction.
    + eapply changes_within_trans; [exact Hpost|].
      split; cbn [print snd here fs stdout fslog]; try reflexivity.
      apply prefix_app_r. reflexivity.
Qed.

(** X5.  Every image found is accounted for in a run of the generator: its
    thumbnail existed, is unchanged, and the image is reported as skipped; or
    it had none, has one afterwards, and is reported as generated; or it had
    none and an error is reported for it. *)
Theorem every_image_accounted_for (w : world) (p : Path) :
  p ∈ discovered generate_thumbs.IMAGES_DIR w ->
  exists out,
    stdout (generate_thumbs.main w).2 = stdout w ++ out
    /\ ((exists t, lookup_file w (thumb_path p) = Some t
           /\ lookup_file (generate_thumbs.main w).2 (thumb_path p) = Some t
           /\ line_skipped (name p) ∈ out)
        \/ (lookup_file w (thumb_path p) = None
            /\ is_Some (lookup_file (generate_thumbs.main w).2 (thumb_path p))
            /\ line_generated (name p) ∈ out)
        \/ (lookup_file w (thumb_path p) = None
            /\ exists e, line_error (name p) e ∈ out)).
Proof.
  intros Hp. destruct (thumbs_main_at w p Hp) as (w1 & Hpre & _ & Hpost).
  assert (lookup_file w1 (thumb_path p) = lookup_file w (thumb_path p)) as E1
    by (apply (cw_files _ _ _ Hpre); intros [_ G]; auto).
  assert (lookup_file (generate_thumbs.main w).2 (thumb_path p)
          = lookup_file (generate_thumbs.process_image p w1).2 (thumb_path p)) as E2
    by (apply (cw_files _ _ _ Hpost); intros [_ G]; auto).
  rewrite E2, <- E1.
  destruct (thumb_process_image_outcome p w1)
    as [(t & Ht & Ht' & Ho) | [(Ht & Ht' & Ho) | (Ht & e & Ho)]];
    destruct (new_output _ _ _ _ _ (cw_stdout _ _ _ Hpre) Ho (cw_stdout _ _ _ Hpost))
      as (out & Hout & Hin);
    exists out; (split; [exact Hout|]); eauto 10.
Qed.

Lemma save_written (img : image pixels) (p : Path) (quality : Z) (optimize : bool)
    (exif : option (list Byte.byte)) (w : world) (files : gmap string (list Byte.byte))
    (data : list Byte.byte) :
  fs w !! parent p = Some files ->
  encode (SaveRequest img quality optimize exif) (files !! name p) = Written data ->
  (save img p quality optimize exif w).1 = Ok ()
  /\ lookup_file (save img p quality optimize exif w).2 p = Some data
  /\ stdout (save img p quality optimize exif w).2 = stdout w.
Proof.
  intros Hd He. unfold save. rewrite Hd. cbv zeta. rewrite He. cbn.
  split; [reflexivity|]. split; [|reflexivity].
  unfold lookup_file. cbn. rewrite lookup_insert_eq. cbn. apply lookup_insert_eq.
Qed.

Lemma process_image_generates (p : Path) (w : world) :
  lookup_file w (thumb_path p) = None ->
  generate_thumbs.process_image p w
  = generate_thumbs.generate_thumbnail p (thumb_path p) generate_thumbs.THUMBNAIL_HEIGHT w.
Proof.
  intros Ht. unfold generate_thumbs.process_image, mbind, M_bind, path_exists. cbn.
  rewrite bool_decide_eq_false_2; [reflexivity|].
  fold (thumb_path p). rewrite Ht. intros [? ?]. discriminate.
Qed.

(** X6.  If an image found has no thumbnail, decodes, and is resized and
    encoded without error, then after the run its thumbnail is the encoder's
    output for the resized image at quality 85 with optimisation, and the
    source is what it was. *)
Theorem thumbnail_is_encoded_resize (w : world) (p : Path) (data : list Byte.byte)
    (img resized : image pixels) (new_width : Z) (thumbnail : list Byte.byte) :
  p ∈ discovered generate_thumbs.IMAGES_DIR w ->
  lookup_file w (thumb_path p) = None ->
  lookup_file w p = Some data ->
  decode_header data = Ok img ->
  int_times_ratio generate_thumbs.THUMBNAIL_HEIGHT (img_width img) (img_height img)
    = Ok new_width ->
  resize img (new_width, generate_thumbs.THUMBNAIL_HEIGHT) = Ok resized ->
  encode (SaveRequest resized 85 true None) None = Written thumbnail ->
  lookup_file (generate_thumbs.main w).2 (thumb_path p) = Some thumbnail
  /\ lookup_file (generate_thumbs.main w).2 p = Some data.
Proof.
  intros Hp Ht Hf Hdec Hn Hr Henc.
  destruct (thumbs_main_at w p Hp) as (w1 & Hpre & [files Hdir] & Hpost).
  assert (parent p = generate_thumbs.IMAGES_DIR) as Hpar
    by (apply discovered_elem in Hp as (Hd & _); exact Hd).
  assert (~ other_thumbnails p p) as Hnp.
  { intros [G _]. rewrite Hpar in G. discriminate. }
  assert (~ other_thumbnails p (thumb_path p)) as Hnt by (intros [_ G]; auto).
  rewrite (cw_files _ _ _ Hpost _ Hnp), (cw_files _ _ _ Hpost _ Hnt).
  pose proof (cw_files _ _ _ Hpre _ Hnp) as E1. pose proof (cw_files _ _ _ Hpre _ Hnt) as E2.
  rewrite Hf in E1. rewrite Ht in E2.
  assert (files !! name p = None) as Habs.
  { unfold lookup_file, thumb_path in E2. cbn [parent name] in E2. rewrite Hdir in E2. exact E2. }
  rewrite process_image_generates by exact E2.
  rewrite generate_thumbnail_run, E1, Hdec, Hn, Hr.
  unfold try_except, mbind, M_bind.
  destruct (save_written resized (thumb_path p) 85 true None w1 files thumbnail)
    as (S1 & S2 & S3); [exact Hdir | cbn [name thumb_path]; rewrite Habs; exact Henc |].
  pose proof (frames_save resized (thumb_path p) 85 true None w1) as Hfr.
  destruct (save _ _ _ _ _ w1) as [[[]|e] w2]; cbn [fst snd] in *; [|discriminate].
  split; [exact S2|].
  change (lookup_file w2 p = Some data). rewrite (to_files _ _ _ Hfr), E1; [reflexivity|].
  intros E. rewrite E in Hpar. discriminate.
Qed.

Lemma generator_frame (w : world) (q : Path) :
  (forall p, p ∈ discovered generate_thumbs.IMAGES_DIR w -> q <> thumb_path p) ->
  lookup_file (generate_thumbs.main w).2 q = lookup_file w q.
Proof.
  intros Hq.
  destruct (discovered generate_thumbs.IMAGES_DIR w) as [|p0 l0] eqn:Hl.
  { rewrite thumbs_main_run, Hl. apply thumbs_ready_lookup. }
  destruct (thumbs_main_loop w) as (w0 & Hw0 & _ & _ & _ & ->); [rewrite Hl; discriminate|].
  rewrite <- Hl in *. clear p0 l0 Hl.
  destruct (for_each_within generate_thumbs.process_image (λ _, True)
              (λ y, y ∈ discovered generate_thumbs.IMAGES_DIR w)
              (λ q', exists p, p ∈ discovered generate_thumbs.IMAGES_DIR w /\ q' = thumb_path p))
    with (l := sorted (discovered generate_thumbs.IMAGES_DIR w)) (w := w0)
    as (_ & _ & Hloop).
  - intros y w' Hy _. destruct (thumb_process_image_spec y w') as (Hok & Hfr & _).
    split; [exact Hok|]. split; [exact I|].
    apply (touches_within (thumb_path y)); [eauto | exact Hfr].
  - apply Forall_forall. intros y Hy. apply sorted_elem. exact Hy.
  - exact I.
  - change (lookup_file (for_each (sorted (discovered generate_thumbs.IMAGES_DIR w))
                           generate_thumbs.process_image w0).2 q = lookup_file w q).
    rewrite (cw_files _ _ _ Hloop), (cw_files _ _ _ Hw0); [reflexivity | auto |].
    intros (p & Hp & ->). exact (Hq p Hp eq_refl).
Qed.

(** X4.  A run of the generator leaves every file as it was, except
    thumbnails that did not exist, of images it found: the sources, the
    thumbnails that exist and all other files are not touched. *)
Theorem generator_writes_only_missing_thumbnails (w : world) (q : Path) :
  lookup_file (generate_thumbs.main w).2 q = lookup_file w q
  \/ (lookup_file w q = None
      /\ exists p, p ∈ discovered generate_thumbs.IMAGES_DIR w /\ q = thumb_path p).
Proof.
  destruct (decide (q ∈ thumb_path <$> discovered generate_thumbs.IMAGES_DIR w)) as [Hin | Hout].
  - apply list_elem_of_fmap in Hin as (p & -> & Hp).
    destruct (lookup_file w (thumb_path p)) as [t|] eqn:Hq; [left | right; eauto].
    destruct (thumbs_main_spec w) as (_ & Hkeep & _). apply Hkeep. exact Hq.
  - left. apply generator_frame. intros p Hp ->. apply Hout.
    apply list_elem_of_fmap. eauto.
Qed.

Lemma thumbs_loop_lines (l : list Path) :
  forall w : world,
  exists lines,
    stdout (for_each l generate_thumbs.process_image w).2 = stdout w ++ lines
    /\ Forall2 (λ p line, thumb_report (name p) line) l lines.
Proof.
  induction l as [|p l IH]; intros w.
  - exists []. split; [cbn; rewrite app_nil_r; reflexivity | constructor].
  - cbn [for_each]. unfold mbind, M_bind.
    destruct (thumb_process_image_spec p w) as (Hok & _ & line & Hout & Hrep).
    destruct (generate_thumbs.process_image p w) as [[[]|e] w1]; cbn [fst snd] in *;
      [|discriminate].
    destruct (IH w1) as (lines & Hlines & Hall).
    exists (line :: lines). split; [|constructor; assumption].
    rewrite Hlines, Hout, <- app_assoc. reflexivity.
Qed.

(** X3.  When there are images, the generator prints the number of images
    found, then exactly one line for each image (skipped, generated, or its
    error) in ascending order of the names, then the closing line. *)
Theorem generator_reports_in_name_order (w : world) :
  discovered generate_thumbs.IMAGES_DIR w <> [] ->
  exists lines,
    stdout (generate_thumbs.main w).2
    = stdout w ++ [line_found_nl (length (discovered generate_thumbs.IMAGES_DIR w))]
               ++ lines ++ [line_done]
    /\ Forall2 (λ p line, thumb_report (name p) line)
         (sorted (discovered generate_thumbs.IMAGES_DIR w)) lines
    /\ Sorted path_le (sorted (discovered generate_thumbs.IMAGES_DIR w))
    /\ sorted (discovered generate_thumbs.IMAGES_DIR w)
       ≡ₚ discovered generate_thumbs.IMAGES_DIR w.
Proof.
  intros Hne. destruct (thumbs_main_loop w Hne) as (w0 & _ & _ & Hout0 & _ & ->).
  destruct (thumbs_loop_lines (sorted (discovered generate_thumbs.IMAGES_DIR w)) w0)
    as (lines & Hlines & Hall).
  exists lines. split; [|split; [exact Hall|split]].
  - cbn [print snd stdout]. rewrite Hlines, Hout0, <- !app_assoc. reflexivity.
  - apply Sorted_merge_sort. apply _.
  - apply merge_sort_Permutation.
Qed.

(** X12.  Called on a path at which there is no file, [generate_thumbnail]
    and [resize_for_web] print the error line for that path, with the message
    [Image.open] raises, and change nothing. *)
Theorem missing_file_is_reported (w : world) (image_path thumb : Path)
    (height max_dimension quality : Z) :
  lookup_file w image_path = None ->
  generate_thumbs.generate_thumbnail image_path thumb height w
    = print (line_error (name image_path) (no_such_file w image_path)) w
  /\ resize_for_web.resize_for_web image_path max_dimension quality w
    = print (line_error (name image_path) (no_such_file w image_path)) w.
Proof.
  intros Hf. split.
  - rewrite generate_thumbnail_run, Hf. reflexivity.
  - unfold resize_for_web.resize_for_web, try_except. rewrite resize_for_web_body_run.
    unfold upright. rewrite Hf. reflexivity.
Qed.

(** X10.  The generator scales to the height 250 in both directions: an
    image less than 250 pixels high gets a thumbnail at least as wide as the
    image itself, an image at least 250 pixels high one that is at most as
    wide.  The generator resizes the image to that width and the height 250,
    whatever its height, and saves the result: where the directory of the
    thumbnail is there, that request is what it logs. *)
Theorem small_sources_are_enlarged (w : world) (image_path thumb : Path)
    (data : list Byte.byte) (img : image pixels) :
  lookup_file w image_path = Some data ->
  decode_header data = Ok img ->
  0 < img_width img < 2 ^ 31 ->
  0 < img_height img < 2 ^ 31 ->
  exists new_width : Z,
    int_times_ratio generate_thumbs.THUMBNAIL_HEIGHT (img_width img) (img_height img)
      = Ok new_width
    /\ (img_height img < generate_thumbs.THUMBNAIL_HEIGHT -> img_width img <= new_width)
    /\ (generate_thumbs.THUMBNAIL_HEIGHT <= img_height img -> new_width <= img_width img)
    /\ generate_thumbs.generate_thumbnail image_path thumb
         generate_thumbs.THUMBNAIL_HEIGHT w
       = match resize img (new_width, generate_thumbs.THUMBNAIL_HEIGHT) with
         | Raise e => print (line_error (name image_path) e) w
         | Ok resized =>
             try_except (save resized thumb 85 true None;;
                         print (line_generated (name thumb)))
                        (λ e, print (line_error (name image_path) e)) w
         end
    /\ forall resized,
         resize img (new_width, generate_thumbs.THUMBNAIL_HEIGHT) = Ok resized ->
         img_size resized = (new_width, generate_thumbs.THUMBNAIL_HEIGHT)
         /\ (is_Some (fs w !! parent thumb) ->
             fslog (generate_thumbs.generate_thumbnail image_path thumb
                      generate_thumbs.THUMBNAIL_HEIGHT w).2
             = fslog w ++ [SaveCall thumb (SaveRequest resized 85 true None)]).
Proof.
  intros Hf Hdec Hw Hh. unfold generate_thumbs.THUMBNAIL_HEIGHT.
  destruct (int_times_ratio_bounds 250 (img_width img) (img_height img))
    as (n & Hn & Hb & _); [change (2 ^ 12) with 4096; lia | lia | assumption |].
  exists n. split; [exact Hn|]. split; [intros Hsmall; nia|]. split; [intros Hbig; nia|].
  split.
  - rewrite generate_thumbnail_run, Hf, Hdec, Hn. reflexivity.
  - intros resized Hr. split; [apply (resize_size img); exact Hr|].
    intros Hdir. apply (generate_thumbnail_logs _ _ _ _ data img resized n); assumption.
Qed.

(** ** The resizer, image by image *)

Lemma upright_ext (w w' : world) (p : Path) :
  here w' = here w -> lookup_file w' p = lookup_file w p -> upright w' p = upright w p.
Proof.
  intros Hh Hf. unfold upright, no_such_file, path_str. rewrite Hh, Hf. reflexivity.
Qed.

(** What one iteration of the resizer's loop may change. *)
Lemma web_process_image_within (p : Path) (w : world) :
  changes_within (λ q, q = p \/ q = backup_path p) w (resize_for_web.process_image p w).2.
Proof.
  unfold resize_for_web.process_image, mbind, M_bind, path_exists. cbn [fst snd].
  fold (backup_path p).
  assert (forall w1, changes_within (λ q, q = p \/ q = backup_path p) w w1 ->
            changes_within (λ q, q = p \/ q = backup_path p) w
              (match resize_for_web.resize_for_web p resize_for_web.MAX_DIMENSION
                       resize_for_web.QUALITY w1 with
               | (Ok _, w2) => print "" w2
               | (Raise e, w2) => (Raise e, w2)
               end).2) as Hrest.
  { intros w1 H1.
    pose proof (resize_for_web_frames p resize_for_web.MAX_DIMENSION
                  resize_for_web.QUALITY w1) as Hfr.
    destruct (resize_for_web.resize_for_web p _ _ w1) as [[[]|e] w2]; cbn [fst snd] in *.
    - eapply changes_within_trans; [exact H1|].
      eapply changes_within_trans;
        [apply (touches_within p); [left; reflexivity | exact Hfr]|].
      apply (touches_within p); [left; reflexivity | apply frames_print].
    - eapply changes_within_trans; [exact H1|].
      apply (touches_within p); [left; reflexivity | exact Hfr]. }
  destruct (bool_decide _).
  - apply Hrest, changes_within_refl.
  - pose proof (frames_copy2 p (backup_path p) w) as Hfr.
    destruct (copy2 p (backup_path p) w) as [[[]|e] w1]; cbn [fst snd] in *.
    + apply Hrest. apply (touches_within (backup_path p)); [right; reflexivity | exact Hfr].
    + apply (touches_within (backup_path p)); [right; reflexivity | exact Hfr].
Qed.

(** What the resizer's loop relies on: the backup directory is there, and
    every file of [l] or its backup is. *)
Lemma web_process_image_keeps (l : list Path) (y : Path) (w : world) :
  Forall (λ p, parent p = resize_for_web.IMAGES_DIR) l -> y ∈ l ->
  is_Some (fs w !! resize_for_web.BACKUP_DIR)
  /\ (forall q, q ∈ l -> is_Some (lookup_file w q) \/ is_Some (lookup_file w (backup_path q))) ->
  (resize_for_web.process_image y w).1 = Ok ()
  /\ is_Some (fs (resize_for_web.process_image y w).2 !! resize_for_web.BACKUP_DIR)
  /\ (forall q, q ∈ l ->
        is_Some (lookup_file (resize_for_web.process_image y w).2 q)
        \/ is_Some (lookup_file (resize_for_web.process_image y w).2 (backup_path q))).
Proof.
  intros Hpar Hy [Hdir Hsrc]. rewrite Forall_forall in Hpar.
  destruct (web_process_image_spec y w (Hpar y Hy) Hdir (Hsrc y Hy))
    as (Hok & Hbk & Hsame & Hdirs & _).
  split; [exact Hok|]. split; [apply Hdirs; exact Hdir|].
  intros q Hq. destruct (decide (q = y)) as [-> | Hne].
  - right. rewrite Hbk. destruct (lookup_file w (backup_path y)) eqn:Hb; [eauto|].
    destruct (Hsrc y Hy) as [G | [? G]]; [exact G | rewrite Hb in G; discriminate].
  - rewrite (Hsame q), (Hsame (backup_path q)).
    + apply Hsrc. exact Hq.
    + intros E. symmetry in E. revert E. apply backup_path_neq, Hpar, Hy.
    + intros E. injection E as E. apply Hne. apply path_eq; [|exact E].
      rewrite (Hpar q Hq), (Hpar y Hy). reflexivity.
    + exact Hne.
    + apply backup_path_neq, Hpar, Hq.
Qed.

(** The resizer from the state in which it enters its loop. *)
Lemma web_main_loop (w : world) :
  discovered resize_for_web.IMAGES_DIR w <> [] ->
  changes_within (λ _, False) w (web_ready w)
  /\ (is_Some (fs (web_ready w) !! resize_for_web.BACKUP_DIR)
      /\ forall q, q ∈ sorted (discovered resize_for_web.IMAGES_DIR w) ->
           is_Some (lookup_file (web_ready w) q)
           \/ is_Some (lookup_file (web_ready w) (backup_path q)))
  /\ resize_for_web.main w
     = (print (line_processed (length (discovered resize_for_web.IMAGES_DIR w)));;
        print (line_backed_up (dir_name w resize_for_web.BACKUP_DIR)))
         (for_each (sorted (discovered resize_for_web.IMAGES_DIR w))
                   resize_for_web.process_image (web_ready w)).2.
Proof.
  intros Hne.
  assert (forall q, lookup_file (web_ready w) q = lookup_file w q) as Hlk
    by (intros q; apply (lookup_file_ensure_dir resize_for_web.BACKUP_DIR); reflexivity).
  assert (is_Some (fs (web_ready w) !! resize_for_web.BACKUP_DIR)
          /\ forall q, q ∈ sorted (discovered resize_for_web.IMAGES_DIR w) ->
               is_Some (lookup_file (web_ready w) q)
               \/ is_Some (lookup_file (web_ready w) (backup_path q))) as HI.
  { split.
    - unfold web_ready. cbn [fs]. rewrite ensure_dir_lookup, decide_True by reflexivity. eauto.
    - intros p Hp. apply sorted_elem, discovered_elem in Hp as (_ & Hf & _).
      left. rewrite Hlk. exact Hf. }
  split; [|split; [exact HI|]].
  - split; cbn [web_ready here fs stdout fslog]; try reflexivity.
    + intros q _. apply Hlk.
    + apply prefix_app_r. reflexivity.
    + apply prefix_app_r. reflexivity.
  - rewrite web_main_run.
    destruct (fs w !! resize_for_web.IMAGES_DIR) as [files|] eqn:Hd.
    2: { exfalso. apply Hne. apply discovered_none. exact Hd. }
    destruct (discovered resize_for_web.IMAGES_DIR w) as [|p0 l0] eqn:Hl; [contradiction|].
    rewrite <- Hl in *. clear p0 l0 Hl.
    destruct (web_loop_spec (sorted (discovered resize_for_web.IMAGES_DIR w)) (web_ready w))
      as (Hok & _); [apply discovered_parent | apply HI | apply HI |].
    unfold mbind at 1, M_bind at 1.
    destruct (for_each _ _ (web_ready w)) as [[[]|e] w1]; cbn [fst snd] in *;
      [reflexivity | discriminate].
Qed.

(** The iteration for one file, set apart from the rest of a run. *)
Lemma web_main_at (w : world) (p : Path) :
  p ∈ discovered resize_for_web.IMAGES_DIR w ->
  exists w1,
    changes_within (other_files p) w w1
    /\ is_Some (fs w1 !! resize_for_web.BACKUP_DIR)
    /\ changes_within (other_files p)
         (resize_for_web.process_image p w1).2 (resize_for_web.main w).2.
Proof.
  intros Hp.
  destruct (web_main_loop w) as (Hw0 & HI0 & ->).
  { intros E. rewrite E in Hp. inversion Hp. }
  set (l := sorted (discovered resize_for_web.IMAGES_DIR w)) in *.
  assert (forall y, y ∈ l -> parent y = resize_for_web.IMAGES_DIR) as Hpar.
  { apply Forall_forall. apply discovered_parent. }
  destruct (for_each_at resize_for_web.process_image
              (λ w', is_Some (fs w' !! resize_for_web.BACKUP_DIR)
                     /\ forall q, q ∈ l -> is_Some (lookup_file w' q)
                                          \/ is_Some (lookup_file w' (backup_path q)))
              (other_files p) l p)
    with (w := web_ready w) as (w1 & HI & Hpre & _ & Hpost).
  - apply sorted_elem. exact Hp.
  - apply sorted_NoDup, discovered_NoDup.
  - intros y w' Hy HI.
    apply (web_process_image_keeps l); [apply discovered_parent | exact Hy | exact HI].
  - intros y w' Hy Hne _. eapply changes_within_mono; [|apply web_process_image_within].
    intros q [-> | ->]; split.
    + exact Hne.
    + apply backup_path_neq, Hpar, Hy.
    + intros E. symmetry in E. revert E. apply backup_path_neq, Hpar. apply sorted_elem. exact Hp.
    + intros E. injection E as E. apply Hne. apply path_eq; [|exact E].
      rewrite (Hpar y Hy), (Hpar p) by (apply sorted_elem; exact Hp). reflexivity.
  - exact HI0.
  - exists w1. split; [|split; [apply HI|]].
    + eapply changes_within_trans; [|exact Hpre].
      eapply changes_within_mono; [|exact Hw0]. contradiction.
    + eapply changes_within_trans; [exact Hpost|].
      unfold mbind, M_bind, print. cbn [fst snd].
      split; cbn [here fs stdout fslog]; try reflexivity.
      rewrite <- app_assoc. apply prefix_app_r. reflexivity.
Qed.

Lemma resizer_frame (w : world) (q : Path) :
  q ∉ discovered resize_for_web.IMAGES_DIR w ->
  (forall p, p ∈ discovered resize_for_web.IMAGES_DIR w -> q <> backup_path p) ->
  lookup_file (resize_for_web.main w).2 q = lookup_file w q.
Proof.
  intros Hq Hb.
  destruct (discovered resize_for_web.IMAGES_DIR w) as [|p0 l0] eqn:Hl.
  { rewrite web_main_run, Hl. destruct (fs w !! resize_for_web.IMAGES_DIR); reflexivity. }
  destruct (web_main_loop w) as (Hw0 & HI0 & ->); [rewrite Hl; discriminate|].
  rewrite <- Hl in *. clear p0 l0 Hl.
  set (l := sorted (discovered resize_for_web.IMAGES_DIR w)) in *.
  destruct (for_each_within resize_for_web.process_image
              (λ w', is_Some (fs w' !! resize_for_web.BACKUP_DIR)
                     /\ forall q, q ∈ l -> is_Some (lookup_file w' q)
                                          \/ is_Some (lookup_file w' (backup_path q)))
              (λ y, y ∈ l)
              (λ q', exists p, p ∈ l /\ (q' = p \/ q' = backup_path p)))
    with (l := l) (w := web_ready w) as (_ & _ & Hloop).
  - intros y w' Hy HI.
    destruct (web_process_image_keeps l y w' (discovered_parent _ w) Hy HI) as (K1 & K2 & K3).
    split; [exact K1|]. split; [split; assumption|].
    eapply changes_within_mono; [|apply web_process_image_within].
    intros q' Hq'. exists y. split; assumption.
  - apply Forall_forall. auto.
  - exact HI0.
  - change (lookup_file (for_each l resize_for_web.process_image (web_ready w)).2 q
            = lookup_file w q).
    rewrite (cw_files _ _ _ Hloop), (cw_files _ _ _ Hw0); [reflexivity | auto |].
    intros (p & Hp & [-> | ->]).
    + apply Hq. apply sorted_elem. exact Hp.
    + apply (Hb p); [apply sorted_elem; exact Hp | reflexivity].
Qed.

(** X16.  A run of the resizer leaves every file as it was, except the images
    it found and backups that did not exist, of images it found: files that
    are no JPEGs, thumbnails and the backups that exist are not touched. *)
Theorem resizer_writes_only_images_and_backups (w : world) (q : Path) :
  lookup_file (resize_for_web.main w).2 q = lookup_file w q
  \/ q ∈ discovered resize_for_web.IMAGES_DIR w
  \/ (lookup_file w q = None
      /\ exists p, p ∈ discovered resize_for_web.IMAGES_DIR w /\ q = backup_path p).
Proof.
  destruct (decide (q ∈ discovered resize_for_web.IMAGES_DIR w)) as [Hin | Hout]; [auto|].
  destruct (decide (q ∈ backup_path <$> discovered resize_for_web.IMAGES_DIR w))
    as [Hb | Hb].
  - apply list_elem_of_fmap in Hb as (p & -> & Hp).
    destruct (lookup_file w (backup_path p)) as [b|] eqn:Hq; [left | right; right; eauto].
    destruct (web_main_spec w) as (_ & _ & Hkeep & _). apply Hkeep. exact Hq.
  - left. apply resizer_frame; [exact Hout|]. intros p Hp ->. apply Hb.
    apply list_elem_of_fmap. eauto.
Qed.

(** The resizer on an image that fails before anything is saved. *)
Lemma resize_for_web_unsaved (image_path : Path) (max_dimension quality : Z) (w : world)
    (e : string) :
  upright w image_path = Raise e
  \/ (exists img new_size,
        upright w image_path = Ok (Some img)
        /\ max_dimension < Z.max (img_width img) (img_height img)
        /\ resize_for_web.new_dimensions (img_width img) (img_height img) max_dimension
           = Ok new_size
        /\ resize img new_size = Raise e) ->
  resize_for_web.resize_for_web image_path max_dimension quality w
  = print (line_error (name image_path) e) w.
Proof.
  unfold resize_for_web.resize_for_web, try_except. rewrite resize_for_web_body_run.
  intros [-> | (img & new_size & -> & Hmax & Hdim & Hr)]; [reflexivity|].
  unfold resize_upright. rewrite (proj2 (Z.leb_gt _ _)) by lia.
  unfold mbind, M_bind, lift. rewrite Hdim, Hr. reflexivity.
Qed.

(** One iteration of the resizer's loop on [p], from a state that agrees with
    [w] on [p] and its backup: the state [w2] in which [resize_for_web]
    starts. *)
Lemma web_iteration (w w1 : world) (p : Path) :
  p ∈ discovered resize_for_web.IMAGES_DIR w ->
  changes_within (other_files p) w w1 ->
  is_Some (fs w1 !! resize_for_web.BACKUP_DIR) ->
  exists w2,
    resize_for_web.process_image p w1
    = (resize_for_web.resize_for_web p resize_for_web.MAX_DIMENSION resize_for_web.QUALITY;;
       print "") w2
    /\ here w2 = here w
    /\ lookup_file w2 p = lookup_file w p
    /\ stdout w `prefix_of` stdout w2
    /\ fslog w `prefix_of` fslog w2.
Proof.
  intros Hp Hpre Hdir.
  assert (~ other_files p p) as Hnp by (intros [G _]; auto).
  pose proof Hp as Hp'. apply discovered_elem in Hp' as (Hpar & Hf & _).
  destruct (backup_step p w1 Hpar Hdir) as (w2 & Hrun & Hfr & _).
  { left. rewrite (cw_files _ _ _ Hpre _ Hnp). exact Hf. }
  exists w2. split; [exact Hrun|]. split; [|split; [|split]].
  - rewrite (to_here _ _ _ Hfr). apply (cw_here _ _ _ Hpre).
  - rewrite (to_files _ _ _ Hfr) by (apply backup_path_neq; exact Hpar).
    apply (cw_files _ _ _ Hpre _ Hnp).
  - etrans; [apply (cw_stdout _ _ _ Hpre) | apply (to_stdout _ _ _ Hfr)].
  - etrans; [apply (cw_fslog _ _ _ Hpre) | apply (to_fslog _ _ _ Hfr)].
Qed.

(** X17.  An image found that cannot be opened, decoded or put upright, or
    whose resizing raises, is after the run byte for byte what it was, and
    the error line for it has been printed. *)
Theorem failed_image_left_untouched (w : world) (p : Path) (e : string) :
  p ∈ discovered resize_for_web.IMAGES_DIR w ->
  upright w p = Raise e
  \/ (exists img new_size,
        upright w p = Ok (Some img)
        /\ resize_for_web.MAX_DIMENSION < Z.max (img_width img) (img_height img)
        /\ resize_for_web.new_dimensions (img_width img) (img_height img)
             resize_for_web.MAX_DIMENSION = Ok new_size
        /\ resize img new_size = Raise e) ->
  lookup_file (resize_for_web.main w).2 p = lookup_file w p
  /\ exists out,
       stdout (resize_for_web.main w).2 = stdout w ++ out
       /\ line_error (name p) e ∈ out.
Proof.
  intros Hp Hfail. destruct (web_main_at w p Hp) as (w1 & Hpre & Hdir & Hpost).
  destruct (web_iteration w w1 p Hp Hpre Hdir) as (w2 & Hrun & Hh & Hf & Ho & _).
  assert (~ other_files p p) as Hnp by (intros [G _]; auto).
  rewrite (cw_files _ _ _ Hpost _ Hnp).
  pose proof (cw_stdout _ _ _ Hpost) as Hout. rewrite Hrun in Hout |- *.
  unfold mbind, M_bind in Hout |- *.
  rewrite (resize_for_web_unsaved p _ _ w2 e) in Hout |- *
    by (rewrite (upright_ext w w2 p Hh Hf); exact Hfail).
  cbn [print fst snd stdout] in Hout |- *. split; [exact Hf|].
  destruct Ho as [a Ha]. rewrite Ha in Hout. destruct Hout as [b ->].
  exists (a ++ [line_error (name p) e] ++ [""%string] ++ b). split.
  - rewrite <- !app_assoc. reflexivity.
  - rewrite !elem_of_app. right. left. left.
Qed.

(** The resizer on an image that is saved: the file is the encoder's output. *)
Lemma resize_for_web_written (image_path : Path) (max_dimension quality : Z) (w : world)
    (data : list Byte.byte) (img saved : image pixels) (encoded : list Byte.byte) :
  lookup_file w image_path = Some data ->
  upright w image_path = Ok (Some img) ->
  (Z.max (img_width img) (img_height img) <= max_dimension /\ saved = img)
  \/ (max_dimension < Z.max (img_width img) (img_height img)
      /\ exists new_size,
           resize_for_web.new_dimensions (img_width img) (img_height img) max_dimension
             = Ok new_size
           /\ resize img new_size = Ok saved) ->
  encode (SaveRequest saved quality true (Some [])) (Some data) = Written encoded ->
  lookup_file (resize_for_web.resize_for_web image_path max_dimension quality w).2 image_path
  = Some encoded.
Proof.
  intros Hf Hup Hsaved Henc.
  destruct (lookup_file_Some w image_path data Hf) as (files & Hd & Hn).
  destruct (save_written saved image_path quality true (Some []) w files encoded)
    as (S1 & S2 & _); [exact Hd | rewrite Hn; exact Henc |].
  unfold resize_for_web.resize_for_web, try_except. rewrite resize_for_web_body_run, Hup.
  unfold resize_upright.
  destruct Hsaved as [[Hmax ->] | (Hmax & new_size & Hdim & Hr)].
  - rewrite (proj2 (Z.leb_le _ _)) by lia. unfold mbind, M_bind.
    destruct (save _ _ _ _ _ w) as [[[]|e] w1]; cbn [fst snd] in *; [exact S2 | discriminate].
  - rewrite (proj2 (Z.leb_gt _ _)) by lia. unfold mbind, M_bind, lift. rewrite Hdim, Hr.
    destruct (save _ _ _ _ _ w) as [[[]|e] w1]; cbn [fst snd] in *; [exact S2 | discriminate].
Qed.

(** X18.  An image found that is put upright, resized if its longest side
    exceeds 3000, and encoded at quality 80 without error, is after the run
    the encoder's output: the resizer overwrites it in place, whether or not
    it had a backup already, so that every run re-encodes every image. *)
Theorem image_overwritten_in_place (w : world) (p : Path) (data : list Byte.byte)
    (img saved : image pixels) (encoded : list Byte.byte) :
  p ∈ discovered resize_for_web.IMAGES_DIR w ->
  lookup_file w p = Some data ->
  upright w p = Ok (Some img) ->
  (Z.max (img_width img) (img_height img) <= resize_for_web.MAX_DIMENSION /\ saved = img)
  \/ (resize_for_web.MAX_DIMENSION < Z.max (img_width img) (img_height img)
      /\ exists new_size,
           resize_for_web.new_dimensions (img_width img) (img_height img)
             resize_for_web.MAX_DIMENSION = Ok new_size
           /\ resize img new_size = Ok saved) ->
  encode (SaveRequest saved resize_for_web.QUALITY true (Some [])) (Some data)
    = Written encoded ->
  lookup_file (resize_for_web.main w).2 p = Some encoded.
Proof.
  intros Hp Hf Hup Hsaved Henc.
  destruct (web_main_at w p Hp) as (w1 & Hpre & Hdir & Hpost).
  destruct (web_iteration w w1 p Hp Hpre Hdir) as (w2 & Hrun & Hh & Hf2 & _).
  assert (~ other_files p p) as Hnp by (intros [G _]; auto).
  rewrite (cw_files _ _ _ Hpost _ Hnp), Hrun. unfold mbind, M_bind.
  pose proof (resize_for_web_written p resize_for_web.MAX_DIMENSION resize_for_web.QUALITY
                w2 data img saved encoded) as Hw.
  rewrite Hf2, (upright_ext w w2 p Hh Hf2) in Hw. specialize (Hw Hf Hup Hsaved Henc).
  destruct (resize_for_web.resize_for_web p _ _ w2) as [[[]|e] w3]; exact Hw.
Qed.

Lemma save_trace (img : image pixels) (p : Path) (quality : Z) (optimize : bool)
    (exif : option (list Byte.byte)) (w : world) :
  stdout (save img p quality optimize exif w).2 = stdout w
  /\ (fslog (save img p quality optimize exif w).2 = fslog w
      \/ fslog (save img p quality optimize exif w).2
         = fslog w ++ [SaveCall p (SaveRequest img quality optimize exif)]).
Proof. split; [apply save_stdout | apply save_fslog]. Qed.

(** What [resize_for_web] prints and asks of the file system. *)
Lemma resize_for_web_trace (image_path : Path) (max_dimension quality : Z) (w : world) :
  exists lines saves,
    stdout (resize_for_web.resize_for_web image_path max_dimension quality w).2
      = stdout w ++ lines
    /\ web_lines (name image_path) lines
    /\ fslog (resize_for_web.resize_for_web image_path max_dimension quality w).2
       = fslog w ++ saves
    /\ (saves = []
        \/ exists saved,
             saves = [SaveCall image_path (SaveRequest saved quality true (Some []))]).
Proof.
  unfold resize_for_web.resize_for_web, try_except. rewrite resize_for_web_body_run.
  unfold web_lines.
  assert (forall (saved : image pixels) (l1 l2 : string),
            web_lines (name image_path) [l1; l2] ->
            exists lines saves,
              stdout (match (save saved image_path quality true (Some []);;
                             print l1;; print l2) w with
                      | (Ok a, w') => (Ok a, w')
                      | (Raise e, w') => print (line_error (name image_path) e) w'
                      end).2 = stdout w ++ lines
              /\ web_lines (name image_path) lines
              /\ fslog (match (save saved image_path quality true (Some []);;
                               print l1;; print l2) w with
                        | (Ok a, w') => (Ok a, w')
                        | (Raise e, w') => print (line_error (name image_path) e) w'
                        end).2 = fslog w ++ saves
              /\ (saves = []
                  \/ exists saved',
                       saves = [SaveCall image_path
                                  (SaveRequest saved' quality true (Some []))])) as Hsave.
  { intros saved l1 l2 Hl. unfold mbind, M_bind.
    destruct (save_trace saved image_path quality true (Some []) w) as [Ho Hl'].
    destruct (save _ _ _ _ _ w) as [[[]|e] w1]; cbn [fst snd print stdout fslog] in *.
    - exists [l1; l2]. destruct Hl' as [Hlog | Hlog].
      + exists []. rewrite Ho, Hlog, <- app_assoc, app_nil_r. eauto.
      + eexists. rewrite Ho, Hlog, <- app_assoc. eauto 10.
    - exists [line_error (name image_path) e]. destruct Hl' as [Hlog | Hlog].
      + exists []. rewrite Ho, Hlog, app_nil_r. unfold web_lines. eauto 10.
      + eexists. rewrite Ho, Hlog. unfold web_lines. eauto 10. }
  destruct (upright w image_path) as [[img|]|e].
  - unfold resize_upright. destruct (_ <=? _).
    + apply Hsave. left. eauto.
    + destruct (resize_for_web.new_dimensions _ _ _) as [new_size|e].
      2: { rewrite bind_lift_raise.
           exists [line_error (name image_path) e], []. cbn [print snd stdout fslog].
           rewrite app_nil_r. split; [reflexivity|]. split; [do 3 right; eexists; reflexivity|].
           split; [reflexivity | left; reflexivity]. }
      rewrite bind_lift_ok. destruct (resize img new_size) as [resized|e].
      2: { rewrite bind_lift_raise.
           exists [line_error (name image_path) e], []. cbn [print snd stdout fslog].
           rewrite app_nil_r. split; [reflexivity|]. split; [do 3 right; eexists; reflexivity|].
           split; [reflexivity | left; reflexivity]. }
      rewrite bind_lift_ok. apply Hsave. right. left. eauto 10.
  - exists [line_no_orientation (name image_path)], []. cbn [print snd stdout fslog].
    rewrite app_nil_r. split; [reflexivity|]. split; [do 2 right; left; reflexivity|].
    split; [reflexivity | left; reflexivity].
  - exists [line_error (name image_path) e], []. cbn [print snd stdout fslog].
    rewrite app_nil_r. split; [reflexivity|]. split; [do 3 right; eexists; reflexivity|].
    split; [reflexivity | left; reflexivity].
Qed.

Lemma backup_step_trace (p : Path) (w : world) :
  is_Some (fs w !! resize_for_web.BACKUP_DIR) ->
  is_Some (lookup_file w p) \/ is_Some (lookup_file w (backup_path p)) ->
  exists w1 copies,
    resize_for_web.process_image p w
      = (resize_for_web.resize_for_web p resize_for_web.MAX_DIMENSION resize_for_web.QUALITY;;
         print "") w1
    /\ stdout w1 = stdout w
    /\ fslog w1 = fslog w ++ copies
    /\ copies = match lookup_file w (backup_path p) with
                | Some _ => []
                | None => [CopyFile p (backup_path p)]
                end.
Proof.
  intros Hdir Hsrc. unfold resize_for_web.process_image.
  unfold mbind at 1 2. unfold M_bind at 1 2. unfold path_exists. cbn [fst snd].
  fold (backup_path p).
  destruct (lookup_file w (backup_path p)) as [b|] eqn:Hb.
  - rewrite bool_decide_eq_true_2 by eauto. exists w, []. cbn.
    rewrite app_nil_r. auto.
  - rewrite bool_decide_eq_false_2 by (intros [? ?]; discriminate).
    destruct Hsrc as [[data Hdata] | [? ?]]; [|discriminate].
    destruct Hdir as [files Hd]. unfold copy2. rewrite Hdata. cbn [parent backup_path].
    rewrite Hd. eexists _, [CopyFile p (backup_path p)]. cbn [fst snd].
    split; [reflexivity|]. split; [reflexivity|]. split; reflexivity.
Qed.

Lemma web_process_image_trace (p : Path) (w : world) :
  is_Some (fs w !! resize_for_web.BACKUP_DIR) ->
  is_Some (lookup_file w p) \/ is_Some (lookup_file w (backup_path p)) ->
  exists lines calls,
    stdout (resize_for_web.process_image p w).2 = stdout w ++ lines ++ [""%string]
    /\ web_lines (name p) lines
    /\ fslog (resize_for_web.process_image p w).2 = fslog w ++ calls
    /\ web_calls w resize_for_web.QUALITY p calls.
Proof.
  intros Hdir Hsrc.
  destruct (backup_step_trace p w Hdir Hsrc) as (w1 & copies & -> & Ho & Hl & Hc).
  destruct (resize_for_web_trace p resize_for_web.MAX_DIMENSION resize_for_web.QUALITY w1)
    as (lines & saves & Ho' & Hlines & Hl' & Hs).
  pose proof (resize_for_web_returns p resize_for_web.MAX_DIMENSION
                resize_for_web.QUALITY w1) as Hok.
  unfold mbind, M_bind.
  destruct (resize_for_web.resize_for_web p _ _ w1) as [[[]|e] w2]; cbn [fst snd] in *;
    [|discriminate].
  exists lines, (copies ++ saves). cbn [print snd stdout fslog].
  rewrite Ho', Ho, Hl', Hl, <- !app_assoc.
  split; [reflexivity|]. split; [exact Hlines|]. split; [reflexivity|].
  exists copies, saves. auto.
Qed.

Lemma web_calls_ext (w w' : world) (quality : Z) (p : Path) (calls : list fs_event) :
  lookup_file w' (backup_path p) = lookup_file w (backup_path p) ->
  web_calls w' quality p calls -> web_calls w quality p calls.
Proof. unfold web_calls. intros ->. auto. Qed.

Lemma web_loop_trace (w0 : world) (l : list Path) :
  Forall (λ p, parent p = resize_for_web.IMAGES_DIR) l ->
  forall k, k ⊆ l -> NoDup k -> forall w : world,
  is_Some (fs w !! resize_for_web.BACKUP_DIR)
  /\ (forall q, q ∈ l -> is_Some (lookup_file w q) \/ is_Some (lookup_file w (backup_path q))) ->
  (forall q, q ∈ k -> lookup_file w (backup_path q) = lookup_file w0 (backup_path q)) ->
  exists blocks calls,
    stdout (for_each k resize_for_web.process_image w).2 = stdout w ++ concat blocks
    /\ Forall2 (λ p block, exists lines, block = lines ++ [""%string]
                                         /\ web_lines (name p) lines) k blocks
    /\ fslog (for_each k resize_for_web.process_image w).2 = fslog w ++ concat calls
    /\ Forall2 (web_calls w0 resize_for_web.QUALITY) k calls.
Proof.
  intros Hpar. induction k as [|p k IH]; intros Hk Hnd w HI Hsame.
  - exists [], []. cbn. rewrite !app_nil_r. auto.
  - assert (p ∈ l) as Hp by (apply Hk; left).
    apply NoDup_cons in Hnd as [Hpk Hnd].
    destruct (web_process_image_keeps l p w Hpar Hp HI) as (Hok & K2 & K3).
    destruct (web_process_image_trace p w (proj1 HI) (proj2 HI p Hp))
      as (lines & cs & Ho & Hlines & Hl & Hcs).
    pose proof (web_process_image_within p w) as Hin.
    cbn [for_each]. unfold mbind, M_bind.
    destruct (resize_for_web.process_image p w) as [[[]|e] w1]; cbn [fst snd] in *;
      [|discriminate].
    destruct (IH (λ x Hx, Hk x (list_elem_of_further _ _ _ Hx)) Hnd w1 (conj K2 K3))
      as (blocks & calls & Ho' & Hb & Hl' & Hc).
    { intros q Hq. rewrite <- (Hsame q) by (right; exact Hq).
      rewrite Forall_forall in Hpar.
      apply (cw_files _ _ _ Hin). intros [E | E].
      - symmetry in E. revert E. apply backup_path_neq, Hpar, Hp.
      - injection E as E. apply Hpk.
        replace p with q; [exact Hq|]. apply path_eq; [|exact E].
        rewrite (Hpar q), (Hpar p); auto. apply Hk. right. exact Hq. }
    exists ((lines ++ [""%string]) :: blocks), (cs :: calls). cbn [concat].
    rewrite Ho', Ho, Hl', Hl, <- !app_assoc.
    split; [reflexivity|]. split; [constructor; eauto|]. split; [reflexivity|].
    constructor; [|assumption].
    apply (web_calls_ext w0 w); [|exact Hcs]. apply Hsame. left.
Qed.

Lemma web_main_trace (w : world) :
  discovered resize_for_web.IMAGES_DIR w <> [] ->
  exists blocks calls,
    stdout (resize_for_web.main w).2
    = stdout w
      ++ [line_found (length (discovered resize_for_web.IMAGES_DIR w));
          line_settings resize_for_web.MAX_DIMENSION resize_for_web.QUALITY;
          line_creating_backup (dir_name w resize_for_web.BACKUP_DIR)]
      ++ concat blocks
      ++ [line_processed (length (discovered resize_for_web.IMAGES_DIR w));
          line_backed_up (dir_name w resize_for_web.BACKUP_DIR)]
    /\ Forall2 (λ p block, exists lines, block = lines ++ [""%string]
                                         /\ web_lines (name p) lines)
         (sorted (discovered resize_for_web.IMAGES_DIR w)) blocks
    /\ fslog (resize_for_web.main w).2
       = fslog w ++ mkdir_events resize_for_web.BACKUP_DIR (fs w) ++ concat calls
    /\ Forall2 (web_calls w resize_for_web.QUALITY)
         (sorted (discovered resize_for_web.IMAGES_DIR w)) calls.
Proof.
  intros Hne. destruct (web_main_loop w Hne) as (Hw0 & HI & ->).
  destruct (web_loop_trace w _ (discovered_parent _ w)
              (sorted (discovered resize_for_web.IMAGES_DIR w)))
    with (w := web_ready w) as (blocks & calls & Ho & Hb & Hl & Hc).
  - reflexivity.
  - apply sorted_NoDup, discovered_NoDup.
  - exact HI.
  - intros q _. apply (cw_files _ _ _ Hw0). auto.
  - exists blocks, calls. unfold mbind, M_bind, print. cbn [fst snd stdout fslog].
    rewrite Ho, Hl. unfold web_ready. cbn [stdout fslog]. rewrite <- !app_assoc. auto.
Qed.

(** X19.  When there are images, the resizer prints three opening lines with
    the number of images found, then for each image in ascending order of the
    names its report (optimized with the size, resized with the old and new
    dimensions, or an error) followed by an empty line, then the number of
    images found again, whatever failed, and the backup directory. *)
Theorem resizer_output (w : world) :
  discovered resize_for_web.IMAGES_DIR w <> [] ->
  exists blocks,
    stdout (resize_for_web.main w).2
    = stdout w
      ++ [line_found (length (discovered resize_for_web.IMAGES_DIR w));
          line_settings resize_for_web.MAX_DIMENSION resize_for_web.QUALITY;
          line_creating_backup (dir_name w resize_for_web.BACKUP_DIR)]
      ++ concat blocks
      ++ [line_processed (length (discovered resize_for_web.IMAGES_DIR w));
          line_backed_up (dir_name w resize_for_web.BACKUP_DIR)]
    /\ Forall2 (λ p block, exists lines, block = lines ++ [""%string]
                                         /\ web_lines (name p) lines)
         (sorted (discovered resize_for_web.IMAGES_DIR w)) blocks
    /\ Sorted path_le (sorted (discovered resize_for_web.IMAGES_DIR w))
    /\ sorted (discovered resize_for_web.IMAGES_DIR w)
       ≡ₚ discovered resize_for_web.IMAGES_DIR w.
Proof.
  intros Hne. destruct (web_main_trace w Hne) as (blocks & calls & Ho & Hb & _).
  exists blocks. split; [exact Ho|]. split; [exact Hb|]. split.
  - apply Sorted_merge_sort. apply _.
  - apply merge_sort_Permutation.
Qed.

(** X20.  The file-system calls of a run of the resizer that finds images are
    the creation of the backup directory if it is missing, and then, for each
    image in the order of the names, a copy to its backup exactly if it had
    none before the run, followed by nothing or one save of the image itself
    at quality 80 with optimisation and an empty EXIF block. *)
Theorem resizer_calls (w : world) :
  discovered resize_for_web.IMAGES_DIR w <> [] ->
  exists calls,
    fslog (resize_for_web.main w).2
    = fslog w ++ mkdir_events resize_for_web.BACKUP_DIR (fs w) ++ concat calls
    /\ Forall2 (web_calls w resize_for_web.QUALITY)
         (sorted (discovered resize_for_web.IMAGES_DIR w)) calls.
Proof.
  intros Hne. destruct (web_main_trace w Hne) as (blocks & calls & _ & _ & Hl & Hc).
  exists calls. auto.
Qed.

(** The calls of the generator's loop. *)
Lemma thumbs_loop_calls (w0 : world) (l : list Path) :
  forall w : world,
  (forall q, q ∈ l -> lookup_file w q = lookup_file w0 q) ->
  Forall (λ p, parent p = generate_thumbs.IMAGES_DIR) l ->
  exists calls,
    fslog (for_each l generate_thumbs.process_image w).2 = fslog w ++ concat calls
    /\ Forall2 (thumb_calls w0 generate_thumbs.THUMBNAIL_HEIGHT) l calls.
Proof.
  induction l as [|p l IH]; intros w Hsame Hpar.
  - exists []. cbn. rewrite app_nil_r. auto.
  - apply Forall_cons in Hpar as [Hp Hpar].
    destruct (thumb_process_image_spec p w) as (Hok & Hfr & _).
    assert (exists cs, fslog (generate_thumbs.process_image p w).2 = fslog w ++ cs
                       /\ thumb_calls w0 generate_thumbs.THUMBNAIL_HEIGHT p cs) as (cs & Hl & Hcs).
    { destruct (lookup_file w (thumb_path p)) as [t|] eqn:Ht.
      - rewrite process_image_skips by (unfold thumb_path in Ht; rewrite Ht; eauto).
        exists []. cbn. rewrite app_nil_r. split; [reflexivity | left; reflexivity].
      - rewrite process_image_generates by exact Ht.
        destruct (generate_thumbnail_saves p (thumb_path p) generate_thumbs.THUMBNAIL_HEIGHT w)
          as [Hlog | (data & img & nw & resized & Hf & Hdec & Hn & Hr & Hlog)].
        + exists []. rewrite app_nil_r. split; [exact Hlog | left; reflexivity].
        + eexists. split; [exact Hlog|]. right. exists data, img, nw, resized.
          rewrite <- (Hsame p) by left. auto. }
    cbn [for_each]. unfold mbind, M_bind.
    destruct (generate_thumbs.process_image p w) as [[[]|e] w1]; cbn [fst snd] in *;
      [|discriminate].
    destruct (IH w1) as (calls & Hl' & Hc); [|exact Hpar|].
    { intros q Hq. rewrite <- (Hsame q) by (right; exact Hq).
      apply (to_files _ _ _ Hfr). intros E. rewrite Forall_forall in Hpar.
      apply Hpar in Hq. rewrite E in Hq. discriminate. }
    exists (cs :: calls). cbn [concat]. rewrite Hl', Hl, <- app_assoc.
    split; [reflexivity | constructor; assumption].
Qed.

(** X7.  The file-system calls of a run of the generator are the creation of
    the two directories where they are missing, and then, for each image in
    the order of the names, nothing or one save to [thumbs/name] of the source
    resized to the computed width and the height 250, at quality 85 with
    optimisation and without an EXIF argument. *)
Theorem generator_calls (w : world) :
  exists calls,
    fslog (generate_thumbs.main w).2
    = fslog w ++ mkdir_events generate_thumbs.IMAGES_DIR (fs w)
              ++ mkdir_events generate_thumbs.THUMBS_DIR
                   (ensure_dir generate_thumbs.IMAGES_DIR (fs w))
              ++ concat calls
    /\ Forall2 (thumb_calls w generate_thumbs.THUMBNAIL_HEIGHT)
         (sorted (discovered generate_thumbs.IMAGES_DIR w)) calls.
Proof.
  destruct (discovered generate_thumbs.IMAGES_DIR w) as [|p0 l0] eqn:Hl.
  { exists []. rewrite thumbs_main_run, Hl. cbn [print snd fslog thumbs_ready concat].
    rewrite app_nil_r. split; [reflexivity | constructor]. }
  destruct (thumbs_main_loop w) as (w0 & Hw0 & _ & _ & Hlog0 & ->);
    [rewrite Hl; discriminate|].
  rewrite <- Hl. clear p0 l0 Hl.
  destruct (thumbs_loop_calls w (sorted (discovered generate_thumbs.IMAGES_DIR w)) w0)
    as (calls & Hl & Hc).
  - intros q _. apply (cw_files _ _ _ Hw0). auto.
  - apply discovered_parent.
  - exists calls. split; [|exact Hc]. cbn [print snd fslog].
    rewrite Hl, Hlog0, <- !app_assoc. reflexivity.
Qed.

(** ** Sizes *)

(** X13.  For a square image the floating-point computation is exact: the
    thumbnail is 250 pixels wide, and the resizer's new dimensions are 3000
    by 3000. *)
Theorem square_images_stay_square (side : Z) :
  0 < side < 2 ^ 53 ->
  int_times_ratio generate_thumbs.THUMBNAIL_HEIGHT side side
    = Ok generate_thumbs.THUMBNAIL_HEIGHT
  /\ resize_for_web.new_dimensions side side resize_for_web.MAX_DIMENSION
     = Ok (resize_for_web.MAX_DIMENSION, resize_for_web.MAX_DIMENSION).
Proof.
  intros Hs. unfold int_times_ratio, resize_for_web.new_dimensions, ratio_times_int.
  rewrite Z.ltb_irrefl, (int_truediv_same side Hs). split; reflexivity.
Qed.

(** X14.  When the resizer resizes, that is when the longest side exceeds
    3000, both new dimensions are smaller than the old ones; a landscape
    image stays at least as wide as high, a portrait or square one at least
    as high as wide. *)
Theorem resizer_only_shrinks (width height : Z) :
  0 < width < 2 ^ 31 -> 0 < height < 2 ^ 31 ->
  resize_for_web.MAX_DIMENSION < Z.max width height ->
  exists new_width new_height,
    resize_for_web.new_dimensions width height resize_for_web.MAX_DIMENSION
      = Ok (new_width, new_height)
    /\ 0 <= new_width < width /\ 0 <= new_height < height
    /\ (height < width -> new_height <= new_width)
    /\ (width <= height -> new_width <= new_height).
Proof.
  intros Hw Hh Hmax. unfold resize_for_web.MAX_DIMENSION in *.
  destruct (new_dimensions_spec width height 3000) as (short & _ & -> & Hb & Hs);
    [change (2 ^ 12) with 4096; lia | assumption | assumption |].
  destruct (Z.ltb_spec height width) as [Hlt | Hge].
  - rewrite Z.min_r, Z.max_l in * by lia. exists 3000, short. split; [reflexivity|]. nia.
  - rewrite Z.min_l, Z.max_r in * by lia. exists short, 3000. split; [reflexivity|]. nia.
Qed.

(** X15.  For an upright image whose shorter side is less than a 3000th of
    its longer side the computed shorter side is 0, and the resizer passes
    the size with the zero to [resize] without looking at it; if [resize]
    raises, the handler prints the error line and nothing is saved. *)
Theorem elongated_image_gets_zero_side (w : world) (image_path : Path) (img : image pixels) :
  upright w image_path = Ok (Some img) ->
  0 <= img_width img < 2 ^ 31 ->
  0 <= img_height img < 2 ^ 31 ->
  resize_for_web.MAX_DIMENSION < Z.max (img_width img) (img_height img) ->
  resize_for_web.MAX_DIMENSION * Z.min (img_width img) (img_height img)
    < Z.max (img_width img) (img_height img) ->
  let new_size := if img_height img <? img_width img
                  then (resize_for_web.MAX_DIMENSION, 0)
                  else (0, resize_for_web.MAX_DIMENSION) in
  resize_for_web.new_dimensions (img_width img) (img_height img)
    resize_for_web.MAX_DIMENSION = Ok new_size
  /\ resize_for_web.resize_for_web image_path resize_for_web.MAX_DIMENSION
       resize_for_web.QUALITY w
     = match resize img new_size with
       | Raise e => print (line_error (name image_path) e) w
       | Ok resized =>
           try_except
             (save resized image_path resize_for_web.QUALITY true (Some []);;
              print (line_resized (name image_path));;
              print (line_dimensions (img_width img) (img_height img)
                       new_size.1 new_size.2))
             (λ e, print (line_error (name image_path) e)) w
       end.
Proof.
  intros Hup Hw Hh Hmax Hthin. cbv zeta.
  assert (resize_for_web.new_dimensions (img_width img) (img_height img)
            resize_for_web.MAX_DIMENSION
          = Ok (if img_height img <? img_width img
                then (resize_for_web.MAX_DIMENSION, 0)
                else (0, resize_for_web.MAX_DIMENSION))) as Hdim.
  { unfold resize_for_web.new_dimensions, resize_for_web.MAX_DIMENSION in *.
    destruct (Z.ltb_spec (img_height img) (img_width img)) as [Hlt | Hge].
    - rewrite Z.min_r, Z.max_l in * by lia.
      destruct (ratio_times_int_bounds (img_height img) (img_width img) 3000)
        as (n & -> & Hn & Hn0); [change (2 ^ 12) with 4096; lia | lia | lia |].
      assert (n = 0) as -> by nia. reflexivity.
    - rewrite Z.min_l, Z.max_r in * by lia.
      destruct (ratio_times_int_bounds (img_width img) (img_height img) 3000)
        as (n & -> & Hn & Hn0); [change (2 ^ 12) with 4096; lia | lia | lia |].
      assert (n = 0) as -> by nia. reflexivity. }
  split; [exact Hdim|].
  unfold resize_for_web.resize_for_web. unfold try_except at 1.
  rewrite resize_for_web_body_run, Hup. unfold resize_upright.
  rewrite (proj2 (Z.leb_gt _ _)) by lia. rewrite Hdim, bind_lift_ok.
  destruct (resize img _) as [resized|e]; [rewrite bind_lift_ok | rewrite bind_lift_raise];
    reflexivity.
Qed.

(** ** Directories, second runs, orientation *)

Lemma thumbs_loop_dirs (l : list Path) :
  forall (w : world) (d : string),
  is_Some (fs (for_each l generate_thumbs.process_image w).2 !! d) <-> is_Some (fs w !! d).
Proof.
  induction l as [|p l IH]; intros w d; [reflexivity|].
  cbn [for_each]. unfold mbind, M_bind.
  destruct (thumb_process_image_spec p w) as (Hok & Hfr & _).
  destruct (generate_thumbs.process_image p w) as [[[]|e] w1]; cbn [fst snd] in *;
    [|discriminate].
  rewrite IH. apply (to_dirs _ _ _ Hfr).
Qed.

Lemma ensure_dir_is_Some (d d' : string) (dirs : gmap string (gmap string (list Byte.byte))) :
  is_Some (ensure_dir d dirs !! d') <-> is_Some (dirs !! d') \/ d' = d.
Proof.
  rewrite ensure_dir_lookup. destruct (decide (d = d')) as [<- | Hne].
  - split; [auto | eauto].
  - split; [auto | intros [G | ->]; [exact G | contradiction]].
Qed.

Lemma web_loop_dirs (l : list Path) :
  Forall (λ p, parent p = resize_for_web.IMAGES_DIR) l ->
  forall k, k ⊆ l -> forall (w : world) (d : string),
  is_Some (fs w !! resize_for_web.BACKUP_DIR)
  /\ (forall q, q ∈ l -> is_Some (lookup_file w q) \/ is_Some (lookup_file w (backup_path q))) ->
  is_Some (fs (for_each k resize_for_web.process_image w).2 !! d) <-> is_Some (fs w !! d).
Proof.
  intros Hpar. induction k as [|p k IH]; intros Hk w d HI; [reflexivity|].
  assert (p ∈ l) as Hp by (apply Hk; left).
  destruct (web_process_image_keeps l p w Hpar Hp HI) as (Hok & K2 & K3).
  rewrite Forall_forall in Hpar.
  destruct (web_process_image_spec p w (Hpar p Hp) (proj1 HI) (proj2 HI p Hp))
    as (_ & _ & _ & Hdirs & _).
  cbn [for_each]. unfold mbind, M_bind.
  destruct (resize_for_web.process_image p w) as [[[]|e] w1]; cbn [fst snd] in *;
    [|discriminate].
  rewrite IH; [apply Hdirs | | split; assumption].
  intros x Hx. apply Hk. right. exact Hx.
Qed.

(** X21.  After a run of the generator the directories are those there were
    and [images] and [thumbs]; after a run of the resizer they are those there
    were and, exactly if images were found, [images_backup].  No directory is
    removed. *)
Theorem directories_after_a_run (w : world) (d : string) :
  (is_Some (fs (generate_thumbs.main w).2 !! d)
   <-> is_Some (fs w !! d) \/ d = generate_thumbs.IMAGES_DIR \/ d = generate_thumbs.THUMBS_DIR)
  /\ (is_Some (fs (resize_for_web.main w).2 !! d)
      <-> is_Some (fs w !! d)
          \/ (d = resize_for_web.BACKUP_DIR /\ discovered resize_for_web.IMAGES_DIR w <> [])).
Proof.
  split.
  - assert (is_Some (fs (generate_thumbs.main w).2 !! d)
            <-> is_Some (fs (thumbs_ready w) !! d)) as ->.
    { destruct (discovered generate_thumbs.IMAGES_DIR w) as [|p0 l0] eqn:Hl.
      - rewrite thumbs_main_run, Hl. reflexivity.
      - rewrite thumbs_main_run, Hl. rewrite <- Hl. unfold mbind at 1 2, M_bind at 1 2.
        cbn [print fst snd].
        pose proof (thumbs_loop_spec (sorted (discovered generate_thumbs.IMAGES_DIR w))
                      (World (here (thumbs_ready w)) (fs (thumbs_ready w))
                         (stdout (thumbs_ready w)
                          ++ [line_found_nl (length (discovered generate_thumbs.IMAGES_DIR w))])
                         (fslog (thumbs_ready w)))) as [Hok _].
        pose proof (thumbs_loop_dirs (sorted (discovered generate_thumbs.IMAGES_DIR w))
                      (World (here (thumbs_ready w)) (fs (thumbs_ready w))
                         (stdout (thumbs_ready w)
                          ++ [line_found_nl (length (discovered generate_thumbs.IMAGES_DIR w))])
                         (fslog (thumbs_ready w))) d) as Hd.
        destruct (for_each _ _ _) as [[[]|e] w1]; cbn [fst snd fs] in *;
          [exact Hd | discriminate]. }
    unfold thumbs_ready. cbn [fs]. rewrite !ensure_dir_is_Some. tauto.
  - destruct (discovered resize_for_web.IMAGES_DIR w) as [|p0 l0] eqn:Hl.
    { rewrite web_main_run, Hl.
      destruct (fs w !! resize_for_web.IMAGES_DIR); cbn [print snd fs]; tauto. }
    destruct (web_main_loop w) as (_ & HI & ->); [rewrite Hl; discriminate|].
    rewrite <- Hl. unfold mbind, M_bind, print. cbn [fst snd fs].
    rewrite (web_loop_dirs _ (discovered_parent _ w)); [| reflexivity | exact HI].
    unfold web_ready. cbn [fs]. rewrite ensure_dir_is_Some.
    assert (discovered resize_for_web.IMAGES_DIR w <> []) by (rewrite Hl; discriminate).
    tauto.
Qed.

Lemma glob_list_same (d pattern : string) (w w' : world) :
  (forall n, lookup_file w' (mkPath d n) = lookup_file w (mkPath d n)) ->
  glob_list d pattern w' = glob_list d pattern w.
Proof.
  intros Hsame. unfold glob_list. unfold lookup_file in Hsame. cbn [parent name] in Hsame.
  destruct (fs w !! d) as [files|], (fs w' !! d) as [files'|]; cbn in Hsame.
  - replace files' with files; [reflexivity|]. apply map_eq. intros n. symmetry. apply Hsame.
  - replace files with (∅ : gmap string (list Byte.byte)); [reflexivity|].
    apply map_eq. intros n. rewrite lookup_empty. apply Hsame.
  - replace files' with (∅ : gmap string (list Byte.byte)); [reflexivity|].
    apply map_eq. intros n. rewrite lookup_empty. symmetry. apply Hsame.
  - reflexivity.
Qed.

Lemma generator_keeps_sources (w : world) :
  discovered generate_thumbs.IMAGES_DIR (generate_thumbs.main w).2
  = discovered generate_thumbs.IMAGES_DIR w.
Proof.
  apply discovered_ext. intros pattern. apply glob_list_same. intros n.
  apply generator_frame. intros p _. discriminate.
Qed.

(** X8.  If a run of the generator leaves a thumbnail for every image it
    found, the next run changes no file, makes no file-system call, and
    prints one skip line for each image. *)
Theorem second_run_only_skips (w : world) :
  discovered generate_thumbs.IMAGES_DIR w <> [] ->
  (forall p, p ∈ discovered generate_thumbs.IMAGES_DIR w ->
     is_Some (lookup_file (generate_thumbs.main w).2 (thumb_path p))) ->
  generate_thumbs.main (generate_thumbs.main w).2
  = (Ok (),
     World (here (generate_thumbs.main w).2) (fs (generate_thumbs.main w).2)
       (stdout (generate_thumbs.main w).2
        ++ [line_found_nl (length (discovered generate_thumbs.IMAGES_DIR w))]
        ++ (line_skipped ∘ name <$> sorted (discovered generate_thumbs.IMAGES_DIR w))
        ++ [line_done])
       (fslog (generate_thumbs.main w).2)).
Proof.
  intros Hne Hall. rewrite <- (generator_keeps_sources w).
  apply thumbs_main_idempotent; rewrite generator_keeps_sources; assumption.
Qed.

(** X9.  The generator does not apply the EXIF orientation: what it saves is
    resampled from the pixels as they are decoded, at a size computed from the
    stored width and height, and it passes no EXIF block to the encoder, so
    that the thumbnail carries no orientation tag either. *)
Theorem thumbnails_ignore_orientation (w : world) (image_path thumb : Path) (height : Z) :
  fslog (generate_thumbs.generate_thumbnail image_path thumb height w).2 = fslog w
  \/ exists data img new_width px,
       lookup_file w image_path = Some data
       /\ decode_header data = Ok img
       /\ int_times_ratio height (img_width img) (img_height img) = Ok new_width
       /\ resample img (new_width, height) = Ok px
       /\ fslog (generate_thumbs.generate_thumbnail image_path thumb height w).2
          = fslog w ++ [SaveCall thumb
                          (SaveRequest (Image (new_width, height) (orientation img) px)
                             85 true None)]
       /\ saved_exif (SaveRequest (Image (new_width, height) (orientation img) px)
                        85 true None) = [].
Proof.
  destruct (generate_thumbnail_saves image_path thumb height w)
    as [Hlog | (data & img & nw & resized & Hf & Hdec & Hn & Hr & Hlog)];
    [left; exact Hlog|].
  right. unfold resize in Hr. destruct (load_error img); [discriminate|].
  destruct (resample img (nw, height)) as [px|e] eqn:Hpx; [|discriminate].
  injection Hr as <-. exists data, img, nw, px. auto 10.
Qed.

End Statements.

(** ** The properties on the sample gallery *)

(** C1 as stated fails: the thumbnail of the 2000x3000 portrait is saved
    166 pixels wide, the truncation of 166.67, where rounding to nearest
    gives 167. *)
Lemma thumbnail_width_not_rounded :
  ~ (forall req,
       SaveCall (thumb_path portrait_jpg) req
         ∈ fslog (generate_thumbs.generate_thumbnail portrait_jpg (thumb_path portrait_jpg)
                    250 gallery).2 ->
       img_size (sv_image req) = (spec_thumbnail_width 250 2000 3000, 250)).
Proof.
  intros Hc.
  specialize (Hc (SaveRequest (picture (166, 250) None) 85 true None)).
  assert (fslog (generate_thumbs.generate_thumbnail portrait_jpg (thumb_path portrait_jpg)
                   250 gallery).2
          = [SaveCall (thumb_path portrait_jpg)
               (SaveRequest (picture (166, 250) None) 85 true None)]) as E
    by (vm_compute; reflexivity).
  rewrite E in Hc. specialize (Hc (list_elem_of_here _ _)).
  vm_compute in Hc. discriminate Hc.
Qed.

Lemma thumbnail_width_truncates_witness :
  fslog (generate_thumbs.generate_thumbnail portrait_jpg (thumb_path portrait_jpg)
           250 gallery).2
  = [SaveCall (thumb_path portrait_jpg)
       (SaveRequest (picture (166, 250) None) 85 true None)]
  /\ 250 * 2000 - 3000 <= 166 * 3000 <= 250 * 2000.
Proof.
  destruct (@thumbnail_width_truncates sample_codec gallery portrait_jpg
              (thumb_path portrait_jpg) [Byte.x02] (picture (2000, 3000) None))
    as (new_width & Hw & Hb & _ & Hsave).
  - reflexivity.
  - reflexivity.
  - cbn. lia.
  - cbn. lia.
  - assert (int_times_ratio 250 2000 3000 = Ok 166) as E by (vm_compute; reflexivity).
    change (int_times_ratio 250 2000 3000 = Ok new_width) in Hw.
    rewrite E in Hw. injection Hw as <-.
    split; [|exact Hb].
    apply (Hsave (picture (166, 250) None)); [reflexivity|].
    vm_compute. eauto.
Defined.

Lemma oversized_image_scaled_witness :
  resize_for_web.new_dimensions 3000 4000 3000 = Ok (2250, 3000)
  /\ fslog (resize_for_web.resize_for_web rotated_jpg 3000 80 gallery).2
     = [SaveCall rotated_jpg (SaveRequest (picture (2250, 3000) None) 80 true (Some []))].
Proof.
  destruct (@oversized_image_scaled sample_codec gallery rotated_jpg
              (picture (3000, 4000) None))
    as (short & _ & Hdim & _ & _ & _ & Hsave).
  - reflexivity.
  - cbn. lia.
  - cbn. lia.
  - cbn. lia.
  - assert (resize_for_web.new_dimensions 3000 4000 3000 = Ok (2250, 3000)) as E
      by (vm_compute; reflexivity).
    change (resize_for_web.new_dimensions 3000 4000 3000 = Ok (short, 3000)) in Hdim.
    rewrite E in Hdim. injection Hdim as <-.
    split; [exact E|].
    apply (Hsave (picture (2250, 3000) None)). reflexivity.
Defined.

Lemma small_image_only_reencoded_witness :
  fslog (resize_for_web.resize_for_web portrait_jpg 3000 80 gallery).2
  = [SaveCall portrait_jpg (SaveRequest (picture (2000, 3000) None) 80 true (Some []))].
Proof.
  apply (@small_image_only_reencoded sample_codec gallery portrait_jpg
           (picture (2000, 3000) None)).
  - reflexivity.
  - cbn. lia.
Defined.

(** C6 as stated fails in its example: the 4000x3000 picture with
    orientation 6 is not saved as 3000x2250. *)
Lemma rotated_landscape_not_3000x2250 :
  ~ (forall req,
       SaveCall rotated_jpg req
         ∈ fslog (resize_for_web.resize_for_web rotated_jpg 3000 80 gallery).2 ->
       img_size (sv_image req) = (3000, 2250)).
Proof.
  intros Hc.
  specialize (Hc (SaveRequest (picture (2250, 3000) None) 80 true (Some []))).
  assert (fslog (resize_for_web.resize_for_web rotated_jpg 3000 80 gallery).2
          = [SaveCall rotated_jpg
               (SaveRequest (picture (2250, 3000) None) 80 true (Some []))]) as E
    by (vm_compute; reflexivity).
  rewrite E in Hc. specialize (Hc (list_elem_of_here _ _)). discriminate Hc.
Qed.

Lemma orientation_applied_before_geometry_witness :
  upright gallery rotated_jpg = Ok (Some (picture (3000, 4000) None))
  /\ fslog (resize_for_web.resize_for_web rotated_jpg 3000 80 gallery).2
     = [SaveCall rotated_jpg (SaveRequest (picture (2250, 3000) None) 80 true (Some []))].
Proof.
  destruct (@orientation_applied_before_geometry sample_codec gallery rotated_jpg
              [Byte.x01] (picture (4000, 3000) (Some 6)) (picture (3000, 4000) None)
              eq_refl eq_refl eq_refl eq_refl)
    as (Hup & _ & _ & _ & _ & Hex).
  split; [exact Hup|].
  destruct (Hex eq_refl eq_refl) as (_ & _ & _ & Hsave).
  apply (Hsave (picture (2250, 3000) None)). reflexivity.
Defined.

Lemma backups_made_first_and_kept_witness :
  lookup_file (resize_for_web.main gallery).2 (backup_path rotated_jpg) = Some [Byte.x01].
Proof.
  rewrite (proj1 (@backups_made_first_and_kept sample_codec gallery) rotated_jpg).
  - reflexivity.
  - apply discovered_elem. vm_compute. repeat split. eauto.
Defined.

Lemma thumbnails_never_overwritten_witness :
  fs (generate_thumbs.main finished).2 = fs finished
  /\ fslog (generate_thumbs.main finished).2 = fslog finished.
Proof.
  destruct (proj2 (proj2 (@thumbnails_never_overwritten sample_codec finished)))
    as [-> _].
  - vm_compute. discriminate.
  - intros p Hp. apply discovered_elem in Hp as (Hd & [data Hf] & _).
    destruct p as [d n]. cbn in Hd. subst d. unfold thumb_path. cbn [name].
    exists data. exact Hf.
  - split; reflexivity.
Defined.

Lemma failures_are_per_file_witness :
  stdout (generate_thumbs.generate_thumbnail broken_JPG (thumb_path broken_JPG) 250 gallery).2
  = [line_error "broken.JPG" "cannot identify image file"].
Proof.
  apply (proj1 (@failures_are_per_file sample_codec gallery)).
  apply thumb_decode_fails with (data := [Byte.x00]); reflexivity.
Defined.

(** C8 as stated fails for the resizer: on an empty [images/] it reports
    that there are no files and leaves no backup directory behind. *)
Lemma empty_source_gets_no_backup_dir :
  stdout (resize_for_web.main empty_source).2 = [line_no_jpgs "/site/images"]
  /\ ~ is_Some (fs (resize_for_web.main empty_source).2 !! resize_for_web.BACKUP_DIR).
Proof.
  split; [vm_compute; reflexivity|].
  assert (fs (resize_for_web.main empty_source).2 !! resize_for_web.BACKUP_DIR = None) as ->
    by (vm_compute; reflexivity).
  intros [? ?]. discriminate.
Qed.

Lemma no_jpgs_found_witness :
  generate_thumbs.main empty_source
  = (Ok (),
     World "/site" {[ "images" := ∅; "thumbs" := ∅ ]}
       [line_no_jpgs "/site/images"] [Mkdir "thumbs"])
  /\ resize_for_web.main empty_source
     = (Ok (), World "/site" {[ "images" := ∅ ]} [line_no_jpgs "/site/images"] []).
Proof.
  destruct (@no_jpgs_found sample_codec empty_source) as (Ht & _ & Hw).
  - intros files n Hf [data Hn].
    assert (fs empty_source !! generate_thumbs.IMAGES_DIR = Some ∅) as E
      by (vm_compute; reflexivity).
    rewrite E in Hf. injection Hf as <-. rewrite lookup_empty in Hn. discriminate.
  - split.
    + rewrite Ht. vm_compute. reflexivity.
    + rewrite Hw; [reflexivity|]. vm_compute. eauto.
Defined.

Lemma missing_source_directory_witness :
  resize_for_web.main no_source
  = (Ok (), World "/site" ∅ [line_missing "/site/images"] [])
  /\ generate_thumbs.main no_source
     = (Ok (),
        World "/site" {[ "images" := ∅; "thumbs" := ∅ ]}
          [line_no_jpgs "/site/images"] [Mkdir "images"; Mkdir "thumbs"]).
Proof.
  destruct (@missing_source_directory sample_codec no_source) as [Hw Ht].
  - reflexivity.
  - split; [rewrite Hw; reflexivity | rewrite Ht; vm_compute; reflexivity].
Defined.

Lemma sliver_gets_zero_width_witness :
  int_times_ratio 250 1 300 = Ok 0
  /\ generate_thumbs.generate_thumbnail sliver_jpeg (thumb_path sliver_jpeg) 250 gallery
     = print (line_error "sliver.jpeg" "height and width must be > 0") gallery.
Proof.
  destruct (@sliver_gets_zero_width sample_codec gallery sliver_jpeg
              (thumb_path sliver_jpeg) [Byte.x03] (picture (1, 300) None))
    as [Hw Hrun].
  - reflexivity.
  - reflexivity.
  - cbn. lia.
  - cbn. lia.
  - cbn. lia.
  - split; [exact Hw | rewrite Hrun; reflexivity].
Defined.

(** The bound of one pixel in C1 and C2 is attained: for a 4000x1160 picture
    the exact short side is 870, and the two roundings of the floating-point
    computation give 869. *)
Example short_side_one_below :
  resize_for_web.new_dimensions 4000 1160 3000 = Ok (3000, 869)
  /\ 3000 * 1160 = 870 * 4000.
Proof. split; [vm_compute; reflexivity | reflexivity]. Qed.

(** ** The further properties on the sample galleries *)

Lemma generator_reports_in_name_order_witness :
  exists lines,
    stdout (generate_thumbs.main gallery).2
    = [line_found_nl 4] ++ lines ++ [line_done]
    /\ length lines = 4%nat.
Proof.
  destruct (@generator_reports_in_name_order sample_codec gallery)
    as (lines & Hout & Hall & _).
  - vm_compute. discriminate.
  - exists lines. split; [exact Hout|].
    rewrite <- (Forall2_length _ _ _ Hall). vm_compute. reflexivity.
Defined.

Lemma every_image_accounted_for_witness :
  exists out,
    stdout (generate_thumbs.main gallery).2 = stdout gallery ++ out
    /\ (line_generated "portrait.jpg" ∈ out
        \/ exists e, line_error "portrait.jpg" e ∈ out).
Proof.
  destruct (@every_image_accounted_for sample_codec gallery portrait_jpg)
    as (out & Hout & [(t & Ht & _) | [(_ & _ & Hin) | (_ & e & Hin)]]).
  - apply discovered_elem. vm_compute. repeat split. eauto.
  - vm_compute in Ht. discriminate Ht.
  - exists out. split; [exact Hout | left; exact Hin].
  - exists out. split; [exact Hout | right; exists e; exact Hin].
Defined.

Lemma thumbnail_is_encoded_resize_witness :
  lookup_file (generate_thumbs.main gallery).2 (thumb_path portrait_jpg)
    = Some [Byte.xff; Byte.xd8]
  /\ lookup_file (generate_thumbs.main gallery).2 portrait_jpg = Some [Byte.x02].
Proof.
  apply (@thumbnail_is_encoded_resize sample_codec gallery portrait_jpg [Byte.x02]
           (picture (2000, 3000) None) (picture (166, 250) None) 166).
  - apply discovered_elem. vm_compute. repeat split. eauto.
  - reflexivity.
  - reflexivity.
  - reflexivity.
  - vm_compute. reflexivity.
  - reflexivity.
  - reflexivity.
Defined.

Lemma second_run_only_skips_witness :
  fs (generate_thumbs.main (generate_thumbs.main finished).2).2
  = fs (generate_thumbs.main finished).2.
Proof.
  rewrite (@second_run_only_skips sample_codec finished).
  - reflexivity.
  - vm_compute. discriminate.
  - intros p Hp. apply discovered_elem in Hp as (Hd & [data Hf] & _).
    destruct (@thumbs_main_spec sample_codec finished) as (_ & Hkeep & _).
    destruct p as [d n]. cbn in Hd. subst d. exists data. apply Hkeep. exact Hf.
Defined.

Lemma small_sources_are_enlarged_witness :
  fslog (generate_thumbs.generate_thumbnail icon_jpg (thumb_path icon_jpg) 250 odd_gallery).2
  = [SaveCall (thumb_path icon_jpg) (SaveRequest (odd_picture (333, 250)) 85 true None)]
  /\ 120 <= 333.
Proof.
  destruct (@small_sources_are_enlarged odd_codec odd_gallery icon_jpg (thumb_path icon_jpg)
              [Byte.x08] (odd_picture (120, 90)))
    as (new_width & Hn & Hsmall & _ & _ & Hsave).
  - reflexivity.
  - reflexivity.
  - unfold odd_picture. cbn. lia.
  - unfold odd_picture. cbn. lia.
  - assert (int_times_ratio 250 120 90 = Ok 333) as E by (vm_compute; reflexivity).
    change (int_times_ratio 250 120 90 = Ok new_width) in Hn.
    rewrite E in Hn. injection Hn as <-.
    split; [|apply Hsmall; vm_compute; reflexivity].
    apply (Hsave (odd_picture (333, 250))); [reflexivity|].
    vm_compute. eauto.
Defined.

Lemma missing_file_is_reported_witness :
  generate_thumbs.generate_thumbnail absent_jpg (thumb_path absent_jpg) 250 gallery
  = print (line_error "absent.jpg"
             "[Errno 2] No such file or directory: '/site/images/absent.jpg'") gallery.
Proof.
  apply (proj1 (@missing_file_is_reported sample_codec gallery absent_jpg
                  (thumb_path absent_jpg) 250 3000 80 eq_refl)).
Defined.

Lemma square_images_stay_square_witness :
  int_times_ratio 250 4000 4000 = Ok 250
  /\ resize_for_web.new_dimensions 4000 4000 3000 = Ok (3000, 3000).
Proof.
  apply (square_images_stay_square 4000). change (2 ^ 53) with 9007199254740992. lia.
Defined.

Lemma resizer_only_shrinks_witness :
  exists new_width new_height,
    resize_for_web.new_dimensions 3000 4000 3000 = Ok (new_width, new_height)
    /\ new_width < 3000 /\ new_height < 4000.
Proof.
  destruct (resizer_only_shrinks 3000 4000) as (nw & nh & Hd & Hw & Hh & _).
  - change (2 ^ 31) with 2147483648. lia.
  - change (2 ^ 31) with 2147483648. lia.
  - vm_compute. reflexivity.
  - exists nw, nh. split; [exact Hd|]. lia.
Defined.

Lemma elongated_image_gets_zero_side_witness :
  resize_for_web.new_dimensions 1 4000 3000 = Ok (0, 3000)
  /\ resize_for_web.resize_for_web strip_jpg 3000 80 odd_gallery
     = print (line_error "strip.jpg" "height and width must be > 0") odd_gallery.
Proof.
  destruct (@elongated_image_gets_zero_side odd_codec odd_gallery strip_jpg
              (odd_picture (1, 4000))) as [Hd Hrun].
  - reflexivity.
  - unfold odd_picture. cbn. lia.
  - unfold odd_picture. cbn. lia.
  - vm_compute. reflexivity.
  - vm_compute. reflexivity.
  - split; [exact Hd | etrans; [exact Hrun | reflexivity]].
Defined.

Lemma failed_image_left_untouched_witness :
  lookup_file (resize_for_web.main gallery).2 broken_JPG = Some [Byte.x00].
Proof.
  assert (broken_JPG ∈ discovered resize_for_web.IMAGES_DIR gallery) as Hin
    by (apply discovered_elem; vm_compute; repeat split; eauto).
  rewrite (proj1 (@failed_image_left_untouched sample_codec gallery broken_JPG
                    "cannot identify image file" Hin (or_introl eq_refl))).
  reflexivity.
Defined.

Lemma image_overwritten_in_place_witness :
  lookup_file (resize_for_web.main finished).2 portrait_jpg = Some [Byte.xff; Byte.xd8].
Proof.
  apply (@image_overwritten_in_place sample_codec finished portrait_jpg [Byte.x02]
           (picture (2000, 3000) None) (picture (2000, 3000) None)).
  - apply discovered_elem. vm_compute. repeat split. eauto.
  - reflexivity.
  - reflexivity.
  - left. split; [vm_compute; discriminate | reflexivity].
  - reflexivity.
Defined.

Lemma resizer_output_witness :
  exists blocks,
    stdout (resize_for_web.main gallery).2
    = [line_found 4; line_settings 3000 80; line_creating_backup "/site/images_backup"]
      ++ concat blocks
      ++ [line_processed 4; line_backed_up "/site/images_backup"]
    /\ length blocks = 4%nat.
Proof.
  destruct (@resizer_output sample_codec gallery) as (blocks & Hout & Hall & _).
  - vm_compute. discriminate.
  - exists blocks. split; [exact Hout|].
    rewrite <- (Forall2_length _ _ _ Hall). vm_compute. reflexivity.
Defined.

Lemma resizer_calls_witness :
  exists calls,
    fslog (resize_for_web.main gallery).2 = [Mkdir "images_backup"] ++ concat calls
    /\ length calls = 4%nat.
Proof.
  destruct (@resizer_calls sample_codec gallery) as (calls & Hlog & Hall).
  - vm_compute. discriminate.
  - exists calls. split; [exact Hlog|].
    rewrite <- (Forall2_length _ _ _ Hall). vm_compute. reflexivity.
Defined.
